(** * Legifrance ingestion and tree materialisation: a shallow embedding

    The development follows two scripts of the repository:

    - [scripts/ingest_legifrance_pg.py]: archive entries are turned into
      rows of the [documents] table ([_doc_id], [_upsert_documents],
      [_delete_by_tokens], [ingest_archive]);
    - [scripts/precalculate_all_trees.py]: the tree of one code is rebuilt
      from the [documents] table by waves ([build_tree_optimized]) and
      assembled in memory ([build_node_from_memory]).

    Conventions of the embedding.

    - A Python [str] is represented by its UTF-8 encoding, a Rocq [string]
      (a sequence of 8-bit characters); [bytes] are Rocq strings as well.
      The class [\d] of the regular expressions is the one of Python 3 on
      [str] patterns: every decimal digit of the Unicode Character Database,
      read from the UTF-8 encoding.  [str.lower], [str.upper], [str.strip]
      and [str.splitlines] are modelled on the ASCII range; the properties
      that look inside them are stated for ASCII text.
    - A Python value that is either [None] or a [str] is an [option string];
      a dictionary of such values is a [gmap string (option string)].
    - The [documents] table is the list of its rows; its primary key [id]
      is the invariant [pk_unique].
    - Libraries outside the repository are parameters of a Section
      ([hashlib.sha256], the XML parser, PostgreSQL's [ILIKE]) or are
      modelled after their documented behaviour ([bytes.decode]). *)

From Stdlib Require Import ZArith Ascii String List Lia.
From stdpp Require Import gmap strings list sorting.

Local Open Scope string_scope.
Local Open Scope list_scope.

(** ** Python values *)

Abbreviation pyval := (option string) (only parsing).
Abbreviation pydict := (gmap string (option string)) (only parsing).

(** [d.get(k)] *)
Definition dict_get (d : pydict) (k : string) : pyval :=
  match d !! k with Some v => v | None => None end.

(** [d.get(k, dflt)] *)
Definition dict_get_default (d : pydict) (k : string) (dflt : pyval) : pyval :=
  match d !! k with Some v => v | None => dflt end.

(** Truth value of a [None]-or-[str] value: a non-empty string. *)
Definition truthy (v : pyval) : bool :=
  match v with
  | Some s => negb (String.eqb s "")
  | None => false
  end.

(** Outcome of a piece of Python that can raise. *)
Inductive result (A : Type) : Type :=
| Ok (a : A)
| KeyError (key : string)
| RecursionError.
Arguments Ok {A} a.
Arguments KeyError {A} key.
Arguments RecursionError {A}.

(** ** Strings *)

Module PyStr.

Definition is_digit (c : ascii) : bool :=
  (48 <=? nat_of_ascii c)%nat && (nat_of_ascii c <=? 57)%nat.

Definition is_upper (c : ascii) : bool :=
  (65 <=? nat_of_ascii c)%nat && (nat_of_ascii c <=? 90)%nat.

(** ASCII white space, as [str.strip] and [str.splitlines] see it. *)
Definition is_space (c : ascii) : bool :=
  let n := nat_of_ascii c in
  ((9 <=? n)%nat && (n <=? 13)%nat) || ((28 <=? n)%nat && (n <=? 32)%nat).

Definition lower_char (c : ascii) : ascii :=
  if is_upper c then ascii_of_nat (nat_of_ascii c + 32) else c.

Fixpoint lower (s : string) : string :=
  match s with
  | EmptyString => EmptyString
  | String c s' => String (lower_char c) (lower s')
  end.

Definition is_lower (c : ascii) : bool :=
  (97 <=? nat_of_ascii c)%nat && (nat_of_ascii c <=? 122)%nat.

Definition upper_char (c : ascii) : ascii :=
  if is_lower c then ascii_of_nat (nat_of_ascii c - 32) else c.

Fixpoint upper (s : string) : string :=
  match s with
  | EmptyString => EmptyString
  | String c s' => String (upper_char c) (upper s')
  end.

Fixpoint drop (n : nat) (s : string) : string :=
  match n, s with
  | S n', String _ s' => drop n' s'
  | _, _ => s
  end.

(** [s.startswith(p)] *)
Fixpoint startswith (s p : string) {struct p} : bool :=
  match p with
  | EmptyString => true
  | String a p' =>
      match s with
      | String b s' => Ascii.eqb a b && startswith s' p'
      | EmptyString => false
      end
  end.

(** [sub in s] *)
Fixpoint contains (s sub : string) : bool :=
  startswith s sub ||
  match s with
  | EmptyString => false
  | String _ s' => contains s' sub
  end.

Definition endswith (s suffix : string) : bool :=
  let n := String.length s in
  let k := String.length suffix in
  (k <=? n)%nat && String.eqb (drop (n - k) s) suffix.

Fixpoint lstrip (s : string) : string :=
  match s with
  | String c s' => if is_space c then lstrip s' else s
  | EmptyString => EmptyString
  end.

Fixpoint rstrip (s : string) : string :=
  match s with
  | EmptyString => EmptyString
  | String c s' =>
      match rstrip s' with
      | EmptyString => if is_space c then EmptyString else String c EmptyString
      | r => String c r
      end
  end.

Definition strip (s : string) : string := rstrip (lstrip s).

(** [eat p n s]: [s] starts with [n] characters of class [p]; the rest. *)
Fixpoint eat (p : ascii -> bool) (n : nat) (s : string) : option string :=
  match n with
  | O => Some s
  | S n' =>
      match s with
      | String c s' => if p c then eat p n' s' else None
      | EmptyString => None
      end
  end.

Definition eat_lit (lit s : string) : option string :=
  if startswith s lit then Some (drop (String.length lit) s) else None.

(** What a pattern anchored at the start of [s] has matched when [rest] is
    what it leaves: [s] without [rest]. *)
Definition matched (s rest : string) : string :=
  String.substring 0 (String.length s - String.length rest) s.

(** [s.splitlines()] on the ASCII line boundaries. *)
Definition is_linebreak (c : ascii) : bool :=
  let n := nat_of_ascii c in
  ((10 <=? n)%nat && (n <=? 13)%nat) || ((28 <=? n)%nat && (n <=? 30)%nat).

Fixpoint splitlines_from (cur s : string) : list string :=
  match s with
  | EmptyString => if String.eqb cur "" then [] else [cur]
  | String c s' =>
      if is_linebreak c then
        cur :: match nat_of_ascii c, s' with
               | 13, String c' s'' =>
                   if (nat_of_ascii c' =? 10)%nat then splitlines_from "" s''
                   else splitlines_from "" s'
               | _, _ => splitlines_from "" s'
               end
      else splitlines_from (cur ++ String c "") s'
  end.

Definition splitlines (s : string) : list string := splitlines_from "" s.

End PyStr.

(** ** [bytes.decode("utf-8", errors=...)]

    The decoder of CPython: a well-formed sequence is kept; an invalid start
    byte, or the well-formed prefix of a sequence cut short by a byte that
    cannot continue it or by the end of the data, becomes one replacement.
    Since a [str] is represented by its UTF-8 encoding, the replacement is
    the encoding of U+FFFD for [errors="replace"] and the empty string for
    [errors="ignore"]. *)

Module Utf8.

Definition is_cont (c : ascii) : bool :=
  (128 <=? nat_of_ascii c)%nat && (nat_of_ascii c <=? 191)%nat.

(** Second bytes refused after the lead bytes E0, ED, F0 and F4. *)
Definition second_ok (lead : nat) (c2 : ascii) : bool :=
  let n2 := nat_of_ascii c2 in
  is_cont c2 &&
  negb ((lead =? 224)%nat && (n2 <? 160)%nat) &&
  negb ((lead =? 237)%nat && (160 <=? n2)%nat) &&
  negb ((lead =? 240)%nat && (n2 <? 144)%nat) &&
  negb ((lead =? 244)%nat && (144 <=? n2)%nat).

Definition U_FFFD : string :=
  String (ascii_of_nat 239) (String (ascii_of_nat 191) (String (ascii_of_nat 189) "")).

Fixpoint decode (repl : string) (s : string) : string :=
  match s with
  | EmptyString => EmptyString
  | String c s1 =>
      let ch := nat_of_ascii c in
      if (ch <? 128)%nat then String c (decode repl s1)
      else if (ch <? 194)%nat then repl ++ decode repl s1
      else if (ch <? 224)%nat then
        match s1 with
        | EmptyString => repl
        | String c2 s2 =>
            if is_cont c2 then String c (String c2 (decode repl s2))
            else repl ++ decode repl s1
        end
      else if (ch <? 240)%nat then
        match s1 with
        | EmptyString => repl
        | String c2 s2 =>
            if second_ok ch c2 then
              match s2 with
              | EmptyString => repl
              | String c3 s3 =>
                  if is_cont c3
                  then String c (String c2 (String c3 (decode repl s3)))
                  else repl ++ decode repl s2
              end
            else repl ++ decode repl s1
        end
      else if (ch <? 245)%nat then
        match s1 with
        | EmptyString => repl
        | String c2 s2 =>
            if second_ok ch c2 then
              match s2 with
              | EmptyString => repl
              | String c3 s3 =>
                  if is_cont c3 then
                    match s3 with
                    | EmptyString => repl
                    | String c4 s4 =>
                        if is_cont c4
                        then String c (String c2 (String c3 (String c4 (decode repl s4))))
                        else repl ++ decode repl s3
                    end
                  else repl ++ decode repl s2
              end
            else repl ++ decode repl s1
        end
      else repl ++ decode repl s1
  end.

(** [data.decode("utf-8", errors="replace")] *)
Definition decode_replace (data : string) : string := decode U_FFFD data.

(** [data.decode("utf-8", errors="ignore")] *)
Definition decode_ignore (data : string) : string := decode "" data.

(** Well-formed UTF-8 (table 3-7 of the Unicode standard). *)
Fixpoint well_formed (s : string) : bool :=
  match s with
  | EmptyString => true
  | String c s1 =>
      let ch := nat_of_ascii c in
      if (ch <? 128)%nat then well_formed s1
      else if (ch <? 194)%nat then false
      else if (ch <? 224)%nat then
        match s1 with
        | String c2 s2 => is_cont c2 && well_formed s2
        | _ => false
        end
      else if (ch <? 240)%nat then
        match s1 with
        | String c2 (String c3 s3) => second_ok ch c2 && is_cont c3 && well_formed s3
        | _ => false
        end
      else if (ch <? 245)%nat then
        match s1 with
        | String c2 (String c3 (String c4 s4)) =>
            second_ok ch c2 && is_cont c3 && is_cont c4 && well_formed s4
        | _ => false
        end
      else false
  end.

End Utf8.

(** ** Characters beyond ASCII

    A [str] being represented by its UTF-8 encoding, the character that
    starts a string is read by decoding one sequence.  Bytes that are not
    well-formed UTF-8 stand for no character of any class. *)

Module Unicode.

(** The code point whose encoding starts [s], and what follows it. *)
Definition code_point_at (s : string) : option (N * string) :=
  match s with
  | EmptyString => None
  | String c s1 =>
      let ch := nat_of_ascii c in
      if (ch <? 128)%nat then Some (N_of_ascii c, s1)
      else if (ch <? 194)%nat then None
      else if (ch <? 224)%nat then
        match s1 with
        | String c2 s2 =>
            if Utf8.is_cont c2
            then Some ((N_of_ascii c - 192) * 64 + (N_of_ascii c2 - 128), s2)%N
            else None
        | EmptyString => None
        end
      else if (ch <? 240)%nat then
        match s1 with
        | String c2 (String c3 s3) =>
            if Utf8.second_ok ch c2 && Utf8.is_cont c3
            then Some ((N_of_ascii c - 224) * 4096 + (N_of_ascii c2 - 128) * 64
                       + (N_of_ascii c3 - 128), s3)%N
            else None
        | _ => None
        end
      else if (ch <? 245)%nat then
        match s1 with
        | String c2 (String c3 (String c4 s4)) =>
            if Utf8.second_ok ch c2 && Utf8.is_cont c3 && Utf8.is_cont c4
            then Some ((N_of_ascii c - 240) * 262144 + (N_of_ascii c2 - 128) * 4096
                       + (N_of_ascii c3 - 128) * 64 + (N_of_ascii c4 - 128), s4)%N
            else None
        | _ => None
        end
      else None
  end.

(** The decimal digits (general category Nd) of the Unicode Character
    Database 14.0, the one of CPython 3.11, as ranges of code points: what
    [\d] matches in a [str] pattern. *)
Definition decimal_ranges : list (N * N) :=
  [(48, 57); (1632, 1641); (1776, 1785); (1984, 1993); (2406, 2415);
   (2534, 2543); (2662, 2671); (2790, 2799); (2918, 2927); (3046, 3055);
   (3174, 3183); (3302, 3311); (3430, 3439); (3558, 3567); (3664, 3673);
   (3792, 3801); (3872, 3881); (4160, 4169); (4240, 4249); (6112, 6121);
   (6160, 6169); (6470, 6479); (6608, 6617); (6784, 6793); (6800, 6809);
   (6992, 7001); (7088, 7097); (7232, 7241); (7248, 7257); (42528, 42537);
   (43216, 43225); (43264, 43273); (43472, 43481); (43504, 43513);
   (43600, 43609); (44016, 44025); (65296, 65305); (66720, 66729);
   (68912, 68921); (69734, 69743); (69872, 69881); (69942, 69951);
   (70096, 70105); (70384, 70393); (70736, 70745); (70864, 70873);
   (71248, 71257); (71360, 71369); (71472, 71481); (71904, 71913);
   (72016, 72025); (72784, 72793); (73040, 73049); (73120, 73129);
   (92768, 92777); (92864, 92873); (93008, 93017); (120782, 120831);
   (123200, 123209); (123632, 123641); (125264, 125273); (130032, 130041)]%N.

Definition is_decimal (cp : N) : bool :=
  existsb (λ r, (r.1 <=? cp)%N && (cp <=? r.2)%N) decimal_ranges.

(** [\d] at the start of [s]: what follows one decimal digit. *)
Definition eat_digit (s : string) : option string :=
  match code_point_at s with
  | Some (cp, rest) => if is_decimal cp then Some rest else None
  | None => None
  end.

(** [\d{n}] at the start of [s]: what follows [n] decimal digits. *)
Fixpoint eat_digits (n : nat) (s : string) : option string :=
  match n with
  | O => Some s
  | S n' =>
      match eat_digit s with
      | Some rest => eat_digits n' rest
      | None => None
      end
  end.

End Unicode.

(** ** Regular expressions of the scripts *)

Module Re.

(** First success of [f] over the candidates, in order. *)
Fixpoint first_some {A B} (f : A -> option B) (l : list A) : option B :=
  match l with
  | [] => None
  | a :: l' => match f a with Some b => Some b | None => first_some f l' end
  end.

(** [LEGI[A-Z]{k}\d{12}] anchored at the start of [s]. *)
Definition legi_id_with (k : nat) (s : string) : option string :=
  match PyStr.eat_lit "LEGI" s with
  | None => None
  | Some s1 =>
      match PyStr.eat PyStr.is_upper k s1 with
      | None => None
      | Some s2 =>
          match Unicode.eat_digits 12 s2 with
          | None => None
          | Some s3 => Some (PyStr.matched s s3)
          end
      end
  end.

(** [(LEGI[A-Z]{lo,hi}\d{12})] anchored at the start of [s]; [ks] lists
    the repetition counts in the order a greedy quantifier tries them. *)
Definition legi_id_at (ks : list nat) (s : string) : option string :=
  first_some (fun k => legi_id_with k s) ks.

(** [re.search(pattern, s)] with group 1: the leftmost match. *)
Fixpoint search_legi_id (ks : list nat) (s : string) : option string :=
  match legi_id_at ks s with
  | Some m => Some m
  | None =>
      match s with
      | EmptyString => None
      | String _ s' => search_legi_id ks s'
      end
  end.

(** [re.sub(r'^\d{8}-\d{6}/', '', s)] *)
Definition strip_timestamp (s : string) : string :=
  match Unicode.eat_digits 8 s with
  | Some (String "-"%char s1) =>
      match Unicode.eat_digits 6 s1 with
      | Some (String "/"%char s2) => s2
      | _ => s
      end
  | _ => s
  end.

End Re.

(** ** The [documents] table *)

(** The [meta] column: the dictionary built by the extractor, stored as
    [jsonb].  A key that is absent and a key that holds [null] are read the
    same way by every access of the scripts ([meta.get(k)], [meta->>'k'],
    [meta->'k']), so a field is an option. *)
Record meta : Type := Meta {
  m_id : pyval;
  m_titre : pyval;
  m_nature : pyval;
  m_parent : pyval;
  m_date_debut : pyval;
  m_nb_sections : option Z;
  m_nb_articles : option Z;
  m_sous_sections : option (list pydict);
  m_articles : option (list pydict);
  m_parse_error : bool;
  m_error : pyval;
  m_source : pyval;
  (** keys the modelled code never reads: root_tag, cid, name, etat, ... *)
  m_extra : pydict
}.

Definition empty_meta : meta :=
  {| m_id := None; m_titre := None; m_nature := None; m_parent := None;
     m_date_debut := None; m_nb_sections := None; m_nb_articles := None;
     m_sous_sections := None; m_articles := None; m_parse_error := false;
     m_error := None; m_source := None; m_extra := ∅ |}.

(** Row: (id, source, doctype, path, updated_at, sha256, meta_json,
    content_xml, content_text) *)
Record document : Type := Document {
  d_id : string;
  d_source : string;
  d_doctype : string;
  d_path : string;
  d_updated_at : string;
  d_sha256 : string;
  d_meta : meta;
  d_content_xml : string;
  d_content_text : string
}.

Abbreviation table := (list document) (only parsing).

(** The primary key of [documents]. *)
Definition pk_unique (tbl : table) : Prop := NoDup (d_id <$> tbl).

(** The rows of the table that carry the id [i]. *)
Definition rows_with_id (i : string) (tbl : table) : list document :=
  filter (λ d, d_id d = i) tbl.

(** ** scripts/ingest_legifrance_pg.py *)

Module Ingest.

Definition _guess_doctype (path_in_tar : string) : string :=
  let p := PyStr.lower path_in_tar in
  if PyStr.endswith p ".xml" then
    if PyStr.contains p "/article" || PyStr.contains p "article" then "article"
    else if PyStr.contains p "/texte" || PyStr.contains p "texte" then "texte"
    else if PyStr.contains p "/section_ta" || PyStr.contains p "section_ta" then "section"
    else "xml"
  else if PyStr.endswith p ".dat" then
    if PyStr.contains p "liste_suppression" then "suppression_list"
    else "dat"
  else "blob".

(** [(text, meta)] of the [except] branch. *)
Definition parse_error_record (e : string) : string * meta :=
  ("", {| m_id := None; m_titre := None; m_nature := None; m_parent := None;
          m_date_debut := None; m_nb_sections := None; m_nb_articles := None;
          m_sous_sections := None; m_articles := None; m_parse_error := true;
          m_error := Some e; m_source := None; m_extra := ∅ |}).

(** [meta.update({"source": source})] *)
Definition meta_set_source (m : meta) (source : string) : meta :=
  {| m_id := m_id m; m_titre := m_titre m; m_nature := m_nature m;
     m_parent := m_parent m; m_date_debut := m_date_debut m;
     m_nb_sections := m_nb_sections m; m_nb_articles := m_nb_articles m;
     m_sous_sections := m_sous_sections m; m_articles := m_articles m;
     m_parse_error := m_parse_error m; m_error := m_error m;
     m_source := Some source; m_extra := m_extra m |}.

Definition _parse_suppression_list (data : string) : list string :=
  let keep (raw : string) : option string :=
    let s := PyStr.strip raw in
    if String.eqb s "" || PyStr.startswith s "#" then None else Some s in
  omap keep (PyStr.splitlines (Utf8.decode_ignore data)).

(** One [INSERT ... ON CONFLICT (id) DO UPDATE SET ...] statement: the
    row that holds the id takes every column of the new row; without a
    conflict the row is added. *)
Fixpoint upsert_row (r : document) (tbl : table) : table :=
  match tbl with
  | [] => [r]
  | d :: tbl' =>
      if decide (d_id d = d_id r) then r :: tbl'
      else d :: upsert_row r tbl'
  end.

(** [cur.executemany(sql, rows)]: the statement once per row, in order. *)
Definition _upsert_documents (tbl : table) (rows : list document) : table :=
  foldl (λ t r, upsert_row r t) tbl rows.

(** [range(0, len(l), n)] with [l[i:i+n]]. *)
Fixpoint batches_fuel {A} (fuel n : nat) (l : list A) : list (list A) :=
  match fuel with
  | O => []
  | S fuel' =>
      match l with
      | [] => []
      | _ => take n l :: batches_fuel fuel' n (drop n l)
      end
  end.

Definition batches {A} (n : nat) (l : list A) : list (list A) :=
  batches_fuel (length l) n l.

(** The split of [_delete_by_tokens]: ids found in the tokens, and the
    tokens without an id. *)
Fixpoint split_tokens (tokens : list string) : list string * list string :=
  match tokens with
  | [] => ([], [])
  | token :: rest =>
      let '(ids_to_delete, tokens_without_id) := split_tokens rest in
      match Re.search_legi_id [5; 4; 3] token with
      | Some i => (i :: ids_to_delete, tokens_without_id)
      | None => (ids_to_delete, token :: tokens_without_id)
      end
  end.

(** [WHERE source = %s AND meta->>'id' = ANY(%s)] *)
Definition fast_where (source : string) (batch : list string) (d : document) : bool :=
  bool_decide (d_source d = source) &&
  match m_id (d_meta d) with
  | Some i => bool_decide (i ∈ batch)
  | None => false
  end.

(** [DELETE FROM documents WHERE ...]: the table left and [cur.rowcount]. *)
Definition sql_delete (w : document → bool) (tbl : table) : table * nat :=
  (filter (λ d, w d = false) tbl, length (filter (λ d, w d = true) tbl)).

Section WithLibraries.

(** [hashlib.sha256(data).hexdigest()] *)
Variable sha256_hexdigest : string → string.

(** The body of the [try] block of [_extract_text_and_meta_from_xml]
    (lxml's parser and the navigation of the parsed tree): [inr (text,
    meta)] when it returns, [inl msg] when it raises an exception [e]
    with [str(e) = msg]. *)
Variable parse_xml : string → string → string + (string * meta).

(** PostgreSQL's [subject ILIKE pattern] and the cast [meta::text]. *)
Variable ilike : string → string → bool.
Variable meta_text : meta → string.

Definition _sha256_bytes (data : string) : string := sha256_hexdigest data.

Definition _extract_text_and_meta_from_xml (xml_bytes path_in_tar : string)
  : string * meta :=
  match parse_xml xml_bytes path_in_tar with
  | inr tm => tm
  | inl e => parse_error_record e
  end.

Definition _doc_id (source path_in_tar : string) (meta : option meta) : string :=
  let from_path :=
    match Re.search_legi_id [4; 3] path_in_tar with
    | Some i => i
    | None =>
        let stable_path := Re.strip_timestamp path_in_tar in
        sha256_hexdigest (source +:+ ":" +:+ stable_path)
    end in
  match meta with
  | Some m =>
      match m_id m with
      | Some i => if truthy (Some i) then i else from_path
      | None => from_path
      end
  | None => from_path
  end.

(** [WHERE source = %s AND (path ILIKE ANY(%s) OR meta::text ILIKE ANY(%s))] *)
Definition slow_where (source : string) (patterns : list string) (d : document) : bool :=
  bool_decide (d_source d = source) &&
  (existsb (ilike (d_path d)) patterns
   || existsb (ilike (meta_text (d_meta d))) patterns).

(** The fast deletes, one per batch. *)
Definition delete_batches (source : string) (bs : list (list string))
    (st : table * nat) : table * nat :=
  foldl (λ '(tbl, total_deleted) batch,
           let '(tbl', rowcount) := sql_delete (fast_where source batch) tbl in
           (tbl', total_deleted + rowcount))
        st bs.

Definition _delete_by_tokens (tbl : table) (tokens : list string) (source : string)
  : table * nat :=
  match tokens with
  | [] => (tbl, 0)
  | _ =>
      let '(ids_to_delete, tokens_without_id) := split_tokens (take 5000 tokens) in
      let st1 :=
        match ids_to_delete with
        | [] => (tbl, 0)
        | _ => delete_batches source (batches 1000 ids_to_delete) (tbl, 0)
        end in
      match tokens_without_id with
      | [] => st1
      | _ =>
          let patterns := (λ t, "%" +:+ t +:+ "%") <$> tokens_without_id in
          let '(tbl2, rowcount) := sql_delete (slow_where source patterns) st1.1 in
          (tbl2, st1.2 + rowcount)
      end
  end.

(** One member of the tar stream: [member.name], [member.isfile()] and
    what [tar.extractfile(member)] reads ([None] when there is no file
    object). *)
Record member : Type := Member {
  mb_name : string;
  mb_isfile : bool;
  mb_data : option string
}.

(** The variables of [ingest_archive] and the table behind [conn]. *)
Record ingest_state : Type := IngestState {
  st_tbl : table;
  st_pending : list document;
  st_files_seen : nat;
  st_do_inserts : nat;
  st_do_deletes : nat
}.

(** [_upsert_documents(conn, pending); conn.commit();
    do_inserts += len(pending); pending.clear()] *)
Definition flush (st : ingest_state) : ingest_state :=
  {| st_tbl := _upsert_documents (st_tbl st) (st_pending st);
     st_pending := [];
     st_files_seen := st_files_seen st;
     st_do_inserts := st_do_inserts st + length (st_pending st);
     st_do_deletes := st_do_deletes st |}.

(** The row appended to [pending] for an XML entry. *)
Definition make_row (source updated_at path_in_tar doctype data : string) : document :=
  let '(text, meta) := _extract_text_and_meta_from_xml data path_in_tar in
  let meta := meta_set_source meta source in
  {| d_id := _doc_id source path_in_tar (Some meta);
     d_source := source;
     d_doctype := doctype;
     d_path := path_in_tar;
     d_updated_at := updated_at;
     d_sha256 := _sha256_bytes data;
     d_meta := meta;
     d_content_xml := Utf8.decode_replace data;
     d_content_text := text |}.

(** The body of the loop [for member in tar]. *)
Definition ingest_member (source updated_at : string) (batch_size : nat)
    (st : ingest_state) (m : member) : ingest_state :=
  if negb (mb_isfile m) then st
  else
    let files_seen := st_files_seen st + 1 in
    match mb_data m with
    | None =>
        {| st_tbl := st_tbl st; st_pending := st_pending st;
           st_files_seen := files_seen;
           st_do_inserts := st_do_inserts st; st_do_deletes := st_do_deletes st |}
    | Some data =>
        let path_in_tar := mb_name m in
        let doctype := _guess_doctype path_in_tar in
        if String.eqb doctype "suppression_list" then
          let tokens := _parse_suppression_list data in
          let '(tbl', deleted) := _delete_by_tokens (st_tbl st) tokens source in
          {| st_tbl := tbl'; st_pending := st_pending st;
             st_files_seen := files_seen;
             st_do_inserts := st_do_inserts st;
             st_do_deletes := st_do_deletes st + deleted |}
        else if bool_decide (doctype ∈ ["article"; "texte"; "section"; "xml"])
                && PyStr.endswith (PyStr.lower path_in_tar) ".xml" then
          let pending :=
            st_pending st ++ [make_row source updated_at path_in_tar doctype data] in
          let st' :=
            {| st_tbl := st_tbl st; st_pending := pending;
               st_files_seen := files_seen;
               st_do_inserts := st_do_inserts st;
               st_do_deletes := st_do_deletes st |} in
          if (batch_size <=? length pending)%nat then flush st' else st'
        else
          {| st_tbl := st_tbl st; st_pending := st_pending st;
             st_files_seen := files_seen;
             st_do_inserts := st_do_inserts st; st_do_deletes := st_do_deletes st |}
    end.

(** [ingest_archive(conn, source, archive_path, logger, updated_at,
    batch_size)]: the table after the run and the statistics. *)
Definition ingest_archive (tbl : table) (source : string) (members : list member)
    (updated_at : string) (batch_size : nat) : ingest_state :=
  let source := PyStr.upper source in
  let st0 := {| st_tbl := tbl; st_pending := []; st_files_seen := 0;
                st_do_inserts := 0; st_do_deletes := 0 |} in
  let st := foldl (ingest_member source updated_at batch_size) st0 members in
  match st_pending st with
  | [] => st
  | _ => flush st
  end.

End WithLibraries.

(** *** When the database refuses a row

    [cur.executemany] raises when the driver or the server refuses a row
    (a text that holds a NUL character, for instance).  Neither
    [ingest_archive] nor [run] catches the exception: it ends the loop over
    the archive.  [accepts r] tells whether the row [r] is taken, and
    [None] stands for the exception.  [_delete_by_tokens] and the reading
    of the archive are taken to succeed. *)

Section WithDriver.

Variable sha256_hexdigest : string → string.
Variable parse_xml : string → string → string + (string * meta).
Variable ilike : string → string → bool.
Variable meta_text : meta → string.
Variable accepts : document → bool.

(** [_upsert_documents(conn, pending); conn.commit();
    do_inserts += len(pending); pending.clear()] *)
Definition flush_checked (st : ingest_state) : option ingest_state :=
  if forallb accepts (st_pending st) then Some (flush st) else None.

(** The body of the loop [for member in tar]. *)
Definition ingest_member_checked (source updated_at : string) (batch_size : nat)
    (st : ingest_state) (m : member) : option ingest_state :=
  if negb (mb_isfile m) then Some st
  else
    let files_seen := st_files_seen st + 1 in
    match mb_data m with
    | None =>
        Some {| st_tbl := st_tbl st; st_pending := st_pending st;
                st_files_seen := files_seen;
                st_do_inserts := st_do_inserts st; st_do_deletes := st_do_deletes st |}
    | Some data =>
        let path_in_tar := mb_name m in
        let doctype := _guess_doctype path_in_tar in
        if String.eqb doctype "suppression_list" then
          let tokens := _parse_suppression_list data in
          let '(tbl', deleted) :=
            _delete_by_tokens ilike meta_text (st_tbl st) tokens source in
          Some {| st_tbl := tbl'; st_pending := st_pending st;
                  st_files_seen := files_seen;
                  st_do_inserts := st_do_inserts st;
                  st_do_deletes := st_do_deletes st + deleted |}
        else if bool_decide (doctype ∈ ["article"; "texte"; "section"; "xml"])
                && PyStr.endswith (PyStr.lower path_in_tar) ".xml" then
          let pending :=
            st_pending st
            ++ [make_row sha256_hexdigest parse_xml source updated_at path_in_tar
                  doctype data] in
          let st' :=
            {| st_tbl := st_tbl st; st_pending := pending;
               st_files_seen := files_seen;
               st_do_inserts := st_do_inserts st;
               st_do_deletes := st_do_deletes st |} in
          if (batch_size <=? length pending)%nat then flush_checked st' else Some st'
        else
          Some {| st_tbl := st_tbl st; st_pending := st_pending st;
                  st_files_seen := files_seen;
                  st_do_inserts := st_do_inserts st; st_do_deletes := st_do_deletes st |}
    end.

(** The loop: a member is looked at only when no exception has been
    raised before it. *)
Definition ingest_members_checked (source updated_at : string) (batch_size : nat)
    (st : option ingest_state) (members : list member) : option ingest_state :=
  foldl (λ acc m,
           match acc with
           | Some st => ingest_member_checked source updated_at batch_size st m
           | None => None
           end)
        st members.

(** [ingest_archive(conn, source, archive_path, logger, updated_at,
    batch_size)]: the table after the run and the statistics, or the
    exception. *)
Definition ingest_archive_checked (tbl : table) (source : string)
    (members : list member) (updated_at : string) (batch_size : nat)
  : option ingest_state :=
  let source := PyStr.upper source in
  let st0 := {| st_tbl := tbl; st_pending := []; st_files_seen := 0;
                st_do_inserts := 0; st_do_deletes := 0 |} in
  match ingest_members_checked source updated_at batch_size (Some st0) members with
  | Some st =>
      match st_pending st with
      | [] => Some st
      | _ => flush_checked st
      end
  | None => None
  end.

End WithDriver.

End Ingest.

(** ** scripts/precalculate_all_trees.py *)

Module Trees.

(** *** The queries of [build_tree_optimized] *)

(** [meta->>'id'] *)
Definition meta_id (d : document) : pyval := m_id (d_meta d).

(** [COALESCE(meta->>'date_debut', '1900-01-01')] *)
Definition date_rank (d : document) : string :=
  match m_date_debut (d_meta d) with Some s => s | None => "1900-01-01" end.

(** Ascending order of a text column; [NULL] sorts last. *)
Definition id_compare (a b : pyval) : comparison :=
  match a, b with
  | Some x, Some y => String.compare x y
  | Some _, None => Lt
  | None, Some _ => Gt
  | None, None => Eq
  end.

(** [ORDER BY meta->>'id', COALESCE(meta->>'date_debut', '1900-01-01') DESC] *)
Definition order_by_leb (a b : document) : bool :=
  match id_compare (meta_id a) (meta_id b) with
  | Lt => true
  | Gt => false
  | Eq => String.leb (date_rank b) (date_rank a)
  end.

Definition order_by : relation document := λ a b, order_by_leb a b = true.

#[global] Instance order_by_dec a b : Decision (order_by a b).
Proof. unfold order_by. apply _. Defined.

(** [SELECT DISTINCT ON (meta->>'id')] over ordered rows: the first row
    of every group of equal ids; [prev] is the id of the row before. *)
Fixpoint distinct_on_id (prev : option pyval) (rows : list document) : list document :=
  match rows with
  | [] => []
  | d :: rest =>
      if decide (prev = Some (meta_id d)) then distinct_on_id prev rest
      else d :: distinct_on_id (Some (meta_id d)) rest
  end.

(** The rows a [SELECT DISTINCT ON ... WHERE w ORDER BY ...] keeps. *)
Definition select_latest (w : document → bool) (tbl : table) : list document :=
  distinct_on_id None (merge_sort order_by (filter (λ d, w d = true) tbl)).

(** One record built from [cur.fetchall()]. *)
Record section_row : Type := SectionRow {
  s_id : pyval;
  s_titre : pyval;
  s_sous_sections : option (list pydict);
  s_articles : option (list pydict);
  s_nb_sections : Z;
  s_nb_articles : Z
}.

Definition to_section_row (d : document) : section_row :=
  {| s_id := meta_id d;
     s_titre := m_titre (d_meta d);
     s_sous_sections := m_sous_sections (d_meta d);
     s_articles := m_articles (d_meta d);
     s_nb_sections := match m_nb_sections (d_meta d) with Some z => z | None => 0%Z end;
     s_nb_articles := match m_nb_articles (d_meta d) with Some z => z | None => 0%Z end |}.

Definition is_legi (doctype : string) (d : document) : bool :=
  bool_decide (d_source d = "LEGI") && bool_decide (d_doctype d = doctype).

(** [WHERE source = 'LEGI' AND doctype = 'texte' AND meta->>'id' = %s] *)
Definition code_where (code_id : string) (d : document) : bool :=
  is_legi "texte" d && bool_decide (meta_id d = Some code_id).

(** [WHERE source = 'LEGI' AND doctype = 'section' AND meta->>'parent' = %s] *)
Definition roots_where (code_id : string) (d : document) : bool :=
  is_legi "section" d && bool_decide (m_parent (d_meta d) = Some code_id).

(** [WHERE source = 'LEGI' AND doctype = 'section' AND meta->>'id' = ANY(%s)] *)
Definition wave_where (ids_list : list pyval) (d : document) : bool :=
  is_legi "section" d &&
  match meta_id d with
  | Some i => bool_decide (Some i ∈ ids_list)
  | None => false
  end.

(** [SELECT meta->>'titre', meta->>'nature' ... LIMIT 1] *)
Definition select_code (tbl : table) (code_id : string) : option (pyval * pyval) :=
  match filter (λ d, code_where code_id d = true) tbl with
  | d :: _ => Some (m_titre (d_meta d), m_nature (d_meta d))
  | [] => None
  end.

Definition select_roots (tbl : table) (code_id : string) : list section_row :=
  to_section_row <$> select_latest (roots_where code_id) tbl.

Definition select_wave (tbl : table) (ids_list : list pyval) : list section_row :=
  to_section_row <$> select_latest (wave_where ids_list) tbl.

(** The statements sent through [cur.execute], in order. *)
Inductive query : Type :=
| QCode (code_id : string)
| QRoots (code_id : string)
| QWave (ids_list : list pyval).

Definition is_section_fetch (q : query) : bool :=
  match q with QCode _ => false | _ => true end.

(** *** Loading by waves *)

(** [for row in rows: d[row[0]] = {...}] *)
Definition rows_to_dict (rows : list section_row) : gmap pyval section_row :=
  foldl (λ m s, <[s_id s := s]> m) ∅ rows.

(** The loop over [section_data["sous_sections"]] that adds to [seen] the
    child ids that are truthy and in neither [loaded] nor [seen]. *)
Definition add_child_ids (loaded : gset pyval) (section_data : section_row)
    (seen : gset pyval) : gset pyval :=
  match s_sous_sections section_data with
  | None => seen
  | Some sss =>
      foldl (λ acc ss,
               let ss_id := dict_get ss "id" in
               if truthy ss_id && bool_decide (ss_id ∉ loaded) && bool_decide (ss_id ∉ acc)
               then {[ss_id]} ∪ acc else acc)
            seen sss
  end.

(** [collect_subsection_ids] over the values of [root_sections]; the
    closure adds to [all_needed_ids]. *)
Definition collect_subsection_ids (all_needed_ids : gset pyval)
    (section_data : section_row) : gset pyval :=
  add_child_ids ∅ section_data all_needed_ids.

(** State of the [while] loop. *)
Record wave_state : Type := WaveState {
  all_sections : gmap pyval section_row;
  remaining_ids : gset pyval;
  wave_num : nat;
  queries : list query
}.

(** One turn of the loop. *)
Definition wave_step (tbl : table) (st : wave_state) : wave_state :=
  let ids_list := elements (remaining_ids st) in
  let new_sections := rows_to_dict (select_wave tbl ids_list) in
  let all_sections' := new_sections ∪ all_sections st in
  let new_ids_to_fetch :=
    foldl (λ acc section, add_child_ids (dom all_sections') section acc)
          ∅ ((map_to_list new_sections).*2) in
  {| all_sections := all_sections';
     remaining_ids := new_ids_to_fetch;
     wave_num := wave_num st + 1;
     queries := queries st ++ [QWave ids_list] |}.

(** [while remaining_ids and wave_num < max_waves]; [budget] is
    [max_waves - wave_num]. *)
Fixpoint wave_loop (budget : nat) (tbl : table) (st : wave_state) : wave_state :=
  match budget with
  | O => st
  | S budget' =>
      if decide (remaining_ids st = ∅) then st
      else wave_loop budget' tbl (wave_step tbl st)
  end.

Definition max_waves : nat := 10.

(** *** Assembly in memory *)

Record article : Type := Article {
  a_id : pyval;
  a_num : pyval;
  a_titre : pyval
}.

(** An output node; the keys [children] and [articles] are set only to
    non-empty lists. *)
Inductive node : Type := Node {
  n_id : pyval;
  n_titre : pyval;
  n_nb_sections : Z;
  n_nb_articles : Z;
  n_children : option (list node);
  n_articles : option (list article)
}.

(** [x.get('fin', '2999-01-01') == '2999-01-01' or x.get('etat') == 'VIGUEUR'] *)
Definition en_vigueur (x : pydict) : bool :=
  bool_decide (dict_get_default x "fin" (Some "2999-01-01") = Some "2999-01-01")
  || bool_decide (dict_get x "etat" = Some "VIGUEUR").

Definition article_cap : nat := 500.

Definition to_article (art : pydict) : article :=
  {| a_id := dict_get art "id";
     a_num := dict_get art "num";
     a_titre := dict_get_default art "titre" (Some "") |}.

(** The loop over [section["articles"]], with its [break]. *)
Fixpoint filter_articles (arts : list pydict) (articles_filtered : list article)
  : list article :=
  match arts with
  | [] => articles_filtered
  | art :: rest =>
      if en_vigueur art then
        let articles_filtered' := articles_filtered ++ [to_article art] in
        if (article_cap <=? length articles_filtered')%nat then articles_filtered'
        else filter_articles rest articles_filtered'
      else filter_articles rest articles_filtered
  end.

(** The loop over [section["sous_sections"]]; [build] is the recursive
    call at the next depth. *)
Fixpoint for_children (build : pyval → result (option node)) (sss : list pydict)
    (children : list node) : result (list node) :=
  match sss with
  | [] => Ok children
  | ss :: rest =>
      if en_vigueur ss then
        match ss !! "id" with
        | None => KeyError "id"
        | Some ss_id =>
            match build ss_id with
            | Ok (Some child) => for_children build rest (children ++ [child])
            | Ok None => for_children build rest children
            | KeyError k => KeyError k
            | RecursionError => RecursionError
            end
        end
      else for_children build rest children
  end.

Definition nonempty {A} (l : list A) : option (list A) :=
  match l with [] => None | _ => Some l end.

(** [build_node_from_memory]; [fuel] bounds the nesting of the calls. *)
Fixpoint build_node_rec (fuel : nat) (all_sections : gmap pyval section_row)
    (section_id : pyval) (current_depth max_depth : nat) : result (option node) :=
  match fuel with
  | O => RecursionError
  | S fuel' =>
      if (max_depth <? current_depth)%nat then Ok None
      else
        match all_sections !! section_id with
        | None => Ok None
        | Some section =>
            let children :=
              match s_sous_sections section with
              | Some ((_ :: _) as sss) =>
                  if (current_depth <? max_depth)%nat then
                    match for_children
                            (λ i, build_node_rec fuel' all_sections i
                                    (current_depth + 1) max_depth)
                            sss [] with
                    | Ok children => Ok (nonempty children)
                    | KeyError k => KeyError k
                    | RecursionError => RecursionError
                    end
                  else Ok None
              | _ => Ok None
              end in
            match children with
            | Ok children =>
                let articles :=
                  match s_articles section with
                  | Some ((_ :: _) as arts) => nonempty (filter_articles arts [])
                  | _ => None
                  end in
                Ok (Some {| n_id := s_id section;
                            n_titre := s_titre section;
                            n_nb_sections := s_nb_sections section;
                            n_nb_articles := s_nb_articles section;
                            n_children := children;
                            n_articles := articles |})
            | KeyError k => KeyError k
            | RecursionError => RecursionError
            end
        end
  end.

(** The nesting of the calls is at most [max_depth - current_depth + 1]. *)
Definition build_node_from_memory (all_sections : gmap pyval section_row)
    (section_id : pyval) (current_depth max_depth : nat) : result (option node) :=
  build_node_rec (S (max_depth - current_depth)) all_sections section_id
    current_depth max_depth.

(** The loop over [root_ids]. *)
Fixpoint for_roots (build : pyval → result (option node)) (root_ids : list pyval)
    (tree : list node) : result (list node) :=
  match root_ids with
  | [] => Ok tree
  | root_id :: rest =>
      match build root_id with
      | Ok (Some node) => for_roots build rest (tree ++ [node])
      | Ok None => for_roots build rest tree
      | KeyError k => KeyError k
      | RecursionError => RecursionError
      end
  end.

Record payload : Type := Payload {
  p_code_id : string;
  p_titre : string;
  p_nature : string;
  p_tree : list node;
  p_nb_sections_loaded : nat;
  p_nb_waves : nat
}.

Definition max_depth : nat := 10.

(** The state the wave loop starts from: the roots are loaded and
    [remaining_ids = all_needed_ids - set(root_ids)]. *)
Definition after_roots (tbl : table) (code_id : string) : wave_state :=
  let rows := select_roots tbl code_id in
  let root_ids := s_id <$> rows in
  let root_sections := rows_to_dict rows in
  let all_needed_ids :=
    foldl collect_subsection_ids (list_to_set root_ids)
          ((map_to_list root_sections).*2) in
  {| all_sections := root_sections;
     remaining_ids := all_needed_ids ∖ list_to_set root_ids;
     wave_num := 0;
     queries := [QCode code_id; QRoots code_id] |}.

(** [build_tree_optimized(code_id)]: what it returns (or raises) and the
    statements it sent. *)
Definition build_tree_optimized (tbl : table) (code_id : string)
  : result (option payload) * list query :=
  match select_code tbl code_id with
  | None => (Ok None, [QCode code_id])
  | Some (titre_code, nature) =>
      let root_ids := s_id <$> select_roots tbl code_id in
      let st := wave_loop max_waves tbl (after_roots tbl code_id) in
      let tree :=
        for_roots (λ i, build_node_from_memory (all_sections st) i 1 max_depth)
                  root_ids [] in
      (match tree with
       | Ok tree =>
           Ok (Some {| p_code_id := code_id;
                       p_titre := if truthy titre_code
                                  then default "" titre_code
                                  else "Code " +:+ code_id;
                       p_nature := if truthy nature then default "" nature else "CODE";
                       p_tree := tree;
                       p_nb_sections_loaded := size (all_sections st);
                       p_nb_waves := wave_num st |})
       | KeyError k => KeyError k
       | RecursionError => RecursionError
       end, queries st)
  end.

End Trees.

Local Close Scope string_scope.

(** * What the properties are stated with *)

(** ** Identity resolution *)

Module DocId.

Import Ingest.

(** [ts] is a snapshot folder name, [\d{8}-\d{6}]. *)
Definition is_timestamp (ts : string) : bool :=
  match Unicode.eat_digits 8 ts with
  | Some (String c r) =>
      (nat_of_ascii c =? 45)%nat &&
      match Unicode.eat_digits 6 r with
      | Some EmptyString => true
      | _ => false
      end
  | _ => false
  end.

(** The shape of what the pattern captures: LEGI, [k] capital letters,
    twelve digits. *)
Definition legi_id_shape (k : nat) (i : string) : Prop :=
  ∃ caps digits,
    i = "LEGI" +:+ caps +:+ digits ∧
    PyStr.eat PyStr.is_upper k caps = Some "" ∧
    Unicode.eat_digits 12 digits = Some "".

(** The pattern [LEGI[A-Z]{lo,hi}\d{12}], [ks] listing the numbers of
    capital letters it allows. *)
Definition legi_id (ks : list nat) (i : string) : Prop :=
  ∃ k, k ∈ ks ∧ legi_id_shape k i.

(** What [re.search] finds, said without the search: [g] has the shape of
    the group, the text [wrap g] of the whole match occurs in [s], and no
    match occurs in [s] to the left of it. *)
Definition first_match (wrap : string → string) (shape : string → Prop)
    (s g : string) : Prop :=
  ∃ pre post,
    s = pre +:+ wrap g +:+ post ∧ shape g ∧
    ∀ pre' g' post',
      s = pre' +:+ wrap g' +:+ post' → shape g' →
      String.length pre ≤ String.length pre'.

(** [re.search] finds nothing: no match occurs in [s]. *)
Definition no_match (wrap : string → string) (shape : string → Prop)
    (s : string) : Prop :=
  ∀ pre g post, shape g → s ≠ pre +:+ wrap g +:+ post.

Fixpoint no_char (n : nat) (s : string) : bool :=
  match s with
  | EmptyString => true
  | String c s' => negb (nat_of_ascii c =? n)%nat && no_char n s'
  end.

(** The id of the metadata is used when it is a non-empty string. *)
Definition meta_has_id (meta : option meta) (i : string) : Prop :=
  ∃ m, meta = Some m ∧ m_id m = Some i ∧ i ≠ "".

Definition meta_has_no_id (meta : option meta) : Prop :=
  ∀ m, meta = Some m → m_id m = None ∨ m_id m = Some "".

End DocId.

(** ** Upsert *)

Module Upsert.

Import Ingest.

(** The claim about time stamps, as the specification words it: of two
    records with the same id, the one with the later [updated_at] is the
    one stored, in whichever order they are upserted. *)
Definition later_updated_at_wins : Prop :=
  ∀ (tbl : table) (r1 r2 : document),
    pk_unique tbl → d_id r1 = d_id r2 →
    String.ltb (d_updated_at r1) (d_updated_at r2) = true →
    rows_with_id (d_id r1) (_upsert_documents tbl [r1; r2]) = [r2] ∧
    rows_with_id (d_id r1) (_upsert_documents tbl [r2; r1]) = [r2].

End Upsert.

(** ** Suppression *)

Module Delete.

Import Ingest.

(** The ids the fast path deletes by: those found in the tokens the
    safety cap lets through. *)
Definition ids_of (tokens : list string) : list string :=
  omap (Re.search_legi_id [5; 4; 3]) (take 5000 tokens).

(** The tokens of the slow path. *)
Definition slow_tokens (tokens : list string) : list string :=
  filter (λ t, Re.search_legi_id [5; 4; 3] t = None) (take 5000 tokens).


Section WithLike.

Variable ilike : string → string → bool.
Variable meta_text : meta → string.

(** The rows one call deletes. *)
Definition deleted (tokens : list string) (source : string) (d : document) : bool :=
fast_where source (ids_of tokens) d
|| slow_where ilike meta_text source
     ((λ t, "%" +:+ t +:+ "%") <$> slow_tokens tokens) d.

End WithLike.

End Delete.

(** ** Entries whose XML does not parse *)

Module ParseFailure.

Import Ingest.

(** The claim about the bytes, as the specification words it: when the
    parser fails on an entry, the content stored is the entry, byte for
    byte. *)
Definition raw_bytes_preserved : Prop :=
  ∀ (sha256_hexdigest : string → string)
    (parse_xml : string → string → string + string * meta)
    (source updated_at path_in_tar doctype data e : string),
    parse_xml data path_in_tar = inl e →
    d_content_xml (make_row sha256_hexdigest parse_xml source updated_at
                     path_in_tar doctype data) = data.

End ParseFailure.

(** ** Output trees *)

Module Assembly.

Import Trees.

(** Number of levels of an output node. *)
Fixpoint node_height (n : node) : nat :=
  S (match n_children n with
     | Some l => foldr (λ c h, max (node_height c) h) 0 l
     | None => 0
     end).

Definition forest_height (l : list node) : nat :=
  foldr (λ c h, max (node_height c) h) 0 l.

(** A child of a node repeats the id of the node. *)
Definition repeats_parent (n : node) : Prop :=
  ∃ l c, n_children n = Some l ∧ c ∈ l ∧ n_id c = n_id n.

(** The claim about cycles, as the specification words it: a cycle of
    the child references is reported as an error, so no node is returned
    in which a child repeats the id of its parent. *)
Definition revisit_is_an_error : Prop :=
  ∀ (all_sections : gmap (option string) section_row) (section_id : option string)
    (n : node),
    build_node_from_memory all_sections section_id 1 max_depth = Ok (Some n) →
    ¬ repeats_parent n.

(** The validity rule, as the specification words it: the end marker is
    the open-ended sentinel, or the state flag is VIGUEUR. *)
Definition marked_current (x : pydict) : Prop :=
  dict_get x "fin" = Some "2999-01-01" ∨ dict_get x "etat" = Some "VIGUEUR".

(** The claim about validity, as the specification words it: a child of
    an output node comes only from a reference that is marked current. *)
Definition included_only_when_current : Prop :=
  ∀ (all_sections : gmap (option string) section_row) (section_id : option string)
    (section : section_row) (n c : node) (l : list node),
    build_node_from_memory all_sections section_id 1 max_depth = Ok (Some n) →
    all_sections !! section_id = Some section →
    n_children n = Some l → c ∈ l →
    ∃ ss, ss ∈ default [] (s_sous_sections section) ∧
          ss !! "id" = Some (n_id c) ∧ marked_current ss.

(** Every node of an output tree is built from a loaded section: its
    children come from references of the section that are in force, and
    its articles are the first [article_cap] articles in force. *)
Inductive tree_valid (all_sections : gmap (option string) section_row) : node → Prop :=
| tree_valid_node n key section :
    all_sections !! key = Some section →
    n_id n = s_id section →
    n_articles n =
      nonempty (take article_cap
                  (to_article <$> filter (λ a, en_vigueur a = true)
                                         (default [] (s_articles section)))) →
    (∀ l, n_children n = Some l →
          l ≠ [] ∧
          Forall (λ c, tree_valid all_sections c ∧
                       ∃ ss child_key child_section,
                         ss ∈ default [] (s_sous_sections section) ∧
                         en_vigueur ss = true ∧
                         ss !! "id" = Some child_key ∧
                         all_sections !! child_key = Some child_section ∧
                         n_id c = s_id child_section) l) →
    tree_valid all_sections n.

(** With references that all carry an id, no call raises. *)
Definition refs_have_id (all_sections : gmap (option string) section_row) : Prop :=
  ∀ k section, all_sections !! k = Some section →
    Forall (λ ss, is_Some (ss !! "id")) (default [] (s_sous_sections section)).

(** The map the tree is assembled from. *)
Definition loaded (tbl : table) (code_id : string) : gmap (option string) section_row :=
  all_sections (wave_loop max_waves tbl (after_roots tbl code_id)).

End Assembly.

(** ** Queries and waves *)

Module Queries.

Import Trees.

(** The order of [meta->>'id'] in [ORDER BY]: strings in their order,
    [NULL] last. *)
Definition id_le (a b : option string) : Prop :=
  match a, b with
  | Some x, Some y => String.le x y
  | _, None => True
  | None, Some _ => False
  end.

End Queries.

Module Waves.

Import Trees.

(** Every section is filed under its own id. *)
Definition keys_are_ids (m : gmap (option string) section_row) : Prop :=
  ∀ k s, m !! k = Some s → s_id s = k.

(** The child ids a loop of the loader looks at. *)
Definition child_ids (refs : option (list (gmap string (option string))))
  : list (option string) :=
  List.filter truthy ((λ ss, dict_get ss "id") <$> default [] refs).

(** The store holds a tree of depth [D] under [code_id]: [depth_of]
    gives every id a level; a section whose parent is the code is at level
    1 or more; a child is below the section that refers to it, and no
    child is below level [D]. *)
Definition tree_of_depth (tbl : table) (code_id : string)
    (depth_of : option string → nat) (D : nat) : bool :=
  forallb
    (λ d,
       (negb (roots_where code_id d) || (1 <=? depth_of (meta_id d))) &&
       (negb (is_legi "section" d) ||
        forallb (λ c, (depth_of (meta_id d) <? depth_of c) && (depth_of c <=? D))
                (child_ids (m_sous_sections (d_meta d)))))
    tbl.

Definition section_fetches (qs : list query) : nat :=
  length (List.filter is_section_fetch qs).

(** The ids of the frontier before wave [wave_num + 1] are at level
    [wave_num + 2] at least. *)
Definition frontier_deep (depth_of : option string → nat) (D : nat)
      (st : wave_state) : Prop :=
  ∀ x, x ∈ remaining_ids st → wave_num st + 2 ≤ depth_of x ≤ D.

End Waves.

Module Latest.

Import Trees Assembly.

(** [d] is a latest version among the rows that [w] matches: no
    matching row of the same id has a greater date. *)
Definition latest_of (tbl : table) (w : document → bool) (d : document) : Prop :=
  d ∈ tbl ∧ w d = true ∧
  ∀ d', d' ∈ tbl → w d' = true → meta_id d' = meta_id d →
        String.le (date_rank d') (date_rank d).

(** Where an entry of the loaded map comes from. *)
Definition entry_ok (tbl : table) (code_id : string)
    (k : option string) (s : section_row) : Prop :=
  s_id s = k ∧
  ∃ d, s = to_section_row d ∧ meta_id d = k ∧
       (latest_of tbl (roots_where code_id) d
        ∨ ∃ ids, latest_of tbl (wave_where ids) d).

End Latest.

(** ** Sample corpora *)

Module Sample.

Import Trees.

Definition code : string := "LEGITEXT000006070721".

(** A child reference, as the extractor writes it. *)
Definition ref (i : string) (fin etat : option string) : gmap string (option string) :=
  {[ "id" := Some i; "debut" := Some "2000-01-01"; "fin" := fin; "etat" := etat ]}.

Definition current (i : string) : gmap string (option string) :=
  ref i (Some "2999-01-01") (Some "VIGUEUR").

Definition abrogated (i : string) : gmap string (option string) :=
  ref i (Some "2010-01-01") (Some "ABROGE").

Definition section_meta (i : option string) (parent : option string)
    (date_debut : option string)
    (sous_sections articles : list (gmap string (option string))) : meta :=
  {| m_id := i; m_titre := Some "Titre"; m_nature := None; m_parent := parent;
     m_date_debut := date_debut;
     m_nb_sections := Some (Z.of_nat (length sous_sections));
     m_nb_articles := Some (Z.of_nat (length articles));
     m_sous_sections := match sous_sections with [] => None | _ => Some sous_sections end;
     m_articles := match articles with [] => None | _ => Some articles end;
     m_parse_error := false; m_error := None; m_source := Some "LEGI";
     m_extra := ∅ |}.

Definition section_doc (i : string) (parent : option string)
    (sous_sections articles : list (gmap string (option string))) : document :=
  {| d_id := i; d_source := "LEGI"; d_doctype := "section";
     d_path := "legi/section_ta/" +:+ i +:+ ".xml";
     d_updated_at := "20250713-140000"; d_sha256 := "";
     d_meta := section_meta (Some i) parent None sous_sections articles;
     d_content_xml := ""; d_content_text := "" |}.

Definition code_doc : document :=
  {| d_id := code; d_source := "LEGI"; d_doctype := "texte";
     d_path := "legi/texte/version/" +:+ code +:+ ".xml";
     d_updated_at := "20250713-140000"; d_sha256 := "";
     d_meta := {| m_id := Some code; m_titre := Some "Code civil";
                  m_nature := Some "CODE"; m_parent := None; m_date_debut := None;
                  m_nb_sections := None; m_nb_articles := None;
                  m_sous_sections := None; m_articles := None;
                  m_parse_error := false; m_error := None;
                  m_source := Some "LEGI"; m_extra := ∅ |};
     d_content_xml := ""; d_content_text := "" |}.

(** The sections of a complete binary tree: the id of a section is the
    id of its parent followed by [a] or [b]; [levels] levels below the
    section [i]. *)
Fixpoint binary_sections (levels : nat) (i : string) (parent : option string)
  : list document :=
  match levels with
  | O => [section_doc i parent [] []]
  | S levels' =>
      section_doc i parent [current (i +:+ "a"); current (i +:+ "b")] []
      :: binary_sections levels' (i +:+ "a") None
      ++ binary_sections levels' (i +:+ "b") None
  end.

(** Two roots under the code, three levels of sections. *)
Definition binary_tree : table :=
  code_doc :: binary_sections 2 "Sa" (Some code) ++ binary_sections 2 "Sb" (Some code).

Definition binary_depth (i : option string) : nat :=
  match i with Some s => String.length s - 1 | None => 0 end.

(** A chain of [n] sections, each the only child of the one before. *)
Fixpoint chain_sections (n : nat) (i : string) (parent : option string)
  : list document :=
  match n with
  | O => []
  | 1 => [section_doc i parent [] []]
  | S n' =>
      section_doc i parent [current (i +:+ "x")] []
      :: chain_sections n' (i +:+ "x") None
  end.

Definition chain (n : nat) : table := code_doc :: chain_sections n "S" (Some code).

(** Three decimal digits. *)
Definition digits3 (k : nat) : string :=
  String (ascii_of_nat (48 + k / 100 mod 10))
    (String (ascii_of_nat (48 + k / 10 mod 10))
       (String (ascii_of_nat (48 + k mod 10)) EmptyString)).

(** [n] articles in force, numbered by their rank. *)
Definition articles (n : nat) : list (gmap string (option string)) :=
  (λ k, {[ "id" := Some ("LEGIARTI000000000" +:+ digits3 k);
           "num" := Some (digits3 k); "fin" := Some "2999-01-01";
           "etat" := Some "VIGUEUR" ]}) <$> seq 0 n.


(** A section whose only child reference has no end marker and is
    abrogated, and the section it refers to. *)
Definition no_end_marker (i : string) : gmap string (option string) :=
  {[ "id" := Some i; "etat" := Some "ABROGE" ]}.

Definition unmarked_child : gmap (option string) section_row :=
  {[ Some "P" := {| s_id := Some "P"; s_titre := Some "Titre";
                    s_sous_sections := Some [no_end_marker "C"];
                    s_articles := None;
                    s_nb_sections := 1; s_nb_articles := 0 |};
     Some "C" := {| s_id := Some "C"; s_titre := Some "Titre";
                    s_sous_sections := None;
                    s_articles := None;
                    s_nb_sections := 0; s_nb_articles := 0 |} ]}.

(** A section that lists itself as its child. *)
Definition self_loop : gmap (option string) section_row :=
  {[ Some "S" := {| s_id := Some "S"; s_titre := Some "Titre";
                    s_sous_sections := Some [current "S"];
                    s_articles := None;
                    s_nb_sections := 1; s_nb_articles := 0 |} ]}.

End Sample.

(** * The rest of the two scripts *)

Local Open Scope string_scope.

(** ** scripts/ingest_legifrance_pg.py: archives, state and [run] *)

Module IngestRun.

(** [(\d{8}-\d{6})] anchored at the start of [s]. *)
Definition timestamp_at (s : string) : option string :=
  match Unicode.eat_digits 8 s with
  | Some (String "-"%char s1) =>
      match Unicode.eat_digits 6 s1 with
      | Some rest => Some (PyStr.matched s rest)
      | None => None
      end
  | _ => None
  end.

(** [re.search(r"(\d{8}-\d{6})", s)]: the leftmost match. *)
Fixpoint search_timestamp (s : string) : option string :=
  match timestamp_at s with
  | Some m => Some m
  | None =>
      match s with
      | EmptyString => None
      | String _ s' => search_timestamp s'
      end
  end.

(** [_date_key(path)], on [path.name]. *)
Definition _date_key (name : string) : string :=
  match search_timestamp name with
  | Some m => m
  | None => name
  end.

(** [sorted(l, key=key)] on string keys.  Python's sort is stable: an
    element goes before the first element of the sorted rest whose key is
    not smaller than its own. *)
Fixpoint insert_by {A} (key : A → string) (x : A) (l : list A) : list A :=
  match l with
  | [] => [x]
  | y :: l' =>
      if String.leb (key x) (key y) then x :: l
      else y :: insert_by key x l'
  end.

Fixpoint sorted {A} (key : A → string) (l : list A) : list A :=
  match l with
  | [] => []
  | x :: l' => insert_by key x (sorted key l')
  end.

(** A path [ARCHIVES_DIR / source / parent / name]. *)
Record path : Type := Path {
  pa_source : string;
  pa_parent : string;
  pa_name : string
}.

(** One entry of [state["sources"]].  The values [datetime.now()] gives
    are drawn from a clock. *)
Record source_state : Type := SourceState {
  ss_last_incremental : pyval;
  ss_initialized : bool;
  ss_updated_at : pyval
}.

Definition empty_source_state : source_state :=
  {| ss_last_incremental := None; ss_initialized := false; ss_updated_at := None |}.

(** The dictionary of ingest_state.json. *)
Record state : Type := State {
  sources : gmap string source_state;
  updated_at : pyval
}.

Definition empty_state : state := {| sources := ∅; updated_at := None |}.

(** [state.get("sources", {}).get(source, {})] *)
Definition source_entry (st : state) (source : string) : source_state :=
  default empty_source_state (sources st !! source).

(** [(dir).glob("*.tar.gz")] over the names found in a directory. *)
Definition glob_tar_gz (source parent : string) (names : list string) : list path :=
  (λ n, {| pa_source := source; pa_parent := parent; pa_name := n |})
    <$> filter (λ n, PyStr.endswith n ".tar.gz" = true) names.

(** The loop of the daily mode: the paths after the first one named
    [last]. *)
Fixpoint after_last (last : string) (started : bool) (incr : list path) : list path :=
  match incr with
  | [] => []
  | p :: rest =>
      if started then p :: after_last last true rest
      else after_last last (String.eqb (pa_name p) last) rest
  end.

Section WithFiles.

(** The names in [ARCHIVES_DIR / source / parent] (none when the
    directory is missing), in the order the file system lists them. *)
Variable listdir : string → string → list string.

(** [_iter_archives(source, mode)]; [st] is what [_load_state()] reads. *)
Definition _iter_archives (st : state) (source mode : string) : list path :=
  let source := PyStr.upper source in
  let freemium :=
    sorted pa_name (glob_tar_gz source "freemium" (listdir source "freemium")) in
  let incr :=
    sorted (λ p, _date_key (pa_name p))
           (glob_tar_gz source "incremental" (listdir source "incremental")) in
  if String.eqb mode "init" then freemium ++ incr
  else
    let last := ss_last_incremental (source_entry st source) in
    match last with
    | Some last => if String.eqb last "" then [] else after_last last false incr
    | None => []
    end.

Variable sha256_hexdigest : string → string.
Variable parse_xml : string → string → string + (string * meta).
Variable ilike : string → string → bool.
Variable meta_text : meta → string.

(** The members of the tar stream of an archive. *)
Variable members_of : path → list Ingest.member.

(** [datetime.now().isoformat()] at the successive readings of the clock. *)
Variable now_isoformat : nat → string.

(** What [run] acts on: the lock file, the state file ([None] when it is
    missing or is not JSON), the [documents] table, the archives handed
    to [ingest_archive] so far, and the number of clock readings. *)
Record world : Type := World {
  w_lock : bool;
  w_state_file : option state;
  w_tbl : table;
  w_ingested : list path;
  w_clock : nat
}.

Definition _load_state (w : world) : state := default empty_state (w_state_file w).

(** [state["sources"].setdefault(source, {})] *)
Definition setdefault_source (st : state) (source : string) : state :=
  match sources st !! source with
  | Some _ => st
  | None => {| sources := <[source := empty_source_state]> (sources st);
               updated_at := updated_at st |}
  end.

(** The body of the loop [for a in archives]. *)
Definition run_archive (mode source : string) (acc : world * state) (a : path)
  : world * state :=
  let '(w, st) := acc in
  let updated_at := _date_key (pa_name a) in
  let stats :=
    Ingest.ingest_archive sha256_hexdigest parse_xml ilike meta_text
      (w_tbl w) source (members_of a) updated_at 500 in
  let e := source_entry st source in
  let last :=
    if PyStr.contains (pa_parent a) "incremental" then Some (pa_name a)
    else ss_last_incremental e in
  let initialized := if String.eqb mode "init" then true else ss_initialized e in
  let e' := {| ss_last_incremental := last;
               ss_initialized := initialized;
               ss_updated_at := Some (now_isoformat (w_clock w)) |} in
  let st' := {| sources := <[source := e']> (sources st);
                updated_at := Some (now_isoformat (w_clock w + 1)) |} in
  ({| w_lock := w_lock w;
      w_state_file := Some st';
      w_tbl := Ingest.st_tbl stats;
      w_ingested := w_ingested w ++ [a];
      w_clock := w_clock w + 2 |}, st').

(** The body of the loop [for source in sources]. *)
Definition run_source (mode : string) (acc : world * state) (source : string)
  : world * state :=
  let '(w, st) := acc in
  let source := PyStr.upper source in
  let st := setdefault_source st source in
  let archives := _iter_archives (_load_state w) source mode in
  foldl (run_archive mode source) (w, st) archives.

Definition set_lock (b : bool) (w : world) : world :=
  {| w_lock := b; w_state_file := w_state_file w; w_tbl := w_tbl w;
     w_ingested := w_ingested w; w_clock := w_clock w |}.

(** [run(mode, sources)]: the exit code and the world it leaves. *)
Definition run (mode : string) (sources : list string) (w : world) : nat * world :=
  if w_lock w then (2, w)
  else
    let w := set_lock true w in
    let missing :=
      filter (λ s, ss_initialized (source_entry (_load_state w) s) = false) sources in
    if String.eqb mode "daily" && negb (bool_decide (missing = [])) then
      (3, set_lock false w)
    else
      let '(w', _) := foldl (run_source mode) (w, _load_state w) sources in
      (0, set_lock false w').

End WithFiles.

End IngestRun.

(** ** What a run leaves *)

Module RunSpec.

Import IngestRun.

(** Two states read the same for every source. *)
Definition agree (st1 st2 : state) : Prop :=
  ∀ source, source_entry st1 source = source_entry st2 source.

(** The name of the last archive of an [incremental] directory, [dflt]
    when there is none. *)
Definition last_incremental_of (archives : list path) (dflt : pyval) : pyval :=
  foldl (λ acc a,
           if PyStr.contains (pa_parent a) "incremental" then Some (pa_name a)
           else acc)
        dflt archives.

Section WithFiles.

Variable listdir : string → string → list string.

(** The incremental archives of a source, in the order of their keys. *)
Definition incrementals (source : string) : list path :=
  sorted (λ p, _date_key (pa_name p))
         (glob_tar_gz source "incremental" (listdir source "incremental")).

Variable sha256_hexdigest : string → string.
Variable parse_xml : string → string → string + (string * meta).
Variable ilike : string → string → bool.
Variable meta_text : meta → string.
Variable members_of : path → list Ingest.member.

(** The table after the archives have been ingested one after the
    other. *)
Definition table_after (tbl : table) (archives : list path) : table :=
  foldl (λ t a,
           Ingest.st_tbl
             (Ingest.ingest_archive sha256_hexdigest parse_xml ilike meta_text
                t (pa_source a) (members_of a) (_date_key (pa_name a)) 500))
        tbl archives.

End WithFiles.

End RunSpec.

(** ** Time stamps as numbers *)

Module Chronology.

(** The number a string of ASCII digits writes. *)
Fixpoint digits_value (acc : N) (s : string) : N :=
  match s with
  | EmptyString => acc
  | String c s' => digits_value (10 * acc + N.of_nat (nat_of_ascii c - 48)) s'
  end.

(** [YYYYMMDDHHMMSS], the number a time stamp [YYYYMMDD-HHMMSS] written
    with ASCII digits stands for. *)
Definition stamp_number (ts : string) : N :=
  digits_value 0 (String.substring 0 8 ts +:+ String.substring 9 6 ts).

(** The order in which [sorted] leaves the keys. *)
Definition key_le {A} (key : A → string) : relation A :=
  λ a b, String.le (key a) (key b).

End Chronology.

(** ** The entries of an archive, as [ingest_archive] sorts them *)

Module Entries.

Import Ingest.

(** A file of the archive that can be read and whose name ends in
    [.xml], whatever the case. *)
Definition is_xml_entry (m : member) : bool :=
  mb_isfile m && bool_decide (is_Some (mb_data m))
  && PyStr.endswith (PyStr.lower (mb_name m)) ".xml".

(** A deletion manifest. *)
Definition is_suppression_entry (m : member) : bool :=
  mb_isfile m && bool_decide (is_Some (mb_data m))
  && PyStr.endswith (PyStr.lower (mb_name m)) ".dat"
  && PyStr.contains (PyStr.lower (mb_name m)) "liste_suppression".

Section WithLibraries.

Variable sha256_hexdigest : string → string.
Variable parse_xml : string → string → string + (string * meta).

(** The rows the XML entries of [members] give, in order. *)
Definition rows_of (source updated_at : string) (members : list member)
  : list document :=
  (λ m, make_row sha256_hexdigest parse_xml source updated_at (mb_name m)
          (_guess_doctype (mb_name m)) (default "" (mb_data m)))
    <$> filter (λ m, is_xml_entry m = true) members.

End WithLibraries.

End Entries.

(** ** Deletion manifests as text *)

Module Manifest.

Fixpoint all_chars (p : ascii → bool) (s : string) : bool :=
  match s with
  | EmptyString => true
  | String c s' => p c && all_chars p s'
  end.

Definition is_ascii (c : ascii) : bool := (nat_of_ascii c <? 128)%nat.

Definition LF : string := String (ascii_of_nat 10) "".

(** [sep.join(l)] *)
Fixpoint join (sep : string) (l : list string) : string :=
  match l with
  | [] => ""
  | t :: rest =>
      match rest with
      | [] => t
      | _ => t +:+ sep +:+ join sep rest
      end
  end.

(** A token a manifest can carry on a line of its own: ASCII, not empty,
    not a comment, without a line break and without white space at
    either end. *)
Definition clean_token (t : string) : bool :=
  negb (String.eqb t "") && negb (PyStr.startswith t "#")
  && String.eqb (PyStr.strip t) t
  && all_chars (λ c, is_ascii c && negb (PyStr.is_linebreak c)) t.

End Manifest.

(** ** scripts/precalculate_all_trees.py: counting *)

Module TreeCount.

Import Trees.

(** The sections counted below one node: [count_sections_in_tree] of its
    children, when it has the key. *)
Fixpoint sections_below (n : node) : nat :=
  match n_children n with
  | Some children => length children + foldr (λ c k, sections_below c + k) 0 children
  | None => 0
  end.

Definition count_sections_in_tree (tree : list node) : nat :=
  length tree + foldr (λ c k, sections_below c + k) 0 tree.

Fixpoint articles_under (n : node) : nat :=
  match n_articles n with Some arts => length arts | None => 0 end +
  match n_children n with
  | Some children => foldr (λ c k, articles_under c + k) 0 children
  | None => 0
  end.

Definition count_articles_in_tree (tree : list node) : nat :=
  foldr (λ c k, articles_under c + k) 0 tree.

End TreeCount.

(** ** scripts/ingest_legifrance_pg.py: the metadata read from the XML *)

Module Extract.

(** [/((?:LEGI|JORF)TEXT\d{12})/section_ta/] anchored at the start of
    [s]: the group. *)
Definition text_parent_at (s : string) : option string :=
  match s with
  | String "/"%char s1 =>
      let after_source :=
        match PyStr.eat_lit "LEGI" s1 with
        | Some r => Some r
        | None => PyStr.eat_lit "JORF" s1
        end in
      match after_source with
      | Some s2 =>
          match PyStr.eat_lit "TEXT" s2 with
          | Some s3 =>
              match Unicode.eat_digits 12 s3 with
              | Some s4 =>
                  if PyStr.startswith s4 "/section_ta/"
                  then Some (PyStr.matched s1 s4)
                  else None
              | None => None
              end
          | None => None
          end
      | None => None
      end
  | _ => None
  end.

(** [re.search(...)] with group 1: the leftmost match. *)
Fixpoint search_text_parent (s : string) : option string :=
  match text_parent_at s with
  | Some m => Some m
  | None =>
      match s with
      | EmptyString => None
      | String _ s' => search_text_parent s'
      end
  end.

(** The values of the dictionary [meta]: [None] or a string, a count, a
    flag, a list of references, the counts of the links by kind. *)
Inductive jvalue : Type :=
| JVal (v : pyval)
| JInt (n : nat)
| JBool (b : bool)
| JRefs (l : list pydict)
| JCounts (m : gmap pyval nat).

Abbreviation jdict := (gmap string jvalue) (only parsing).

Definition jval (m : jdict) (k : string) : pyval :=
  match m !! k with Some (JVal v) => v | _ => None end.

Definition jint (m : jdict) (k : string) : option Z :=
  match m !! k with Some (JInt n) => Some (Z.of_nat n) | _ => None end.

Definition jrefs (m : jdict) (k : string) : option (list pydict) :=
  match m !! k with Some (JRefs l) => Some l | _ => None end.

(** The dictionary as the rest of the scripts reads it. *)
Definition to_meta (m : jdict) : meta :=
  {| m_id := jval m "id"; m_titre := jval m "titre"; m_nature := jval m "nature";
     m_parent := jval m "parent"; m_date_debut := jval m "date_debut";
     m_nb_sections := jint m "nb_sections"; m_nb_articles := jint m "nb_articles";
     m_sous_sections := jrefs m "sous_sections"; m_articles := jrefs m "articles";
     m_parse_error := match m !! "parse_error" with Some (JBool b) => b | _ => false end;
     m_error := jval m "error"; m_source := jval m "source";
     m_extra :=
       omap (λ v, match v with JVal s => Some s | _ => None end)
            (foldr delete m ["id"; "titre"; "nature"; "parent"; "date_debut";
                             "error"; "source"]) |}.

(** [{"id": lien.get("id"), k: lien.get(k), ...}] *)
Definition link_ref {element : Type} (get : element → string → pyval)
    (keys : list string) (lien : element) : pydict :=
  foldr (λ k d, <[k := get lien k]> d) ∅ keys.

Section WithLxml.

(** lxml: the type of the elements, [str(e.tag)], [e.get(k)] (also
    [e.attrib.get(k)], [None] when [k not in e.attrib]), [e.get(k, d)],
    [e.text], [e.find(path)], [e.findall(path)], the iteration over an
    element, [e.itertext()], and [etree.fromstring(data)], which gives
    the root or raises an exception [e], given as [str(e)]. *)
Variable element : Type.
Variable tag : element → string.
Variable get : element → string → pyval.
Variable get_or : element → string → string → pyval.
Variable text : element → pyval.
Variable find : element → string → option element.
Variable findall : element → string → list element.
Variable children : element → list element.
Variable itertext : element → list string.
Variable fromstring : string → string + element.

(** [str.strip] on the white space of Unicode. *)
Variable strip : string → string.

(** [x.text if x is not None else None] *)
Definition text_or_none (x : option element) : pyval :=
  match x with Some x => text x | None => None end.

(** [if x is not None and x.text: meta[k] = x.text] *)
Definition set_text (k : string) (x : option element) (m : jdict) : jdict :=
  match x with
  | Some x => if truthy (text x) then <[k := JVal (text x)]> m else m
  | None => m
  end.

(** [for k in ("id", "cid", "name"): if k in root.attrib: ...] *)
Definition root_attributes (root : element) (m : jdict) : jdict :=
  foldl (λ m k, match get root k with
                | Some v => <[k := JVal (Some v)]> m
                | None => m
                end)
        m ["id"; "cid"; "name"].

Definition texte_version (root : element) (m : jdict) : jdict :=
  let m :=
    match find root "META/META_COMMUN" with
    | Some meta_commun =>
        let id_elem := find meta_commun "ID" in
        let nature_elem := find meta_commun "NATURE" in
        set_text "nature" nature_elem (set_text "id" id_elem m)
    | None => m
    end in
  match find root "META/META_SPEC/META_TEXTE_VERSION" with
  | Some meta_texte_version =>
      let titre_elem := find meta_texte_version "TITRE" in
      let titrefull_elem := find meta_texte_version "TITREFULL" in
      let etat_elem := find meta_texte_version "ETAT" in
      let date_debut_elem := find meta_texte_version "DATE_DEBUT" in
      let date_fin_elem := find meta_texte_version "DATE_FIN" in
      let m :=
        if truthy (text_or_none titrefull_elem)
        then <["titre" := JVal (text_or_none titrefull_elem)]> m
        else set_text "titre" titre_elem m in
      set_text "date_fin" date_fin_elem
        (set_text "date_debut" date_debut_elem
           (set_text "etat" etat_elem m))
  | None => m
  end.

(** The parent of a section as CONTEXTE/TEXTE gives it: its attribute
    [id_txt], then that of its TITRE_TXT. *)
Definition context_parent (root : element) : pyval :=
  match find root "CONTEXTE/TEXTE" with
  | Some contexte_texte =>
      let parent := get contexte_texte "id_txt" in
      if truthy parent then parent
      else
        match find contexte_texte "TITRE_TXT" with
        | Some titre_txt => get titre_txt "id_txt"
        | None => parent
        end
  | None => None
  end.

(** [parent], with the fallback on the path. *)
Definition section_parent (root : element) (path_in_tar : string) : pyval :=
  let parent := context_parent root in
  if truthy parent then parent
  else
    match search_text_parent path_in_tar with
    | Some p => Some p
    | None => parent
    end.

(** The references kept from the links of STRUCTURE_TA: those with an
    [id]. *)
Definition link_refs (keys : list string) (liens : list element) : list pydict :=
  link_ref get keys <$> filter (λ lien, truthy (get lien "id") = true) liens.

Definition set_refs (k : string) (refs : list pydict) (m : jdict) : jdict :=
  match refs with
  | [] => m
  | _ => <[k := JRefs refs]> m
  end.

Definition section_ta (root : element) (path_in_tar : string) (m : jdict) : jdict :=
  let m := <["id" := JVal (text_or_none (find root "ID"))]> m in
  let m := <["titre" := JVal (text_or_none (find root "TITRE_TA"))]> m in
  let m := <["parent" := JVal (section_parent root path_in_tar)]> m in
  let liens_section := findall root ".//LIEN_SECTION_TA" in
  let liens_art := findall root ".//LIEN_ART" in
  let m := <["nb_sections" := JInt (length liens_section)]> m in
  let m := <["nb_articles" := JInt (length liens_art)]> m in
  match find root "STRUCTURE_TA" with
  | Some structure_ta =>
      let sous_sections :=
        link_refs ["id"; "debut"; "fin"; "etat"]
                  (findall structure_ta "LIEN_SECTION_TA") in
      let m := set_refs "sous_sections" sous_sections m in
      let articles :=
        link_refs ["id"; "num"; "debut"; "fin"; "etat"; "origine"]
                  (findall structure_ta "LIEN_ART") in
      set_refs "articles" articles m
  | None => m
  end.

(** [link_types[ltype] = link_types.get(ltype, 0) + 1] over the links. *)
Definition count_links (liens : element) : gmap pyval nat :=
  foldl (λ link_types lien,
           let ltype := get_or lien "sens" "unknown" in
           <[ltype := default 0 (link_types !! ltype) + 1]> link_types)
        ∅ (children liens).

Definition article (root : element) (m : jdict) : jdict :=
  let m := <["id" := JVal (text_or_none (find root "META/META_COMMUN/ID"))]> m in
  let m := <["num" := JVal (text_or_none (find root "META/META_COMMUN/NUM"))]> m in
  let m :=
    <["origine" := JVal (text_or_none (find root "META/META_COMMUN/ORIGINE"))]> m in
  let m :=
    match find root "META/META_SPEC" with
    | Some meta_spec =>
        let date_debut := find meta_spec "META_ARTICLE/DATE_DEBUT" in
        let date_fin := find meta_spec "META_ARTICLE/DATE_FIN" in
        <["date_fin" := JVal (text_or_none date_fin)]>
          (<["date_debut" := JVal (text_or_none date_debut)]> m)
    | None => m
    end in
  let m :=
    match find root "CONTEXTE/TEXTE/TITRE_TXT" with
    | Some parent_elem => <["parent" := JVal (get parent_elem "id")]> m
    | None =>
        match find root ".//LIEN[@typelien='PARENT']" with
        | Some lien_parent => <["parent" := JVal (get lien_parent "id")]> m
        | None => m
        end
    end in
  match find root "LIENS" with
  | Some liens =>
      <["link_types" := JCounts (count_links liens)]>
        (<["has_links" := JBool true]> m)
  | None => <["has_links" := JBool false]> m
  end.

Definition textelr (root : element) (m : jdict) : jdict :=
  let m := <["id" := JVal (text_or_none (find root "META/META_COMMUN/ID"))]> m in
  <["nature" := JVal (text_or_none (find root "META/META_COMMUN/NATURE"))]> m.

(** The dictionary [meta] of the [try] block. *)
Definition meta_of (root : element) (path_in_tar : string) : jdict :=
  let m := root_attributes root {["root_tag" := JVal (Some (tag root))]} in
  let root_tag := tag root in
  if String.eqb root_tag "TEXTE_VERSION" then texte_version root m
  else if String.eqb root_tag "SECTION_TA" then section_ta root path_in_tar m
  else if String.eqb root_tag "ARTICLE" then article root m
  else if String.eqb root_tag "TEXTELR" then textelr root m
  else m.

(** [" ".join([t.strip() for t in root.itertext() if t and t.strip()])] *)
Definition text_of (root : element) : string :=
  Manifest.join " "
    (strip <$> filter (λ t, negb (String.eqb t "") && negb (String.eqb (strip t) "")
                            = true)
                      (itertext root)).

(** The [try] block of [_extract_text_and_meta_from_xml], in the shape
    [Ingest._extract_text_and_meta_from_xml] takes it. *)
Definition parse_xml (xml_bytes path_in_tar : string) : string + (string * meta) :=
  match fromstring xml_bytes with
  | inl e => inl e
  | inr root => inr (text_of root, to_meta (meta_of root path_in_tar))
  end.

End WithLxml.

End Extract.

(** ** A sample document *)

(** A section with two sub-sections and one article, its elements numbered:
    0 the root SECTION_TA, 1 its ID, 2 TITRE_TA, 3 CONTEXTE/TEXTE,
    4 STRUCTURE_TA, 5 and 6 the LIEN_SECTION_TA, 7 the LIEN_ART. *)
Module SampleXml.

Definition tag (e : nat) : string :=
  match e with
  | 0 => "SECTION_TA" | 1 => "ID" | 2 => "TITRE_TA" | 3 => "TEXTE"
  | 4 => "STRUCTURE_TA" | 5 | 6 => "LIEN_SECTION_TA" | _ => "LIEN_ART"
  end.

Definition attributes (e : nat) : list (string * string) :=
  match e with
  | 3 => [("id_txt", "LEGITEXT000006070721")]
  | 5 => [("id", "LEGISCTA000006136118"); ("debut", "2000-01-01");
          ("fin", "2999-01-01"); ("etat", "VIGUEUR")]
  | 6 => [("id", "LEGISCTA000006136119"); ("debut", "1990-01-01");
          ("etat", "ABROGE")]
  | 7 => [("id", "LEGIARTI000006797825"); ("num", "L1"); ("debut", "2000-01-01");
          ("fin", "2999-01-01"); ("etat", "VIGUEUR")]
  | _ => []
  end.

Definition get (e : nat) (k : string) : pyval :=
  snd <$> List.find (λ kv, String.eqb (fst kv) k) (attributes e).

Definition get_or (e : nat) (k dflt : string) : pyval :=
  Some (default dflt (get e k)).

Definition text (e : nat) : pyval :=
  match e with
  | 1 => Some "LEGISCTA000006136117"
  | 2 => Some "Titre Ier"
  | _ => None
  end.

Definition find (e : nat) (path : string) : option nat :=
  match e with
  | 0 =>
      if String.eqb path "ID" then Some 1
      else if String.eqb path "TITRE_TA" then Some 2
      else if String.eqb path "CONTEXTE/TEXTE" then Some 3
      else if String.eqb path "STRUCTURE_TA" then Some 4
      else None
  | _ => None
  end.

Definition findall (e : nat) (path : string) : list nat :=
  match e with
  | 0 =>
      if String.eqb path ".//LIEN_SECTION_TA" then [5; 6]
      else if String.eqb path ".//LIEN_ART" then [7]
      else []
  | 4 =>
      if String.eqb path "LIEN_SECTION_TA" then [5; 6]
      else if String.eqb path "LIEN_ART" then [7]
      else []
  | _ => []
  end.

Definition children (e : nat) : list nat :=
  match e with
  | 0 => [1; 2; 3; 4]
  | 4 => [5; 6; 7]
  | _ => []
  end.

Definition itertext (e : nat) : list string :=
  match e with
  | 0 => ["LEGISCTA000006136117"; "Titre Ier"]
  | _ => []
  end.

(** The parser on the sample: the data ["<SECTION_TA/>"] stand for the
    document, anything else does not parse. *)
Definition fromstring (data : string) : string + nat :=
  if String.eqb data "<SECTION_TA/>" then inr 0 else inl "XMLSyntaxError".

Definition meta_of (path_in_tar : string) : gmap string Extract.jvalue :=
  Extract.meta_of nat tag get get_or text find findall children 0 path_in_tar.

Definition parse_xml : string → string → string + (string * meta) :=
  Extract.parse_xml nat tag get get_or text find findall children itertext
    fromstring PyStr.strip.

End SampleXml.

(** ** The text a section belongs to, as its path names it *)

Module ParentSpec.

(** The shape of the group of the pattern: LEGITEXT or JORFTEXT and
    twelve digits. *)
Definition text_id_shape (p : string) : Prop :=
  ∃ src digits,
    (src = "LEGI" ∨ src = "JORF") ∧ p = src +:+ "TEXT" +:+ digits ∧
    Unicode.eat_digits 12 digits = Some "".

(** The whole match around the group. *)
Definition in_section_path (p : string) : string :=
  "/" +:+ p +:+ "/section_ta/".

End ParentSpec.

(** ** What the tree builder needs from the table *)

Module TreeSpec.

(** Every child reference stored in the table carries the key [id]. *)
Definition table_refs_have_id (tbl : table) : Prop :=
  Forall (λ d, Forall (λ ss : pydict, is_Some (ss !! "id"))
                      (default [] (m_sous_sections (d_meta d)))) tbl.

End TreeSpec.

Local Close Scope string_scope.

(** * Properties *)

(** ** Identity resolution ([_doc_id]) *)
Module DocIdFacts.

Import Ingest DocId.

Lemma app_cons c (u v : string) : String c u +:+ v = String c (u +:+ v).
Proof. reflexivity. Qed.

Lemma eat_app p n s r t :
  PyStr.eat p n s = Some r → PyStr.eat p n (s +:+ t) = Some (r +:+ t).
Proof.
  revert s. induction n as [|n IH]; intros s H; simpl in *.
  - by inversion H.
  - destruct s as [|c s]; [done|]. simpl.
    destruct (p c); [by apply IH | done].
Qed.

Lemma eat_no_char p n s r k :
  (∀ c, p c = true → nat_of_ascii c ≠ k) →
  PyStr.eat p n s = Some r → no_char k r = true → no_char k s = true.
Proof.
  intros Hp. revert s. induction n as [|n IH]; intros s H Hr; simpl in *.
  - by inversion H; subst.
  - destruct s as [|c s]; [done|].
    destruct (p c) eqn:Hc; [|done]. simpl.
    rewrite (IH _ H Hr), andb_true_r.
    apply negb_true_iff, Nat.eqb_neq. by apply Hp.
Qed.

Lemma no_char_app k u v :
  no_char k u = true → no_char k v = true → no_char k (u +:+ v) = true.
Proof.
  induction u as [|c u IH]; [done|]. rewrite app_cons. cbn [no_char].
  rewrite !andb_true_iff. intros [? ?] ?. split; [done | by apply IH].
Qed.

Lemma eat_length p n s : PyStr.eat p n s = Some "" → String.length s = n.
Proof.
  revert s. induction n as [|n IH]; intros s H; simpl in *.
  - by inversion H.
  - destruct s as [|c s]; [done|]. destruct (p c); [|done].
    simpl. f_equal. by apply IH.
Qed.

Lemma eat_split p n s r :
  PyStr.eat p n s = Some r →
  ∃ u, s = u +:+ r ∧ PyStr.eat p n u = Some "" ∧
       String.substring 0 n s = u.
Proof.
  revert s. induction n as [|n IH]; intros s H; simpl in *.
  - inversion H; subst. exists "". by destruct r.
  - destruct s as [|c s]; [done|]. destruct (p c) eqn:Hc; [|done].
    destruct (IH _ H) as (u & -> & Hu & Hsub).
    exists (String c u). simpl. by rewrite Hc, Hsub.
Qed.

Lemma substring_app_exact u r : String.substring 0 (String.length u) (u +:+ r) = u.
Proof.
  induction u as [|c u IH]; [by destruct r|].
  rewrite app_cons. cbn [String.length String.substring]. by rewrite IH.
Qed.

Lemma string_app_length u v : String.length (u +:+ v) = String.length u + String.length v.
Proof.
  induction u as [|c u IH]; [done|].
  rewrite app_cons. cbn [String.length]. by rewrite IH.
Qed.

Lemma string_app_assoc u v w : (u +:+ v) +:+ w = u +:+ v +:+ w.
Proof. induction u as [|c u IH]; [done|]. rewrite !app_cons. by f_equal. Qed.

Lemma startswith_app u r : PyStr.startswith (u +:+ r) u = true.
Proof.
  induction u as [|c u IH]; [done|].
  rewrite app_cons. cbn [PyStr.startswith]. by rewrite Ascii.eqb_refl, IH.
Qed.

Lemma startswith_contains s i : PyStr.startswith s i = true → PyStr.contains s i = true.
Proof. intros H. destruct s; cbn [PyStr.contains]; by rewrite H. Qed.

Lemma string_app_nil u : u +:+ "" = u.
Proof. induction u as [|c u IH]; [done|]. by rewrite app_cons, IH. Qed.

(** What is matched and what is left make up the subject. *)
Lemma matched_app u r : PyStr.matched (u +:+ r) r = u.
Proof.
  unfold PyStr.matched. rewrite string_app_length.
  replace (String.length u + String.length r - String.length r)
    with (String.length u) by lia.
  apply substring_app_exact.
Qed.

Lemma string_app_inv_head u v w : u +:+ v = u +:+ w → v = w.
Proof.
  induction u as [|c u IH]; [done|]. rewrite !app_cons. intros [= H]. by apply IH.
Qed.

Lemma string_app_inv_tail u u' r : u +:+ r = u' +:+ r → u = u'.
Proof.
  revert u'. induction u as [|c u IH]; intros [|c' u'] H.
  - done.
  - apply (f_equal String.length) in H.
    rewrite !string_app_length in H. cbn [String.length] in H. lia.
  - apply (f_equal String.length) in H.
    rewrite !string_app_length in H. cbn [String.length] in H. lia.
  - rewrite !app_cons in H. injection H as -> H. f_equal. by apply IH.
Qed.

Lemma startswith_split s p :
  PyStr.startswith s p = true → s = p +:+ PyStr.drop (String.length p) s.
Proof.
  revert s. induction p as [|a p IH]; intros s H; [done|].
  destruct s as [|b s]; [done|]. cbn [PyStr.startswith] in H.
  apply andb_true_iff in H as [Hab H]. apply Ascii.eqb_eq in Hab as ->.
  rewrite app_cons. cbn [String.length PyStr.drop]. f_equal. by apply IH.
Qed.

Lemma eat_lit_spec lit s r : PyStr.eat_lit lit s = Some r ↔ s = lit +:+ r.
Proof.
  unfold PyStr.eat_lit. split.
  - destruct (PyStr.startswith s lit) eqn:H; [|done]. intros [= <-].
    by apply startswith_split.
  - intros ->. rewrite startswith_app. f_equal.
    induction lit as [|a lit IH]; [done|]. by rewrite app_cons.
Qed.

(** *** The digits of [\d] *)

Abbreviation digit_byte :=
  (λ c : ascii, PyStr.is_digit c || (128 <=? nat_of_ascii c)%nat).

Lemma is_decimal_ascii cp :
  (cp < 128)%N → Unicode.is_decimal cp = true → (48 ≤ cp ≤ 57)%N.
Proof.
  intros Hcp. unfold Unicode.is_decimal, Unicode.decimal_ranges.
  cbn [existsb fst snd].
  rewrite !orb_true_iff, !andb_true_iff, !N.leb_le. lia.
Qed.

Lemma nat_of_ascii_N c : nat_of_ascii c = N.to_nat (N_of_ascii c).
Proof. reflexivity. Qed.

(** One character is read from a non-empty prefix: one ASCII byte, or
    bytes that are all beyond ASCII. *)
Lemma code_point_at_inv s cp r :
  Unicode.code_point_at s = Some (cp, r) →
  ∃ u, s = u +:+ r ∧ u ≠ "" ∧
       (∀ t, Unicode.code_point_at (u +:+ t) = Some (cp, t)) ∧
       ((∃ c, u = String c "" ∧ cp = N_of_ascii c ∧ (cp < 128)%N)
        ∨ Manifest.all_chars (λ c, (128 <=? nat_of_ascii c)%nat) u = true).
Proof.
  unfold Unicode.code_point_at. destruct s as [|c s1]; [done|].
  destruct (nat_of_ascii c <? 128)%nat eqn:E1.
  { intros [= <- <-]. exists (String c ""). split_and!; try done.
    - intros t. rewrite app_cons. change ("" +:+ t) with t.
      unfold Unicode.code_point_at. cbv zeta. by rewrite E1.
    - left. exists c. split_and!; try done.
      apply Nat.ltb_lt in E1. rewrite nat_of_ascii_N in E1. lia. }
  destruct (nat_of_ascii c <? 194)%nat eqn:E2; [done|].
  assert ((128 <=? nat_of_ascii c)%nat = true) as Hc
    by (apply Nat.leb_le; apply Nat.ltb_ge in E1; lia).
  assert (∀ c', Utf8.is_cont c' = true → (128 <=? nat_of_ascii c')%nat = true) as Hcont.
  { intros c'. unfold Utf8.is_cont. by intros [? _]%andb_true_iff. }
  assert (∀ l c', Utf8.second_ok l c' = true → (128 <=? nat_of_ascii c')%nat = true)
    as Hsec.
  { intros l c'. unfold Utf8.second_ok. rewrite !andb_true_iff.
    intros [[[[? _] _] _] _]. by apply Hcont. }
  destruct (nat_of_ascii c <? 224)%nat eqn:E3.
  { destruct s1 as [|c2 s2]; [done|].
    destruct (Utf8.is_cont c2) eqn:C2; [|done]. intros [= <- <-].
    exists (String c (String c2 "")). split_and!; try done.
    - intros t. rewrite !app_cons. change ("" +:+ t) with t.
      unfold Unicode.code_point_at. cbv zeta. rewrite E1, E2, E3. cbv iota beta.
      by rewrite C2.
    - right. cbn [Manifest.all_chars]. by rewrite Hc, (Hcont _ C2). }
  destruct (nat_of_ascii c <? 240)%nat eqn:E4.
  { destruct s1 as [|c2 [|c3 s3]]; try done.
    destruct (Utf8.second_ok (nat_of_ascii c) c2) eqn:C2; [|done].
    destruct (Utf8.is_cont c3) eqn:C3; [|done]. intros [= <- <-].
    exists (String c (String c2 (String c3 ""))). split_and!; try done.
    - intros t. rewrite !app_cons. change ("" +:+ t) with t.
      unfold Unicode.code_point_at. cbv zeta. rewrite E1, E2, E3, E4. cbv iota beta.
      by rewrite C2, C3.
    - right. cbn [Manifest.all_chars]. by rewrite Hc, (Hsec _ _ C2), (Hcont _ C3). }
  destruct (nat_of_ascii c <? 245)%nat eqn:E5; [|done].
  destruct s1 as [|c2 [|c3 [|c4 s4]]]; try done.
  destruct (Utf8.second_ok (nat_of_ascii c) c2) eqn:C2; [|done].
  destruct (Utf8.is_cont c3) eqn:C3; [|done].
  destruct (Utf8.is_cont c4) eqn:C4; [|done]. intros [= <- <-].
  exists (String c (String c2 (String c3 (String c4 "")))). split_and!; try done.
  - intros t. rewrite !app_cons. change ("" +:+ t) with t.
    unfold Unicode.code_point_at. cbv zeta. rewrite E1, E2, E3, E4, E5. cbv iota beta.
    by rewrite C2, C3, C4.
  - right. cbn [Manifest.all_chars].
    by rewrite Hc, (Hsec _ _ C2), (Hcont _ C3), (Hcont _ C4).
Qed.

Lemma all_chars_split p u v :
  Manifest.all_chars p (u +:+ v)
  = Manifest.all_chars p u && Manifest.all_chars p v.
Proof.
  induction u as [|c u IH]; [done|].
  rewrite app_cons. cbn [Manifest.all_chars]. by rewrite IH, andb_assoc.
Qed.

Lemma all_chars_weaken (p q : ascii → bool) u :
  (∀ c, p c = true → q c = true) →
  Manifest.all_chars p u = true → Manifest.all_chars q u = true.
Proof.
  intros Hpq. induction u as [|c u IH]; [done|]. cbn [Manifest.all_chars].
  rewrite !andb_true_iff. intros [? ?]. split; [by apply Hpq | by apply IH].
Qed.

(** One digit is read from a non-empty prefix made of an ASCII digit or of
    bytes beyond ASCII. *)
Lemma eat_digit_inv s r :
  Unicode.eat_digit s = Some r →
  ∃ u, s = u +:+ r ∧ u ≠ "" ∧
       (∀ t, Unicode.eat_digit (u +:+ t) = Some t) ∧
       Manifest.all_chars digit_byte u = true.
Proof.
  unfold Unicode.eat_digit.
  destruct (Unicode.code_point_at s) as [[cp r']|] eqn:E; [|done].
  destruct (Unicode.is_decimal cp) eqn:D; [|done]. intros [= ->].
  destruct (code_point_at_inv _ _ _ E) as (u & -> & Hne & Hu & Hb).
  exists u. split_and!; try done.
  - intros t. by rewrite Hu, D.
  - destruct Hb as [(c & -> & -> & Hlt) | Hb].
    + cbn. rewrite andb_true_r. apply orb_true_iff. left.
      pose proof (is_decimal_ascii _ Hlt D) as Hd.
      unfold PyStr.is_digit. rewrite andb_true_iff, !Nat.leb_le.
      rewrite nat_of_ascii_N. lia.
    + eapply all_chars_weaken; [|exact Hb]. intros c Hc. cbn beta.
      by rewrite Hc, orb_true_r.
Qed.

Lemma eat_digit_app s r t :
  Unicode.eat_digit s = Some r → Unicode.eat_digit (s +:+ t) = Some (r +:+ t).
Proof.
  intros H. destruct (eat_digit_inv _ _ H) as (u & -> & _ & Hu & _).
  by rewrite string_app_assoc, Hu.
Qed.

Lemma eat_digits_app n s r t :
  Unicode.eat_digits n s = Some r →
  Unicode.eat_digits n (s +:+ t) = Some (r +:+ t).
Proof.
  revert s. induction n as [|n IH]; intros s H; cbn [Unicode.eat_digits] in *.
  - by inversion H.
  - destruct (Unicode.eat_digit s) as [s'|] eqn:E; [|done].
    rewrite (eat_digit_app _ _ _ E). by apply IH.
Qed.

Lemma eat_digits_inv n s r :
  Unicode.eat_digits n s = Some r →
  ∃ u, s = u +:+ r ∧ Unicode.eat_digits n u = Some "" ∧
       Manifest.all_chars digit_byte u = true ∧ (n ≠ 0 → u ≠ "").
Proof.
  revert s. induction n as [|n IH]; intros s H; cbn [Unicode.eat_digits] in *.
  - inversion H; subst. by exists "".
  - destruct (Unicode.eat_digit s) as [s'|] eqn:E; [|done].
    destruct (eat_digit_inv _ _ E) as (u1 & -> & Hne & Hu1 & Hb1).
    destruct (IH _ H) as (u2 & -> & Hu2 & Hb2 & _).
    exists (u1 +:+ u2). split_and!.
    + by rewrite string_app_assoc.
    + cbn [Unicode.eat_digits]. by rewrite Hu1.
    + by rewrite all_chars_split, Hb1, Hb2.
    + intros _. destruct u1; [done|]. by rewrite app_cons.
Qed.

(** The digits read from a subject are the only prefix of it that is made
    of that many digits. *)
Lemma eat_digits_unique n u u' r r' :
  Unicode.eat_digits n u = Some "" → Unicode.eat_digits n u' = Some "" →
  u +:+ r = u' +:+ r' → u = u' ∧ r = r'.
Proof.
  intros H H' E.
  pose proof (eat_digits_app _ _ _ r H) as H1.
  pose proof (eat_digits_app _ _ _ r' H') as H2.
  change ("" +:+ r) with r in H1. change ("" +:+ r') with r' in H2.
  rewrite E, H2 in H1. injection H1 as ->.
  split; [|done]. by apply string_app_inv_tail in E.
Qed.

Lemma eat_unique p n u u' r r' :
  PyStr.eat p n u = Some "" → PyStr.eat p n u' = Some "" →
  u +:+ r = u' +:+ r' → u = u' ∧ r = r'.
Proof.
  intros H H' E.
  pose proof (eat_app _ _ _ _ r H) as H1.
  pose proof (eat_app _ _ _ _ r' H') as H2.
  change ("" +:+ r) with r in H1. change ("" +:+ r') with r' in H2.
  rewrite E, H2 in H1. injection H1 as ->.
  split; [|done]. by apply string_app_inv_tail in E.
Qed.

Lemma digit_byte_no_char k u :
  k < 48 ∨ 57 < k → k < 128 →
  Manifest.all_chars digit_byte u = true → no_char k u = true.
Proof.
  intros Hk Hk'. induction u as [|c u IH]; [done|].
  cbn [Manifest.all_chars no_char]. rewrite !andb_true_iff. intros [Hc Hu].
  split; [|by apply IH]. apply negb_true_iff, Nat.eqb_neq.
  apply orb_true_iff in Hc as [Hc|Hc].
  - unfold PyStr.is_digit in Hc. rewrite andb_true_iff, !Nat.leb_le in Hc. lia.
  - apply Nat.leb_le in Hc. lia.
Qed.

(** A digit does not start with a capital letter. *)
Lemma eat_digit_not_upper c s :
  PyStr.is_upper c = true → Unicode.eat_digit (String c s) = None.
Proof.
  intros Hc. destruct (Unicode.eat_digit (String c s)) as [r|] eqn:E; [|done].
  destruct (eat_digit_inv _ _ E) as (u & Hs & Hne & _ & Hb).
  destruct u as [|c' u]; [done|]. rewrite app_cons in Hs. injection Hs as <- _.
  cbn [Manifest.all_chars] in Hb. apply andb_true_iff in Hb as [Hb _].
  unfold PyStr.is_upper, PyStr.is_digit in *.
  rewrite andb_true_iff, !Nat.leb_le in Hc.
  rewrite orb_true_iff, andb_true_iff, !Nat.leb_le in Hb. lia.
Qed.

Lemma is_decimal_digit cp : (48 ≤ cp ≤ 57)%N → Unicode.is_decimal cp = true.
Proof.
  intros H. unfold Unicode.is_decimal, Unicode.decimal_ranges.
  cbn [existsb fst snd]. apply orb_true_iff. left.
  apply andb_true_iff. rewrite !N.leb_le. lia.
Qed.

(** On ASCII text [\d] is the class of the ASCII digits. *)
Lemma eat_digit_ascii c s :
  nat_of_ascii c < 128 →
  Unicode.eat_digit (String c s) = if PyStr.is_digit c then Some s else None.
Proof.
  intros Hc. unfold Unicode.eat_digit, Unicode.code_point_at. cbv zeta.
  rewrite (proj2 (Nat.ltb_lt _ _) Hc).
  unfold PyStr.is_digit.
  destruct (Unicode.is_decimal (N_of_ascii c)) eqn:D.
  - assert (N_of_ascii c < 128)%N as Hlt by (rewrite nat_of_ascii_N in Hc; lia).
    pose proof (is_decimal_ascii _ Hlt D) as Hd.
    rewrite (proj2 (Nat.leb_le _ _)), (proj2 (Nat.leb_le _ _));
      [done | rewrite nat_of_ascii_N; lia | rewrite nat_of_ascii_N; lia].
  - destruct (48 <=? nat_of_ascii c)%nat eqn:E1; [|done].
    destruct (nat_of_ascii c <=? 57)%nat eqn:E2; [|done].
    apply Nat.leb_le in E1, E2. rewrite nat_of_ascii_N in E1, E2.
    rewrite is_decimal_digit in D by lia. done.
Qed.

Lemma eat_digits_ascii n s :
  Manifest.all_chars Manifest.is_ascii s = true →
  Unicode.eat_digits n s = PyStr.eat PyStr.is_digit n s.
Proof.
  revert s. induction n as [|n IH]; intros s Hs; [done|].
  cbn [Unicode.eat_digits PyStr.eat]. destruct s as [|c s]; [done|].
  cbn [Manifest.all_chars] in Hs. apply andb_true_iff in Hs as [Hc Hs].
  unfold Manifest.is_ascii in Hc. apply Nat.ltb_lt in Hc.
  rewrite (eat_digit_ascii c s Hc). destruct (PyStr.is_digit c); [by apply IH | done].
Qed.

(** *** Snapshot folders *)

Lemma is_timestamp_split ts :
  is_timestamp ts = true ↔
  ∃ d8 d6, ts = d8 +:+ "-" +:+ d6 ∧
           Unicode.eat_digits 8 d8 = Some "" ∧ Unicode.eat_digits 6 d6 = Some "".
Proof.
  unfold is_timestamp. split.
  - destruct (Unicode.eat_digits 8 ts) as [[|c r]|] eqn:H8; try done.
    rewrite andb_true_iff, Nat.eqb_eq. intros [Hc H6].
    destruct (Unicode.eat_digits 6 r) as [[|? ?]|] eqn:Hr; try done.
    destruct (eat_digits_inv _ _ _ H8) as (d8 & -> & Hd8 & _).
    exists d8, r. split_and!; try done.
    assert (c = "-"%char) as ->; [|done].
    rewrite <- (ascii_nat_embedding c), Hc. reflexivity.
  - intros (d8 & d6 & -> & H8 & H6).
    rewrite (eat_digits_app _ _ _ _ H8).
    change ("" +:+ "-" +:+ d6) with (String "-" d6). cbv beta iota.
    by rewrite H6.
Qed.

Lemma timestamp_no_L ts : is_timestamp ts = true → no_char 76 ts = true.
Proof.
  intros (d8 & d6 & -> & H8 & H6)%is_timestamp_split.
  destruct (eat_digits_inv _ _ _ H8) as (u8 & E8 & _ & Hb8 & _).
  destruct (eat_digits_inv _ _ _ H6) as (u6 & E6 & _ & Hb6 & _).
  rewrite string_app_nil in E8, E6. subst u8 u6.
  apply no_char_app; [apply digit_byte_no_char; [lia | lia | done]|].
  apply (no_char_app 76 "-"); [done|].
  apply digit_byte_no_char; [lia | lia | done].
Qed.

Lemma strip_timestamp_app ts rest :
  is_timestamp ts = true → Re.strip_timestamp (ts +:+ "/" +:+ rest) = rest.
Proof.
  intros (d8 & d6 & -> & H8 & H6)%is_timestamp_split.
  unfold Re.strip_timestamp.
  rewrite string_app_assoc. rewrite (eat_digits_app _ _ _ _ H8).
  change ("" +:+ ("-" +:+ d6) +:+ "/" +:+ rest)
    with (String "-" (d6 +:+ "/" +:+ rest)). cbv beta iota.
  rewrite (eat_digits_app _ _ _ _ H6).
  by change ("" +:+ "/" +:+ rest) with (String "/" rest).
Qed.

(** [re.sub] removes a leading snapshot folder and changes nothing else. *)
Lemma strip_timestamp_cases s :
  (∃ ts rest, s = ts +:+ "/" +:+ rest ∧ is_timestamp ts = true ∧
              Re.strip_timestamp s = rest)
  ∨ ((∀ ts rest, is_timestamp ts = true → s ≠ ts +:+ "/" +:+ rest) ∧
     Re.strip_timestamp s = s).
Proof.
  unfold Re.strip_timestamp.
  destruct (Unicode.eat_digits 8 s) as [s1|] eqn:H8.
  2: { right. split; [|done].
       intros ts rest (d8 & d6 & -> & H8' & H6')%is_timestamp_split ->.
       rewrite string_app_assoc, (eat_digits_app _ _ _ _ H8') in H8.
       discriminate H8. }
  destruct (eat_digits_inv _ _ _ H8) as (d8 & -> & Hd8 & _).
  assert (∀ ts rest, is_timestamp ts = true →
            d8 +:+ s1 = ts +:+ "/" +:+ rest →
            ∃ d6, ts = d8 +:+ "-" +:+ d6 ∧ s1 = String "-" (d6 +:+ "/" +:+ rest) ∧
                  Unicode.eat_digits 6 d6 = Some "") as Hinv.
  { intros ts rest (e8 & e6 & -> & He8 & He6)%is_timestamp_split Hs.
    rewrite string_app_assoc in Hs.
    destruct (eat_digits_unique _ _ _ _ _ Hd8 He8 Hs) as [<- ->].
    exists e6. split_and!; [done | | done].
    by rewrite string_app_assoc. }
  destruct s1 as [|c s1].
  { right. split; [|done]. intros ts rest Hts Hs.
    by destruct (Hinv _ _ Hts Hs) as (? & _ & ? & _). }
  destruct (Ascii.eqb_spec c "-"%char) as [->|Hc].
  2: { right. split.
       - intros ts rest Hts Hs.
         destruct (Hinv _ _ Hts Hs) as (? & _ & [= ? _] & _). done.
       - destruct c as [[] [] [] [] [] [] [] []]; done. }
  destruct (Unicode.eat_digits 6 s1) as [s2|] eqn:H6.
  2: { right. split; [|done]. intros ts rest Hts Hs.
       destruct (Hinv _ _ Hts Hs) as (d6 & _ & [= ->] & Hd6).
       rewrite (eat_digits_app _ _ _ _ Hd6) in H6. discriminate H6. }
  destruct (eat_digits_inv _ _ _ H6) as (d6 & -> & Hd6 & _).
  assert (∀ ts rest, is_timestamp ts = true →
            d8 +:+ String "-" (d6 +:+ s2) = ts +:+ "/" +:+ rest →
            s2 = String "/" rest) as Hinv2.
  { intros ts rest Hts Hs.
    destruct (Hinv _ _ Hts Hs) as (e6 & _ & [= Hs'] & He6).
    by destruct (eat_digits_unique _ _ _ _ _ Hd6 He6 Hs') as [_ ->]. }
  destruct s2 as [|c2 s2].
  { right. split; [|done]. intros ts rest Hts Hs.
    by specialize (Hinv2 _ _ Hts Hs). }
  destruct (Ascii.eqb_spec c2 "/"%char) as [->|Hc2].
  2: { right. split.
       - intros ts rest Hts Hs. specialize (Hinv2 _ _ Hts Hs).
         injection Hinv2 as ? _. done.
       - destruct c2 as [[] [] [] [] [] [] [] []]; done. }
  left. exists (d8 +:+ "-" +:+ d6), s2. split_and!.
  - rewrite !string_app_assoc. by f_equal.
  - apply is_timestamp_split. by exists d8, d6.
  - done.
Qed.

(** *** The pattern of the ids *)

Lemma legi_id_with_spec k s i :
  Re.legi_id_with k s = Some i ↔ ∃ post, s = i +:+ post ∧ legi_id_shape k i.
Proof.
  unfold Re.legi_id_with. split.
  - destruct (PyStr.eat_lit "LEGI" s) as [s1|] eqn:Hl; [|done].
    apply eat_lit_spec in Hl as ->.
    destruct (PyStr.eat PyStr.is_upper k s1) as [s2|] eqn:Hu; [|done].
    destruct (Unicode.eat_digits 12 s2) as [s3|] eqn:Hd; [|done].
    intros [= <-].
    destruct (eat_split _ _ _ _ Hu) as (caps & -> & Hcaps & _).
    destruct (eat_digits_inv _ _ _ Hd) as (digits & -> & Hdig & _).
    assert ("LEGI" +:+ caps +:+ digits +:+ s3
            = ("LEGI" +:+ caps +:+ digits) +:+ s3) as E
      by (by rewrite !string_app_assoc).
    rewrite E, matched_app. exists s3. split; [done|]. by exists caps, digits.
  - intros (post & -> & caps & digits & -> & Hcaps & Hdig).
    assert (("LEGI" +:+ caps +:+ digits) +:+ post
            = "LEGI" +:+ caps +:+ digits +:+ post) as E
      by (by rewrite !string_app_assoc).
    rewrite E at 1.
    rewrite (proj2 (eat_lit_spec "LEGI" _ (caps +:+ digits +:+ post)) eq_refl).
    rewrite (eat_app _ _ _ _ (digits +:+ post) Hcaps).
    change ("" +:+ digits +:+ post) with (digits +:+ post).
    rewrite (eat_digits_app _ _ _ post Hdig).
    change ("" +:+ post) with post. by rewrite matched_app.
Qed.

Lemma eat_more p k k' s r r' :
  PyStr.eat p k s = Some r → PyStr.eat p k' s = Some r' → k < k' →
  ∃ c r'', r = String c r'' ∧ p c = true.
Proof.
  revert k' s. induction k as [|k IH]; intros [|k'] s H H' Hk; try lia.
  - cbn in H. injection H as <-. cbn in H'.
    destruct s as [|c s]; [done|]. destruct (p c) eqn:Hc; [|done]. eauto.
  - cbn in H, H'. destruct s as [|c s]; [done|]. destruct (p c); [|done].
    apply (IH k' s); [done | done | lia].
Qed.

(** At one place of a subject the pattern matches with one number of
    capital letters only: what follows them is a digit. *)
Lemma legi_id_with_unique k k' s i i' :
  Re.legi_id_with k s = Some i → Re.legi_id_with k' s = Some i' → k = k'.
Proof.
  unfold Re.legi_id_with.
  destruct (PyStr.eat_lit "LEGI" s) as [s1|]; [|done].
  destruct (PyStr.eat PyStr.is_upper k s1) as [s2|] eqn:Hu; [|done].
  destruct (Unicode.eat_digits 12 s2) as [s3|] eqn:Hd; [|done].
  destruct (PyStr.eat PyStr.is_upper k' s1) as [s2'|] eqn:Hu'; [|done].
  destruct (Unicode.eat_digits 12 s2') as [s3'|] eqn:Hd'; [|done].
  intros _ _.
  destruct (Nat.lt_trichotomy k k') as [Hlt | [-> | Hlt]]; [|done|].
  - destruct (eat_more _ _ _ _ _ _ Hu Hu' Hlt) as (c & r & -> & Hc).
    cbn [Unicode.eat_digits] in Hd. by rewrite (eat_digit_not_upper _ _ Hc) in Hd.
  - destruct (eat_more _ _ _ _ _ _ Hu' Hu Hlt) as (c & r & -> & Hc).
    cbn [Unicode.eat_digits] in Hd'. by rewrite (eat_digit_not_upper _ _ Hc) in Hd'.
Qed.

Lemma legi_id_at_spec ks s i :
  Re.legi_id_at ks s = Some i ↔ ∃ post, s = i +:+ post ∧ legi_id ks i.
Proof.
  unfold Re.legi_id_at, legi_id. split.
  - induction ks as [|k ks IH]; [done|]. cbn [Re.first_some].
    destruct (Re.legi_id_with k s) as [j|] eqn:Hk.
    + intros [= <-]. apply legi_id_with_spec in Hk as (post & -> & Hshape).
      exists post. split; [done|]. exists k. split; [by left | done].
    + intros H. destruct (IH H) as (post & -> & k' & Hk' & Hshape).
      exists post. split; [done|]. exists k'. split; [by right | done].
  - intros (post & -> & k & Hk & Hshape).
    assert (Re.legi_id_with k (i +:+ post) = Some i) as Hi
      by (apply legi_id_with_spec; eauto).
    induction ks as [|k0 ks IH]; [by apply elem_of_nil in Hk|].
    cbn [Re.first_some].
    destruct (Re.legi_id_with k0 (i +:+ post)) as [j|] eqn:Hk0.
    + pose proof (legi_id_with_unique _ _ _ _ _ Hk0 Hi) as ->. congruence.
    + apply elem_of_cons in Hk as [->|Hk]; [congruence | by apply IH].
Qed.

Lemma legi_id_at_not_L ks c s :
  nat_of_ascii c ≠ 76 → Re.legi_id_at ks (String c s) = None.
Proof.
  intros Hc. unfold Re.legi_id_at.
  induction ks as [|k ks IH]; [done|]. simpl. rewrite IH.
  unfold Re.legi_id_with, PyStr.eat_lit. cbn [PyStr.startswith].
  destruct (Ascii.eqb "L" c) eqn:E; [|done].
  apply Ascii.eqb_eq in E. by subst c.
Qed.

(** A match cannot start inside a prefix without the letter L. *)
Lemma search_skip_prefix ks pre s :
  no_char 76 pre = true →
  Re.search_legi_id ks (pre +:+ s) = Re.search_legi_id ks s.
Proof.
  induction pre as [|c pre IH]; [done|]. simpl.
  rewrite andb_true_iff, negb_true_iff, Nat.eqb_neq. intros [Hc Hpre].
  change (String c pre +:+ s) with (String c (pre +:+ s)).
  cbn [Re.search_legi_id]. rewrite legi_id_at_not_L by done. by apply IH.
Qed.

(** *** What [re.search] finds

    A search that tries the anchored pattern at every place of the
    subject, from the left, finds the leftmost match, and finds nothing
    only when the pattern occurs nowhere. *)

Section Search.

Variable anchored : string → option string.
Variable search : string → option string.
Variable wrap : string → string.
Variable shape : string → Prop.

Hypothesis search_eq : ∀ s,
  search s = match anchored s with
             | Some m => Some m
             | None => match s with
                       | EmptyString => None
                       | String _ s' => search s'
                       end
             end.

Hypothesis anchored_spec : ∀ s g,
  anchored s = Some g ↔ ∃ post, s = wrap g +:+ post ∧ shape g.

Lemma search_first_match s g : search s = Some g ↔ first_match wrap shape s g.
Proof.
  split.
  - induction s as [|c s IH]; rewrite search_eq.
    + destruct (anchored "") as [m|] eqn:Ha; [|done]. intros [= ->].
      apply anchored_spec in Ha as (post & E & Hs).
      exists "", post. split_and!; [done | done |]. intros; cbn; lia.
    + destruct (anchored (String c s)) as [m|] eqn:Ha.
      * intros [= ->]. apply anchored_spec in Ha as (post & E & Hs).
        exists "", post. split_and!; [done | done |]. intros; cbn; lia.
      * intros H. destruct (IH H) as (pre & post & -> & Hs & Hmin).
        exists (String c pre), post. split_and!; [done | done |].
        intros [|c' pre'] g' post' E Hs'.
        -- assert (anchored (String c (pre +:+ wrap g +:+ post)) = Some g') as Ha'
             by (apply anchored_spec; eauto).
           congruence.
        -- rewrite app_cons in E. injection E as -> E.
           cbn [String.length]. apply le_n_S. by eapply Hmin.
  - revert g. induction s as [|c s IH]; intros g (pre & post & E & Hs & Hmin);
      rewrite search_eq.
    + destruct pre as [|c pre]; [|by rewrite app_cons in E].
      by rewrite (proj2 (anchored_spec "" g) (ex_intro _ post (conj E Hs))).
    + destruct (anchored (String c s)) as [m|] eqn:Ha.
      * apply anchored_spec in Ha as (post' & E' & Hs').
        specialize (Hmin "" m post' E' Hs'). destruct pre; [|cbn in Hmin; lia].
        assert (anchored (String c s) = Some g) as Ha
          by (apply anchored_spec; eauto).
        assert (anchored (String c s) = Some m) as Ha'
          by (apply anchored_spec; eauto).
        congruence.
      * destruct pre as [|c' pre].
        { assert (anchored (String c s) = Some g) as Ha'
            by (apply anchored_spec; eauto).
          congruence. }
        rewrite app_cons in E. injection E as <- E. apply IH.
        exists pre, post. split_and!; [done | done |].
        intros pre' g' post' E' Hs'.
        specialize (Hmin (String c pre') g' post').
        rewrite app_cons in Hmin. cbn [String.length] in Hmin.
        apply le_S_n, Hmin; [by rewrite E' | done].
Qed.

Lemma search_no_match s : search s = None ↔ no_match wrap shape s.
Proof.
  split.
  - induction s as [|c s IH]; rewrite search_eq.
    + destruct (anchored "") as [m|] eqn:Ha; [done|]. intros _ pre g post Hs E.
      destruct pre; [|by rewrite app_cons in E].
      assert (anchored "" = Some g) by (apply anchored_spec; eauto). congruence.
    + destruct (anchored (String c s)) as [m|] eqn:Ha; [done|].
      intros H pre g post Hs E. destruct pre as [|c' pre].
      * assert (anchored (String c s) = Some g) by (apply anchored_spec; eauto).
        congruence.
      * rewrite app_cons in E. injection E as _ E. by apply (IH H pre g post).
  - induction s as [|c s IH]; intros Hno; rewrite search_eq.
    + destruct (anchored "") as [m|] eqn:Ha; [|done].
      apply anchored_spec in Ha as (post & E & Hs). by destruct (Hno "" m post).
    + destruct (anchored (String c s)) as [m|] eqn:Ha.
      * apply anchored_spec in Ha as (post & E & Hs). by destruct (Hno "" m post).
      * apply IH. intros pre g post Hs E.
        apply (Hno (String c pre) g post Hs). by rewrite app_cons, E.
Qed.

Lemma search_cases s :
  (∃ g, first_match wrap shape s g) ∨ no_match wrap shape s.
Proof.
  destruct (search s) as [g|] eqn:E.
  - left. exists g. by apply search_first_match.
  - right. by apply search_no_match.
Qed.

Lemma first_match_unique s g g' :
  first_match wrap shape s g → first_match wrap shape s g' → g = g'.
Proof.
  intros H H'. apply search_first_match in H, H'. congruence.
Qed.

End Search.

Lemma search_legi_id_eq ks s :
  Re.search_legi_id ks s
  = match Re.legi_id_at ks s with
    | Some m => Some m
    | None => match s with
              | EmptyString => None
              | String _ s' => Re.search_legi_id ks s'
              end
    end.
Proof. by destruct s. Qed.

(** [re.search] with the pattern of the ids. *)
Lemma search_legi_id_first ks s i :
  Re.search_legi_id ks s = Some i ↔ first_match id (legi_id ks) s i.
Proof.
  apply (search_first_match (Re.legi_id_at ks));
    [apply search_legi_id_eq | apply legi_id_at_spec].
Qed.

Lemma search_legi_id_none ks s :
  Re.search_legi_id ks s = None ↔ no_match id (legi_id ks) s.
Proof.
  apply (search_no_match (Re.legi_id_at ks));
    [apply search_legi_id_eq | apply legi_id_at_spec].
Qed.

Section WithHash.

Variable sha256_hexdigest : string → string.

Abbreviation doc_id := (_doc_id sha256_hexdigest).

Lemma doc_id_meta source path meta i :
  meta_has_id meta i → doc_id source path meta = i.
Proof.
  intros (m & -> & Hi & Hne). unfold _doc_id. rewrite Hi. cbn [truthy].
  destruct (String.eqb i "") eqn:E; [|done].
  by apply String.eqb_eq in E.
Qed.

Lemma doc_id_no_meta source path meta :
  meta_has_no_id meta →
  doc_id source path meta =
    match Re.search_legi_id [4; 3] path with
    | Some i => i
    | None => sha256_hexdigest (source +:+ ":" +:+ Re.strip_timestamp path)
    end.
Proof.
  intros H. unfold _doc_id. destruct meta as [m|]; [|done].
  by destruct (H m eq_refl) as [-> | ->].
Qed.

Lemma doc_id_snapshot_stable source ts1 ts2 rest meta :
  is_timestamp ts1 = true → is_timestamp ts2 = true →
  doc_id source (ts1 +:+ "/" +:+ rest) meta
  = doc_id source (ts2 +:+ "/" +:+ rest) meta.
Proof.
  intros H1 H2. unfold _doc_id.
  rewrite !strip_timestamp_app by done.
  replace (ts1 +:+ "/" +:+ rest) with ((ts1 +:+ "/") +:+ rest)
    by (by rewrite string_app_assoc).
  replace (ts2 +:+ "/" +:+ rest) with ((ts2 +:+ "/") +:+ rest)
    by (by rewrite string_app_assoc).
  rewrite !search_skip_prefix; [done | |].
  - apply no_char_app; [by apply timestamp_no_L | done].
  - apply no_char_app; [by apply timestamp_no_L | done].
Qed.

End WithHash.

End DocIdFacts.
(** C2. Identity resolution priority: the id of a document is the id of its
    metadata when there is one; otherwise the leftmost match of the pattern
    LEGI, three or four capital letters, twelve digits in the archive path,
    when the pattern occurs in it; otherwise, when the pattern occurs
    nowhere in the path, the SHA-256 of [source:path] where the leading
    snapshot folder [YYYYMMDD-HHMMSS/] of the path is removed and nothing
    else is changed.  One of the two cases holds for every path.  Hence
    the same entry under two snapshot folders gets the same id.  The
    digits are those of [\d]: any decimal digit of Unicode. *)
Theorem doc_id_resolution_priority
    (sha256_hexdigest : string → string) (source path : string) (meta : option meta) :
  let pattern := DocId.legi_id [4; 3] in
  (∀ i, DocId.meta_has_id meta i →
        Ingest._doc_id sha256_hexdigest source path meta = i) ∧
  (DocId.meta_has_no_id meta →
     ∀ i, DocId.first_match id pattern path i →
          Ingest._doc_id sha256_hexdigest source path meta = i) ∧
  (DocId.meta_has_no_id meta →
     DocId.no_match id pattern path →
     Ingest._doc_id sha256_hexdigest source path meta
     = sha256_hexdigest (source +:+ ":" +:+ Re.strip_timestamp path)) ∧
  ((∃ i, DocId.first_match id pattern path i) ∨ DocId.no_match id pattern path) ∧
  (∀ ts rest,
     DocId.is_timestamp ts = true → path = ts +:+ "/" +:+ rest →
     Re.strip_timestamp path = rest) ∧
  ((∀ ts rest, DocId.is_timestamp ts = true → path ≠ ts +:+ "/" +:+ rest) →
   Re.strip_timestamp path = path) ∧
  (∀ ts1 ts2 rest,
     DocId.is_timestamp ts1 = true → DocId.is_timestamp ts2 = true →
     Ingest._doc_id sha256_hexdigest source (ts1 +:+ "/" +:+ rest) meta
     = Ingest._doc_id sha256_hexdigest source (ts2 +:+ "/" +:+ rest) meta).
Proof.
  intros pattern. split_and!.
  - intros i Hi. by apply DocIdFacts.doc_id_meta.
  - intros Hno i Hi. apply DocIdFacts.search_legi_id_first in Hi.
    by rewrite DocIdFacts.doc_id_no_meta, Hi.
  - intros Hno Hn. apply DocIdFacts.search_legi_id_none in Hn.
    by rewrite DocIdFacts.doc_id_no_meta, Hn.
  - destruct (Re.search_legi_id [4; 3] path) as [i|] eqn:E.
    + left. exists i. by apply DocIdFacts.search_legi_id_first.
    + right. by apply DocIdFacts.search_legi_id_none.
  - intros ts rest Hts ->. by apply DocIdFacts.strip_timestamp_app.
  - intros Hno.
    destruct (DocIdFacts.strip_timestamp_cases path)
      as [(ts & rest & E & Hts & _) | [_ E]]; [|done].
    by destruct (Hno ts rest Hts).
  - intros ts1 ts2 rest H1 H2. by apply DocIdFacts.doc_id_snapshot_stable.
Qed.

Lemma doc_id_resolution_priority_witness :
  Ingest._doc_id (λ s, s) "LEGI" ("20260104-202823" +:+ "/" +:+ "legi/global/x.xml") None
  = Ingest._doc_id (λ s, s) "LEGI" ("20250101-000000" +:+ "/" +:+ "legi/global/x.xml") None
  ∧ Ingest._doc_id (λ s, s) "LEGI"
      "20260104-202823/legi/LEGI/ARTI/LEGIARTI000006797825.xml" (Some empty_meta)
    = "LEGIARTI000006797825"
  ∧ Ingest._doc_id (λ s, s) "LEGI" "legi/LEGIARTI٠٠٠٠٠٠٧٩٧٨٢٥.xml" (Some empty_meta)
    = "LEGIARTI٠٠٠٠٠٠٧٩٧٨٢٥".
Proof.
  split_and!.
  - apply (doc_id_resolution_priority (λ s, s) "LEGI" "" None); reflexivity.
  - apply (doc_id_resolution_priority (λ s, s) "LEGI"
             "20260104-202823/legi/LEGI/ARTI/LEGIARTI000006797825.xml"
             (Some empty_meta)).
    + intros m [= <-]. by left.
    + apply DocIdFacts.search_legi_id_first. reflexivity.
  - apply (doc_id_resolution_priority (λ s, s) "LEGI"
             "legi/LEGIARTI٠٠٠٠٠٠٧٩٧٨٢٥.xml" (Some empty_meta)).
    + intros m [= <-]. by left.
    + apply DocIdFacts.search_legi_id_first. vm_compute. reflexivity.
Defined.

(** ** Upsert ([_upsert_documents]) *)
Module UpsertFacts.

Import Ingest Upsert.

Lemma upsert_row_ids r tbl :
  (d_id <$> upsert_row r tbl) = (d_id <$> tbl) ∨
  ((d_id r ∉ (d_id <$> tbl)) ∧
   (d_id <$> upsert_row r tbl) = (d_id <$> tbl) ++ [d_id r]).
Proof.
  induction tbl as [|d tbl IH]; cbn [upsert_row].
  - right. split; [apply not_elem_of_nil | done].
  - destruct (decide (d_id d = d_id r)) as [E|NE].
    + left. cbn. by rewrite E.
    + destruct IH as [IH | [Hnot IH]].
      * left. cbn. by rewrite IH.
      * right. split.
        -- cbn. rewrite elem_of_cons. intros [?|?]; [by apply NE | done].
        -- cbn. by rewrite IH.
Qed.

Lemma upsert_row_elem r tbl : d_id r ∈ d_id <$> upsert_row r tbl.
Proof.
  induction tbl as [|d tbl IH]; cbn [upsert_row].
  - by left.
  - destruct (decide (d_id d = d_id r)); cbn; [by left | by right].
Qed.

(** A second upsert of the same id overwrites the first. *)
Lemma upsert_row_overwrite r r' tbl :
  d_id r = d_id r' → upsert_row r (upsert_row r' tbl) = upsert_row r tbl.
Proof.
  intros E. induction tbl as [|d tbl IH]; cbn [upsert_row].
  - by rewrite decide_True.
  - destruct (decide (d_id d = d_id r')) as [E'|NE'].
    + cbn [upsert_row]. rewrite !decide_True; [done | congruence | congruence].
    + cbn [upsert_row]. rewrite !decide_False by congruence. by rewrite IH.
Qed.

Lemma upsert_row_pk r tbl : pk_unique tbl → pk_unique (upsert_row r tbl).
Proof.
  unfold pk_unique. intros H.
  destruct (upsert_row_ids r tbl) as [-> | [Hnot ->]]; [done|].
  apply NoDup_app. split_and!; [done | | apply NoDup_singleton].
  intros x Hx Hx'. apply list_elem_of_singleton in Hx' as ->. done.
Qed.

Lemma upsert_row_length r tbl :
  length (upsert_row r tbl) =
    if decide (d_id r ∈ d_id <$> tbl) then length tbl else S (length tbl).
Proof.
  induction tbl as [|d tbl IH]; cbn [upsert_row].
  - by rewrite decide_False by apply not_elem_of_nil.
  - destruct (decide (d_id d = d_id r)) as [E|NE].
    + rewrite decide_True; [done|]. cbn. rewrite E. by left.
    + cbn [length]. rewrite IH. cbn [fmap list_fmap].
      destruct (decide (d_id r ∈ d_id <$> tbl)) as [Hin|Hnin].
      * rewrite decide_True; [done | by right].
      * rewrite decide_False; [done|].
        rewrite elem_of_cons. intros [?|?]; [by apply NE | done].
Qed.

(** Rows that carry another id are left as they are. *)
Lemma upsert_row_other r tbl j :
  j ≠ d_id r → rows_with_id j (upsert_row r tbl) = rows_with_id j tbl.
Proof.
  intros Hj. unfold rows_with_id.
  induction tbl as [|d tbl IH]; cbn [upsert_row].
  - rewrite filter_cons, decide_False by done. done.
  - destruct (decide (d_id d = d_id r)) as [E|NE].
    + rewrite !filter_cons, !decide_False; [done | by rewrite E | done].
    + rewrite !filter_cons, IH. done.
Qed.

Lemma rows_with_id_absent i tbl : i ∉ d_id <$> tbl → rows_with_id i tbl = [].
Proof.
  unfold rows_with_id. induction tbl as [|d tbl IH]; [done|].
  cbn [fmap list_fmap]. rewrite not_elem_of_cons. intros [? ?].
  rewrite filter_cons, decide_False by done. by apply IH.
Qed.

(** After an upsert exactly one row carries the id: the row upserted. *)
Lemma upsert_row_self r tbl :
  pk_unique tbl → rows_with_id (d_id r) (upsert_row r tbl) = [r].
Proof.
  unfold pk_unique, rows_with_id.
  induction tbl as [|d tbl IH]; cbn [upsert_row]; intros Hpk.
  - by rewrite filter_cons, decide_True.
  - cbn [fmap list_fmap] in Hpk. apply NoDup_cons in Hpk as [Hd Hpk].
    destruct (decide (d_id d = d_id r)) as [E|NE].
    + rewrite filter_cons, decide_True by done. f_equal.
      apply rows_with_id_absent. by rewrite <- E.
    + rewrite filter_cons, decide_False by done. by apply IH.
Qed.

Lemma upsert_documents_pk tbl rows :
  pk_unique tbl → pk_unique (_upsert_documents tbl rows).
Proof.
  unfold _upsert_documents. revert tbl.
  induction rows as [|r rows IH]; intros tbl H; [done|].
  cbn [foldl]. apply IH. by apply upsert_row_pk.
Qed.

Lemma upsert_documents_snoc tbl rows r :
  _upsert_documents tbl (rows ++ [r]) = upsert_row r (_upsert_documents tbl rows).
Proof. unfold _upsert_documents. by rewrite foldl_app. Qed.

(** Last write wins: after a batch, the row of the id of its last record
    is that record. *)
Lemma upsert_documents_last tbl rows r :
  pk_unique tbl →
  rows_with_id (d_id r) (_upsert_documents tbl (rows ++ [r])) = [r].
Proof.
  intros H. rewrite upsert_documents_snoc.
  apply upsert_row_self. by apply upsert_documents_pk.
Qed.

Lemma upsert_documents_other tbl rows j :
  j ∉ d_id <$> rows →
  rows_with_id j (_upsert_documents tbl rows) = rows_with_id j tbl.
Proof.
  unfold _upsert_documents. revert tbl.
  induction rows as [|r rows IH]; intros tbl Hj; [done|].
  cbn [fmap list_fmap] in Hj. apply not_elem_of_cons in Hj as [? ?].
  cbn [foldl]. rewrite IH by done. by apply upsert_row_other.
Qed.

End UpsertFacts.
(** C1 (as the code has it). Idempotent upsert, last write wins: when two
    records carry the same id, upserting both, in either order, twice, in
    one batch or in two, leaves exactly one row with that id in a table
    that respects its primary key; the row is the record upserted last,
    with all its columns; rows of other ids are untouched and the key
    remains unique.  The later [updated_at] is the one stored when the
    records arrive in the order of their [updated_at]; nothing else
    compares time stamps. *)
Theorem upsert_idempotent_last_write_wins (tbl : table) (r1 r2 : document) :
  pk_unique tbl → d_id r1 = d_id r2 →
  rows_with_id (d_id r1) (Ingest._upsert_documents tbl [r1; r2]) = [r2] ∧
  rows_with_id (d_id r1) (Ingest._upsert_documents tbl [r2; r1]) = [r1] ∧
  rows_with_id (d_id r1) (Ingest._upsert_documents tbl [r1; r1]) = [r1] ∧
  rows_with_id (d_id r1)
    (Ingest._upsert_documents (Ingest._upsert_documents tbl [r1]) [r2]) = [r2] ∧
  Ingest._upsert_documents (Ingest._upsert_documents tbl [r1; r2]) [r1; r2]
    = Ingest._upsert_documents tbl [r1; r2] ∧
  pk_unique (Ingest._upsert_documents tbl [r1; r2]) ∧
  length (Ingest._upsert_documents tbl [r1; r2])
    = length (Ingest._upsert_documents tbl [r1]) ∧
  (∀ j, j ≠ d_id r1 →
        rows_with_id j (Ingest._upsert_documents tbl [r1; r2]) = rows_with_id j tbl) ∧
  (String.leb (d_updated_at r1) (d_updated_at r2) = true →
   d_updated_at <$> rows_with_id (d_id r1) (Ingest._upsert_documents tbl [r1; r2])
   = [d_updated_at r2]).
Proof.
  intros Hpk Hid.
  assert (rows_with_id (d_id r1) (Ingest._upsert_documents tbl [r1; r2]) = [r2]) as H12.
  { rewrite Hid. apply (UpsertFacts.upsert_documents_last tbl [r1] r2 Hpk). }
  split_and!.
  - done.
  - apply (UpsertFacts.upsert_documents_last tbl [r2] r1 Hpk).
  - apply (UpsertFacts.upsert_documents_last tbl [r1] r1 Hpk).
  - rewrite Hid. apply (UpsertFacts.upsert_documents_last _ [] r2).
    by apply UpsertFacts.upsert_documents_pk.
  - cbn. rewrite (UpsertFacts.upsert_row_overwrite r1 r2) by done.
    rewrite (UpsertFacts.upsert_row_overwrite r1 r1) by done.
    done.
  - by apply UpsertFacts.upsert_documents_pk.
  - cbn. rewrite (UpsertFacts.upsert_row_length r2), decide_True; [done|].
    rewrite <- Hid. apply UpsertFacts.upsert_row_elem.
  - intros j Hj. apply UpsertFacts.upsert_documents_other.
    cbn. rewrite !not_elem_of_cons, <- Hid. split_and!; try done. apply not_elem_of_nil.
  - intros _. by rewrite H12.
Qed.

Lemma upsert_idempotent_last_write_wins_witness :
  let r1 := {| d_id := "LEGIARTI000006797825"; d_source := "LEGI"; d_doctype := "article";
               d_path := "20250701-210000/legi/LEGIARTI000006797825.xml";
               d_updated_at := "20250701-210000"; d_sha256 := "a"; d_meta := empty_meta;
               d_content_xml := "<ARTICLE/>"; d_content_text := "" |} in
  let r2 := {| d_id := "LEGIARTI000006797825"; d_source := "LEGI"; d_doctype := "article";
               d_path := "20250713-140000/legi/LEGIARTI000006797825.xml";
               d_updated_at := "20250713-140000"; d_sha256 := "b"; d_meta := empty_meta;
               d_content_xml := "<ARTICLE>v2</ARTICLE>"; d_content_text := "v2" |} in
  rows_with_id "LEGIARTI000006797825" (Ingest._upsert_documents [] [r1; r2]) = [r2] ∧
  rows_with_id "LEGIARTI000006797825" (Ingest._upsert_documents [] [r2; r1]) = [r1].
Proof.
  intros r1 r2.
  pose proof (upsert_idempotent_last_write_wins [] r1 r2 (NoDup_nil_2 : pk_unique []) eq_refl)
    as (H12 & H21 & _).
  split; [exact H12 | exact H21].
Defined.

(** Against C1 as worded: the earlier record, upserted last, replaces the
    later one, so the later [updated_at] does not win in both orders. *)
Lemma upsert_later_updated_at_counterexample : ¬ Upsert.later_updated_at_wins.
Proof.
  intros H.
  pose (r_old := {| d_id := "LEGIARTI000006797825"; d_source := "LEGI";
                    d_doctype := "article";
                    d_path := "20250701-210000/legi/LEGIARTI000006797825.xml";
                    d_updated_at := "20250701-210000"; d_sha256 := "a";
                    d_meta := empty_meta;
                    d_content_xml := "<ARTICLE/>"; d_content_text := "" |}).
  pose (r_new := {| d_id := "LEGIARTI000006797825"; d_source := "LEGI";
                    d_doctype := "article";
                    d_path := "20250713-140000/legi/LEGIARTI000006797825.xml";
                    d_updated_at := "20250713-140000"; d_sha256 := "b";
                    d_meta := empty_meta;
                    d_content_xml := "<ARTICLE>v2</ARTICLE>"; d_content_text := "v2" |}).
  destruct (H [] r_old r_new (NoDup_nil_2 : pk_unique []) eq_refl eq_refl) as [_ H21].
  vm_compute in H21. discriminate H21.
Qed.
(** ** Suppression ([_delete_by_tokens]) *)
Module DeleteFacts.

Import Ingest Delete.

Lemma split_tokens_spec tokens :
  split_tokens tokens =
    (omap (Re.search_legi_id [5; 4; 3]) tokens,
     filter (λ t, Re.search_legi_id [5; 4; 3] t = None) tokens).
Proof.
  induction tokens as [|t tokens IH]; [done|].
  cbn [split_tokens]. rewrite IH. cbn [omap list_omap].
  rewrite filter_cons.
  destruct (Re.search_legi_id [5; 4; 3] t) as [i|] eqn:E.
  - by rewrite decide_False.
  - by rewrite decide_True.
Qed.

Lemma filter_partition_length {A} (w : A → bool) (l : list A) :
  length (filter (λ d, w d = true) l) + length (filter (λ d, w d = false) l) = length l.
Proof.
  induction l as [|x l IH]; [done|]. rewrite !filter_cons.
  destruct (w x) eqn:E.
  - rewrite decide_True, decide_False by done. cbn. lia.
  - rewrite decide_False, decide_True by done. cbn. lia.
Qed.

Lemma filter_all {A} (P : A → Prop) `{!∀ x, Decision (P x)} (l : list A) :
  (∀ x, P x) → filter P l = l.
Proof.
  intros HP. induction l as [|x l IH]; [done|].
  by rewrite filter_cons, decide_True, IH.
Qed.

Lemma sql_delete_count (w : document → bool) tbl :
  (sql_delete w tbl).2 = length tbl - length (sql_delete w tbl).1.
Proof. cbn. pose proof (filter_partition_length w tbl). lia. Qed.

Lemma fast_where_app source b1 b2 d :
  fast_where source (b1 ++ b2) d = fast_where source b1 d || fast_where source b2 d.
Proof.
  unfold fast_where. destruct (bool_decide (d_source d = source)); [|done].
  destruct (m_id (d_meta d)) as [i|]; [|done]. cbn.
  apply eq_true_iff_eq. rewrite orb_true_iff, !bool_decide_eq_true.
  apply elem_of_app.
Qed.


Lemma filter_fast_app source b1 b2 (tbl : table) :
  filter (λ d, fast_where source b2 d = false)
         (filter (λ d, fast_where source b1 d = false) tbl)
  = filter (λ d, fast_where source (b1 ++ b2) d = false) tbl.
Proof.
  rewrite list_filter_filter. apply list_filter_iff. intros d.
  rewrite fast_where_app, orb_false_iff. intuition.
Qed.

(** The deletes by batch amount to one delete by all the ids. *)
Lemma delete_batches_spec source bs tbl n :
  delete_batches source bs (tbl, n) =
    (filter (λ d, fast_where source (concat bs) d = false) tbl,
     n + (length tbl
          - length (filter (λ d, fast_where source (concat bs) d = false) tbl))).
Proof.
  unfold delete_batches. revert tbl n.
  induction bs as [|b bs IH]; intros tbl n.
  - cbn [foldl concat].
    rewrite filter_all.
    + f_equal. lia.
    + intros d. unfold fast_where.
      destruct (m_id (d_meta d)); [|by rewrite andb_false_r].
      rewrite (bool_decide_eq_false_2 (_ ∈ [])), andb_false_r;
        [done | apply not_elem_of_nil].
  - cbn [foldl concat]. cbn [sql_delete]. rewrite IH, filter_fast_app.
    f_equal.
    pose proof (filter_partition_length (fast_where source b) tbl).
    assert (length (filter (λ d, fast_where source (b ++ concat bs) d = false) tbl)
            ≤ length (filter (λ d, fast_where source b d = false) tbl)).
    { rewrite <- filter_fast_app. apply length_filter. }
    lia.
Qed.

Lemma batches_fuel_spec {A} n fuel (l : list A) :
  0 < n → length l ≤ fuel →
  concat (batches_fuel fuel n l) = l ∧
  Forall (λ b, 0 < length b ≤ n) (batches_fuel fuel n l).
Proof.
  intros Hn. revert l. induction fuel as [|fuel IH]; intros l Hl.
  - destruct l; [done | cbn in Hl; lia].
  - cbn [batches_fuel]. destruct l as [|x l]; [done|].
    destruct (IH (drop n (x :: l))) as [Hc Hf].
    { rewrite length_drop. cbn in *. lia. }
    split.
    + cbn [concat]. rewrite Hc. apply take_drop.
    + constructor; [|done]. rewrite length_take. cbn [length]. lia.
Qed.

(** [batches]: groups of at most [n] that make up the list. *)
Lemma batches_spec {A} n (l : list A) :
  0 < n →
  concat (batches n l) = l ∧ Forall (λ b, 0 < length b ≤ n) (batches n l).
Proof. intros Hn. by apply batches_fuel_spec. Qed.

Section WithLike.

Variable ilike : string → string → bool.
Variable meta_text : meta → string.

Lemma slow_where_nil source d : slow_where ilike meta_text source [] d = false.
Proof. unfold slow_where. cbn. apply andb_false_r. Qed.

Lemma fast_where_nil source d : fast_where source [] d = false.
Proof.
  unfold fast_where. destruct (m_id (d_meta d)); [|apply andb_false_r].
  rewrite (bool_decide_eq_false_2 (_ ∈ [])); [apply andb_false_r|].
  apply not_elem_of_nil.
Qed.

Lemma delete_by_tokens_spec tbl tokens source :
  _delete_by_tokens ilike meta_text tbl tokens source =
    (filter (λ d, deleted ilike meta_text tokens source d = false) tbl,
     length tbl - length (filter (λ d, deleted ilike meta_text tokens source d = false) tbl)).
Proof.
  assert (∀ w1 w2 : document → bool,
            filter (λ d, w2 d = false) (filter (λ d, w1 d = false) tbl)
            = filter (λ d, w1 d || w2 d = false) tbl) as Hff.
  { intros w1 w2. rewrite list_filter_filter. apply list_filter_iff.
    intros d. rewrite orb_false_iff. intuition. }
  unfold _delete_by_tokens, deleted, ids_of, slow_tokens.
  destruct tokens as [|t0 tokens'].
  { cbn [take omap list_omap fmap list_fmap filter list_filter].
    rewrite filter_all; [f_equal; lia|].
    intros d. by rewrite fast_where_nil, slow_where_nil. }
  set (tokens := t0 :: tokens').
  rewrite split_tokens_spec.
  set (ids := omap (Re.search_legi_id [5; 4; 3]) (take 5000 tokens)).
  set (slow := filter (λ t, Re.search_legi_id [5; 4; 3] t = None) (take 5000 tokens)).
  assert (match ids with
          | [] => (tbl, 0)
          | _ :: _ => delete_batches source (batches 1000 ids) (tbl, 0)
          end
          = (filter (λ d, fast_where source ids d = false) tbl,
             length tbl - length (filter (λ d, fast_where source ids d = false) tbl)))
    as ->.
  { destruct ids as [|i ids'] eqn:E.
    - rewrite filter_all; [f_equal; lia | apply fast_where_nil].
    - rewrite delete_batches_spec.
      destruct (batches_spec 1000 (i :: ids')) as [-> _]; [lia|]. done. }
  cbn [fst snd].
  destruct slow as [|s0 slow'] eqn:E.
  - cbn [fmap list_fmap]. f_equal.
    + apply list_filter_iff. intros d. by rewrite slow_where_nil, orb_false_r.
    + do 2 f_equal. apply list_filter_iff. intros d.
      by rewrite slow_where_nil, orb_false_r.
  - cbn [sql_delete]. rewrite Hff. f_equal.
    set (w2 := slow_where ilike meta_text source
                 ((λ t, "%" +:+ t +:+ "%") <$> s0 :: slow')).
    pose proof (filter_partition_length w2
                  (filter (λ d, fast_where source ids d = false) tbl)) as Hp.
    rewrite Hff in Hp.
    pose proof (length_filter (λ d, fast_where source ids d = false) tbl).
    lia.
Qed.


End WithLike.

End DeleteFacts.


(** ** [bytes.decode] *)
Module Utf8Facts.

Import Utf8.

Lemma U_FFFD_app x :
  U_FFFD +:+ x
  = String (ascii_of_nat 239) (String (ascii_of_nat 191) (String (ascii_of_nat 189) x)).
Proof. reflexivity. Qed.

Lemma U_FFFD_eq :
  U_FFFD
  = String (ascii_of_nat 239) (String (ascii_of_nat 191) (String (ascii_of_nat 189) "")).
Proof. reflexivity. Qed.

Ltac break_if :=
  match goal with
  | |- context [if ?b then _ else _] => destruct b eqn:?
  | H : context [if ?b then _ else _] |- _ => destruct b eqn:?
  end.

Ltac lead_is_239 :=
  repeat match goal with
  | H : String _ _ = String _ _ |- _ => injection H as ? ?; subst
  | H : String _ _ = EmptyString |- _ => discriminate H
  | H : EmptyString = String _ _ |- _ => discriminate H
  end;
  repeat match goal with
  | H : (nat_of_ascii (ascii_of_nat _) <? _) = _ |- _ => vm_compute in H
  | H : is_cont (ascii_of_nat _) = _ |- _ => vm_compute in H
  | H : second_ok (nat_of_ascii (ascii_of_nat _)) (ascii_of_nat _) = _ |- _ =>
      vm_compute in H
  end;
  try discriminate.

(** Well-formed data is decoded to itself, whatever the replacement. *)
Lemma decode_well_formed_bounded repl n :
  ∀ s, String.length s ≤ n → well_formed s = true → decode repl s = s.
Proof.
  induction n as [|n IH]; intros s Hn.
  { destruct s; [done | cbn in Hn; lia]. }
  destruct s as [|c s1]; [done|]. cbn [decode well_formed].
  cbn [String.length] in Hn.
  repeat break_if; try done.
  - intros H. f_equal. apply IH; [lia | done].
  - destruct s1 as [|c2 s2]; [done|]. cbn [String.length] in Hn.
    intros [Hc H]%andb_true_iff. rewrite Hc. do 2 f_equal. apply IH; [lia | done].
  - destruct s1 as [|c2 [|c3 s3]]; try done. cbn [String.length] in Hn.
    intros [[Hc2 Hc3]%andb_true_iff H]%andb_true_iff. rewrite Hc2, Hc3.
    do 3 f_equal. apply IH; [lia | done].
  - destruct s1 as [|c2 [|c3 [|c4 s4]]]; try done. cbn [String.length] in Hn.
    intros [[[Hc2 Hc3]%andb_true_iff Hc4]%andb_true_iff H]%andb_true_iff.
    rewrite Hc2, Hc3, Hc4. do 4 f_equal. apply IH; [lia | done].
Qed.

Lemma decode_well_formed repl s : well_formed s = true → decode repl s = s.
Proof. by apply (decode_well_formed_bounded repl (String.length s)). Qed.

(** Data that [errors="replace"] leaves as it is was well formed. *)
Lemma decode_replace_fixed_bounded n :
  ∀ s, String.length s ≤ n → decode U_FFFD s = s → well_formed s = true.
Proof.
  induction n as [|n IH]; intros s Hn.
  { destruct s; [done | cbn in Hn; lia]. }
  destruct s as [|c s1]; [done|]. cbn [decode well_formed].
  cbn [String.length] in Hn.
  destruct (nat_of_ascii c <? 128) eqn:H128.
  { intros [= H]. apply IH; [lia | done]. }
  destruct (nat_of_ascii c <? 194) eqn:H194.
  { rewrite U_FFFD_app. intros H. lead_is_239. }
  destruct (nat_of_ascii c <? 224) eqn:H224.
  { destruct s1 as [|c2 s2]; [rewrite U_FFFD_eq; intros H; lead_is_239|].
    cbn [String.length] in Hn.
    destruct (is_cont c2) eqn:Hc2.
    - intros [= H]. cbn [andb]. apply IH; [lia | done].
    - rewrite U_FFFD_app. intros H. lead_is_239. }
  destruct (nat_of_ascii c <? 240) eqn:H240.
  { destruct s1 as [|c2 s2]; [rewrite U_FFFD_eq; intros H; lead_is_239|].
    cbn [String.length] in Hn.
    destruct (second_ok (nat_of_ascii c) c2) eqn:Hc2.
    - destruct s2 as [|c3 s3]; [rewrite U_FFFD_eq; intros H; lead_is_239|].
      cbn [String.length] in Hn.
      destruct (is_cont c3) eqn:Hc3.
      + intros [= H]. cbn [andb]. apply IH; [lia | done].
      + rewrite U_FFFD_app. intros H. lead_is_239.
    - rewrite U_FFFD_app. intros H. lead_is_239. }
  destruct (nat_of_ascii c <? 245) eqn:H245.
  { destruct s1 as [|c2 s2]; [rewrite U_FFFD_eq; intros H; lead_is_239|].
    cbn [String.length] in Hn.
    destruct (second_ok (nat_of_ascii c) c2) eqn:Hc2.
    - destruct s2 as [|c3 s3]; [rewrite U_FFFD_eq; intros H; lead_is_239|].
      cbn [String.length] in Hn.
      destruct (is_cont c3) eqn:Hc3.
      + destruct s3 as [|c4 s4]; [rewrite U_FFFD_eq; intros H; lead_is_239|].
        cbn [String.length] in Hn.
        destruct (is_cont c4) eqn:Hc4.
        * intros [= H]. cbn [andb]. apply IH; [lia | done].
        * rewrite U_FFFD_app. intros H. lead_is_239.
      + rewrite U_FFFD_app. intros H. lead_is_239.
    - rewrite U_FFFD_app. intros H. lead_is_239. }
  rewrite U_FFFD_app. intros H. lead_is_239.
Qed.

(** [errors="replace"] keeps the bytes exactly when they are well-formed
    UTF-8. *)
Lemma decode_replace_fixed s : decode_replace s = s ↔ well_formed s = true.
Proof.
  unfold decode_replace. split.
  - by apply (decode_replace_fixed_bounded (String.length s)).
  - apply decode_well_formed.
Qed.

End Utf8Facts.
(** ** Entries whose XML does not parse *)
Module ParseFailureFacts.

Import Ingest ParseFailure.

Lemma guess_doctype_xml path_in_tar :
  PyStr.endswith (PyStr.lower path_in_tar) ".xml" = true →
  _guess_doctype path_in_tar ∈ ["article"; "texte"; "section"; "xml"].
Proof.
  intros H. unfold _guess_doctype. rewrite H.
  repeat match goal with
         | |- context [if ?b then _ else _] => destruct b
         end;
    repeat (first [by left | right]).
Qed.

Section WithLibraries.

Variable sha256_hexdigest : string → string.
Variable parse_xml : string → string → string + (string * meta).
Variable ilike : string → string → bool.
Variable meta_text : meta → string.

Lemma make_row_parse_error source updated_at path_in_tar doctype data e :
  parse_xml data path_in_tar = inl e →
  make_row sha256_hexdigest parse_xml source updated_at path_in_tar doctype data
  = {| d_id := _doc_id sha256_hexdigest source path_in_tar None;
       d_source := source; d_doctype := doctype; d_path := path_in_tar;
       d_updated_at := updated_at; d_sha256 := sha256_hexdigest data;
       d_meta := meta_set_source (parse_error_record e).2 source;
       d_content_xml := Utf8.decode_replace data;
       d_content_text := "" |}.
Proof.
  intros H. unfold make_row, _extract_text_and_meta_from_xml. rewrite H.
  reflexivity.
Qed.

(** An entry whose name ends in [.xml] is queued, and the queue is
    flushed when it reaches [batch_size]. *)
Lemma ingest_member_xml source updated_at batch_size st m data :
  mb_isfile m = true → mb_data m = Some data →
  PyStr.endswith (PyStr.lower (mb_name m)) ".xml" = true →
  let row := make_row sha256_hexdigest parse_xml source updated_at (mb_name m)
               (_guess_doctype (mb_name m)) data in
  let queued :=
    {| st_tbl := st_tbl st; st_pending := st_pending st ++ [row];
       st_files_seen := st_files_seen st + 1;
       st_do_inserts := st_do_inserts st; st_do_deletes := st_do_deletes st |} in
  ingest_member sha256_hexdigest parse_xml ilike meta_text
    source updated_at batch_size st m
  = if batch_size <=? length (st_pending st ++ [row])
    then flush queued else queued.
Proof.
  intros Hf Hd Hx row queued. unfold ingest_member. rewrite Hf, Hd. cbn [negb].
  pose proof (guess_doctype_xml _ Hx) as Hg.
  assert (String.eqb (_guess_doctype (mb_name m)) "suppression_list" = false) as ->.
  { apply String.eqb_neq. intros E. rewrite E in Hg.
    repeat (apply elem_of_cons in Hg as [Hg|Hg]; [discriminate Hg|]).
    by apply elem_of_nil in Hg. }
  rewrite bool_decide_eq_true_2 by done. rewrite Hx. reflexivity.
Qed.

End WithLibraries.

End ParseFailureFacts.
(** ** Assembly in memory ([build_node_from_memory]) *)
Module AssemblyFacts.

Import Trees Assembly.

Lemma forest_height_app l1 l2 :
  forest_height (l1 ++ l2) = max (forest_height l1) (forest_height l2).
Proof.
  unfold forest_height. induction l1 as [|c l1 IH]; [done|].
  cbn [app foldr]. rewrite IH. lia.
Qed.

Lemma forest_height_le l h :
  Forall (λ c, node_height c ≤ h) l → forest_height l ≤ h.
Proof.
  unfold forest_height. induction 1 as [|c l Hc _ IH]; cbn [foldr]; lia.
Qed.

Lemma node_height_eq n :
  node_height n = S (match n_children n with
                     | Some l => forest_height l
                     | None => 0
                     end).
Proof. by destruct n. Qed.

(** *** The loop on the articles *)

Lemma filter_articles_spec arts acc :
  length acc < article_cap →
  filter_articles arts acc =
    acc ++ take (article_cap - length acc)
                (to_article <$> filter (λ a, en_vigueur a = true) arts).
Proof.
  revert acc. induction arts as [|art arts IH]; intros acc Hacc.
  - cbn. by rewrite take_nil, app_nil_r.
  - cbn [filter_articles]. rewrite filter_cons.
    destruct (en_vigueur art) eqn:E.
    + rewrite decide_True by done. cbn [fmap list_fmap].
      destruct (article_cap <=? length (acc ++ [to_article art])) eqn:Hcap.
      * apply Nat.leb_le in Hcap. rewrite length_app in Hcap. cbn in Hcap.
        replace (article_cap - length acc) with 1 by lia. cbn. by rewrite take_0.
      * apply Nat.leb_gt in Hcap. rewrite IH by done.
        rewrite length_app in *. cbn [length] in *.
        replace (article_cap - length acc) with (S (article_cap - (length acc + 1))) by lia.
        cbn [take]. by rewrite <- app_assoc.
    + rewrite decide_False by done. by apply IH.
Qed.

Lemma filter_articles_take arts :
  filter_articles arts [] =
    take article_cap (to_article <$> filter (λ a, en_vigueur a = true) arts).
Proof.
  rewrite filter_articles_spec by (cbn [length]; unfold article_cap; lia).
  cbn [app length]. by rewrite Nat.sub_0_r.
Qed.

(** *** The loop on the child sections *)

Lemma for_children_spec build sss acc res :
  for_children build sss acc = Ok res →
  ∃ picked,
    res = acc ++ picked ∧
    Forall (λ c, ∃ ss i, ss ∈ sss ∧ en_vigueur ss = true ∧
                         ss !! "id" = Some i ∧ build i = Ok (Some c)) picked.
Proof.
  revert acc. induction sss as [|ss sss IH]; intros acc; cbn [for_children].
  - intros [= <-]. exists []. by rewrite app_nil_r.
  - assert (∀ acc', for_children build sss acc' = Ok res →
              ∃ picked, res = acc' ++ picked ∧
                Forall (λ c, ∃ ss0 i, ss0 ∈ ss :: sss ∧ en_vigueur ss0 = true ∧
                             ss0 !! "id" = Some i ∧ build i = Ok (Some c)) picked) as IH'.
    { intros acc' H. destruct (IH _ H) as (picked & -> & Hp). exists picked.
      split; [done|]. eapply Forall_impl; [exact Hp|].
      intros c (ss0 & i & ? & ?). exists ss0, i. split; [by right | done]. }
    destruct (en_vigueur ss) eqn:E; [|apply IH'].
    destruct (ss !! "id") as [i|] eqn:Hi; [|done].
    destruct (build i) as [[c|]| |] eqn:Hb; try done; [|apply IH'].
    intros H. destruct (IH' _ H) as (picked & -> & Hp).
    exists (c :: picked). split; [by rewrite <- app_assoc|].
    constructor; [|done]. exists ss, i. split; [by left | done].
Qed.

Lemma for_children_ext build1 build2 sss acc :
  (∀ i, build1 i = build2 i) →
  for_children build1 sss acc = for_children build2 sss acc.
Proof.
  intros H. revert acc. induction sss as [|ss sss IH]; intros acc; [done|].
  cbn [for_children]. destruct (en_vigueur ss); [|done].
  destruct (ss !! "id") as [i|]; [|done]. rewrite H.
  destruct (build2 i) as [[c|]| |]; done.
Qed.

Lemma for_children_no_recursion_error build sss acc :
  (∀ i, build i ≠ RecursionError) → for_children build sss acc ≠ RecursionError.
Proof.
  intros H. revert acc. induction sss as [|ss sss IH]; intros acc; [done|].
  cbn [for_children]. destruct (en_vigueur ss); [|done].
  destruct (ss !! "id") as [i|]; [|done].
  specialize (H i). destruct (build i) as [[c|]| |]; done.
Qed.

(** With references that all carry an id, the loop raises only if a
    recursive call does. *)
Lemma for_children_ok build sss acc :
  Forall (λ ss, is_Some (ss !! "id")) sss →
  (∀ i, ∃ r, build i = Ok r) →
  ∃ res, for_children build sss acc = Ok res.
Proof.
  intros Hid Hb. revert acc.
  induction Hid as [|ss sss [i Hi] _ IH]; intros acc; cbn [for_children]; [by eexists|].
  destruct (en_vigueur ss); [|done]. rewrite Hi.
  destruct (Hb i) as [[c|] ->]; done.
Qed.

Lemma for_roots_spec build ids acc res :
  for_roots build ids acc = Ok res →
  ∃ picked,
    res = acc ++ picked ∧
    Forall (λ c, ∃ i, i ∈ ids ∧ build i = Ok (Some c)) picked.
Proof.
  revert acc. induction ids as [|i ids IH]; intros acc; cbn [for_roots].
  - intros [= <-]. exists []. by rewrite app_nil_r.
  - assert (∀ acc', for_roots build ids acc' = Ok res →
              ∃ picked, res = acc' ++ picked ∧
                Forall (λ c, ∃ j, j ∈ i :: ids ∧ build j = Ok (Some c)) picked) as IH'.
    { intros acc' H. destruct (IH _ H) as (picked & -> & Hp). exists picked.
      split; [done|]. eapply Forall_impl; [exact Hp|].
      intros c (j & ? & ?). exists j. split; [by right | done]. }
    destruct (build i) as [[c|]| |] eqn:Hb; try done; [|apply IH'].
    intros H. destruct (IH' _ H) as (picked & -> & Hp).
    exists (c :: picked). split; [by rewrite <- app_assoc|].
    constructor; [|done]. exists i. split; [by left | done].
Qed.

(** *** One call of [build_node_from_memory] *)

Lemma nonempty_Some {A} (l l' : list A) : nonempty l = Some l' → l' = l ∧ l ≠ [].
Proof. destruct l; [done|]. by intros [= <-]. Qed.

Lemma articles_of_section section :
  match s_articles section with
  | Some ((_ :: _) as arts) => nonempty (filter_articles arts [])
  | _ => None
  end
  = nonempty (take article_cap
                (to_article <$> filter (λ a, en_vigueur a = true)
                                       (default [] (s_articles section)))).
Proof.
  destruct (s_articles section) as [[|a arts]|]; cbn [default]; try done.
  by rewrite filter_articles_take.
Qed.

(** What a call that returns a node has done. *)
Lemma build_node_rec_Some fuel all_sections section_id cd md n :
  build_node_rec (S fuel) all_sections section_id cd md = Ok (Some n) →
  cd ≤ md ∧
  ∃ section,
    all_sections !! section_id = Some section ∧
    n_id n = s_id section ∧
    n_articles n =
      nonempty (take article_cap
                  (to_article <$> filter (λ a, en_vigueur a = true)
                                         (default [] (s_articles section)))) ∧
    ∀ l, n_children n = Some l →
         l ≠ [] ∧ cd < md ∧
         Forall (λ c, ∃ ss i,
                   ss ∈ default [] (s_sous_sections section) ∧
                   en_vigueur ss = true ∧ ss !! "id" = Some i ∧
                   build_node_rec fuel all_sections i (cd + 1) md = Ok (Some c)) l.
Proof.
  cbn [build_node_rec].
  destruct (md <? cd) eqn:Hd; [done|]. apply Nat.ltb_ge in Hd.
  destruct (all_sections !! section_id) as [section|] eqn:Hs; [|done].
  rewrite articles_of_section.
  intros H. split; [done|]. exists section. split; [done|].
  destruct (s_sous_sections section) as [[|ss0 sss]|] eqn:Hss;
    try (injection H as <-; cbn; split_and!; done).
  destruct (cd <? md) eqn:Hlt;
    [|injection H as <-; cbn; split_and!; done].
  apply Nat.ltb_lt in Hlt.
  destruct (for_children _ (ss0 :: sss) []) as [children| |] eqn:Hc; try done.
  injection H as <-. cbn [n_id n_articles n_children]. split_and!; try done.
  intros l Hl. apply nonempty_Some in Hl as [-> Hne].
  split_and!; try done.
  destruct (for_children_spec _ _ _ _ Hc) as (picked & -> & Hp).
  cbn [app default]. done.
Qed.

Lemma build_node_rec_no_recursion_error fuel all_sections section_id cd md :
  md - cd < fuel →
  build_node_rec fuel all_sections section_id cd md ≠ RecursionError.
Proof.
  revert section_id cd. induction fuel as [|fuel IH]; intros section_id cd Hf; [lia|].
  cbn [build_node_rec].
  destruct (md <? cd) eqn:Hd; [done|].
  destruct (all_sections !! section_id) as [section|]; [|done].
  destruct (s_sous_sections section) as [[|ss0 sss]|]; try done.
  destruct (cd <? md) eqn:Hlt; [|done]. apply Nat.ltb_lt in Hlt.
  pose proof (for_children_no_recursion_error
                (λ i, build_node_rec fuel all_sections i (cd + 1) md)
                (ss0 :: sss) []) as Hno.
  destruct (for_children _ (ss0 :: sss) []); try done.
  exfalso. apply Hno; [|done]. intros i. apply IH. lia.
Qed.

(** More fuel than the depth left changes nothing. *)
Lemma build_node_rec_fuel fuel1 fuel2 all_sections section_id cd md :
  md - cd < fuel1 → md - cd < fuel2 →
  build_node_rec fuel1 all_sections section_id cd md
  = build_node_rec fuel2 all_sections section_id cd md.
Proof.
  revert fuel2 section_id cd.
  induction fuel1 as [|fuel1 IH]; intros fuel2 section_id cd H1 H2; [lia|].
  destruct fuel2 as [|fuel2]; [lia|].
  cbn [build_node_rec].
  destruct (md <? cd) eqn:Hd; [done|].
  destruct (all_sections !! section_id) as [section|]; [|done].
  destruct (s_sous_sections section) as [[|ss0 sss]|]; try done.
  destruct (cd <? md) eqn:Hlt; [|done]. apply Nat.ltb_lt in Hlt.
  rewrite (for_children_ext
             (λ i, build_node_rec fuel1 all_sections i (cd + 1) md)
             (λ i, build_node_rec fuel2 all_sections i (cd + 1) md)); [done|].
  intros i. apply IH; lia.
Qed.

(** No node of the tree lies deeper than [max_depth]. *)
Lemma build_node_rec_height fuel all_sections section_id cd md n :
  build_node_rec fuel all_sections section_id cd md = Ok (Some n) →
  cd + node_height n ≤ S md.
Proof.
  revert section_id cd n.
  induction fuel as [|fuel IH]; intros section_id cd n H; [done|].
  apply build_node_rec_Some in H as (Hcd & section & _ & _ & _ & Hch).
  rewrite node_height_eq. destruct (n_children n) as [l|]; [|lia].
  destruct (Hch l eq_refl) as (_ & Hlt & Hall).
  assert (forest_height l ≤ md - cd); [|lia].
  apply forest_height_le. eapply Forall_impl; [exact Hall|].
  intros c (ss & i & _ & _ & _ & Hc). apply IH in Hc. lia.
Qed.

Lemma build_node_rec_valid fuel all_sections section_id cd md n :
  build_node_rec fuel all_sections section_id cd md = Ok (Some n) →
  tree_valid all_sections n.
Proof.
  revert section_id cd n.
  induction fuel as [|fuel IH]; intros section_id cd n H; [done|].
  apply build_node_rec_Some in H as (Hcd & section & Hs & Hid & Ha & Hch).
  apply (tree_valid_node _ n section_id section); try done.
  intros l Hl. destruct (Hch l Hl) as (Hne & _ & Hall). split; [done|].
  eapply Forall_impl; [exact Hall|].
  intros c (ss & i & Hin & Hv & Hi & Hc). split; [by eapply IH|].
  pose proof Hc as Hc'.
  destruct fuel as [|fuel']; [done|].
  apply build_node_rec_Some in Hc' as (_ & csec & Hcs & Hcid & _).
  by exists ss, i, csec.
Qed.

Lemma build_node_rec_ok fuel all_sections section_id cd md :
  refs_have_id all_sections → md - cd < fuel →
  ∃ r, build_node_rec fuel all_sections section_id cd md = Ok r.
Proof.
  intros Hrefs. revert section_id cd.
  induction fuel as [|fuel IH]; intros section_id cd Hf; [lia|].
  cbn [build_node_rec].
  destruct (md <? cd) eqn:Hd; [by eexists|].
  destruct (all_sections !! section_id) as [section|] eqn:Hs; [|by eexists].
  pose proof (Hrefs _ _ Hs) as Hids.
  destruct (s_sous_sections section) as [[|ss0 sss]|]; try by eexists.
  destruct (cd <? md) eqn:Hlt; [|by eexists]. apply Nat.ltb_lt in Hlt.
  destruct (for_children_ok
              (λ i, build_node_rec fuel all_sections i (cd + 1) md)
              (ss0 :: sss) [] Hids) as [res ->]; [|by eexists].
  intros i. apply IH. lia.
Qed.

(** At the depth bound the child references are not read. *)
Lemma build_node_at_bound all_sections section_id md :
  match all_sections !! section_id with
  | None => build_node_from_memory all_sections section_id md md = Ok None
  | Some section =>
      ∃ n, build_node_from_memory all_sections section_id md md = Ok (Some n) ∧
           n_id n = s_id section ∧ n_children n = None
  end.
Proof.
  unfold build_node_from_memory. rewrite Nat.sub_diag. cbn [build_node_rec].
  rewrite Nat.ltb_irrefl.
  destruct (all_sections !! section_id) as [section|]; [|done].
  destruct (s_sous_sections section) as [[|ss0 sss]|]; by eexists.
Qed.

Lemma build_node_beyond_bound all_sections section_id cd md :
  md < cd → build_node_from_memory all_sections section_id cd md = Ok None.
Proof.
  intros H. unfold build_node_from_memory. cbn [build_node_rec].
  apply Nat.ltb_lt in H. by rewrite H.
Qed.

(** The nodes of the payload are what [build_node_from_memory] returns
    for root ids, at depth 1. *)
Lemma build_tree_nodes tbl code_id p qs :
  build_tree_optimized tbl code_id = (Ok (Some p), qs) →
  Forall (λ n, ∃ i, build_node_from_memory (loaded tbl code_id) i 1 max_depth
                    = Ok (Some n)) (p_tree p).
Proof.
  unfold build_tree_optimized, loaded.
  generalize (wave_loop max_waves tbl (after_roots tbl code_id)). intros st.
  generalize (s_id <$> select_roots tbl code_id). intros root_ids.
  destruct (select_code tbl code_id) as [[titre_code nature]|]; [|done].
  destruct (for_roots _ root_ids []) as [tree| |] eqn:Hr; try done.
  intros H. apply (f_equal fst) in H. cbn [fst] in H.
  injection H as <-. cbn [p_tree].
  destruct (for_roots_spec _ _ _ _ Hr) as (picked & -> & Hp). cbn [app].
  eapply Forall_impl; [exact Hp|]. intros c (i & _ & Hc). by exists i.
Qed.

Lemma build_tree_no_recursion_error tbl code_id :
  (build_tree_optimized tbl code_id).1 ≠ RecursionError.
Proof.
  unfold build_tree_optimized.
  generalize (wave_loop max_waves tbl (after_roots tbl code_id)). intros st.
  generalize (s_id <$> select_roots tbl code_id). intros root_ids.
  destruct (select_code tbl code_id) as [[titre_code nature]|]; [|done].
  cbn [fst].
  set (build := λ i, build_node_from_memory _ i 1 max_depth).
  assert (∀ ids acc, for_roots build ids acc ≠ RecursionError) as H.
  { induction ids as [|i ids IH]; intros acc; [done|]. cbn [for_roots].
    pose proof (build_node_rec_no_recursion_error
                  (S (max_depth - 1)) (all_sections st) i 1 max_depth) as Hno.
    destruct (build i) as [[c|]| |] eqn:Hb; try done.
    exfalso. apply Hno; [lia | exact Hb]. }
  specialize (H root_ids []).
  by destruct (for_roots build root_ids []).
Qed.

(** A section that refers to itself: the cycle is unrolled down to the
    depth bound. *)
Lemma self_loop_unrolled all_sections a section ss fuel cd md :
  all_sections !! a = Some section →
  s_sous_sections section = Some [ss] →
  en_vigueur ss = true → ss !! "id" = Some a →
  md - cd < fuel → (cd ≤ md) →
  ∃ n, build_node_rec fuel all_sections a cd md = Ok (Some n) ∧
       n_id n = s_id section ∧
       node_height n = S (md - cd) ∧
       (cd < md → ∃ c, n_children n = Some [c] ∧ n_id c = s_id section).
Proof.
  intros Ha Hss Hv Hi. revert cd.
  induction fuel as [|fuel IH]; intros cd Hf Hcd; [lia|].
  cbn [build_node_rec].
  assert ((md <? cd) = false) as -> by (apply Nat.ltb_ge; lia).
  rewrite Ha, Hss.
  destruct (cd <? md) eqn:Hlt.
  - apply Nat.ltb_lt in Hlt. cbn [for_children]. rewrite Hv, Hi.
    destruct (IH (cd + 1)) as (c & -> & Hcid & Hch & _); [lia | lia |].
    cbn [app nonempty]. eexists. split; [done|].
    cbn [n_id n_children]. split_and!; [done | | by eauto].
    rewrite node_height_eq. cbn [n_children forest_height foldr]. rewrite Hch. lia.
  - apply Nat.ltb_ge in Hlt. eexists. split; [done|].
    cbn [n_id n_children]. split_and!; [done | | lia].
    rewrite node_height_eq. cbn [n_children]. lia.
Qed.

End AssemblyFacts.
(** ** The queries ([SELECT DISTINCT ON ... ORDER BY ...]) *)
Module QueriesFacts.

Import Trees Queries.

Lemma string_compare_refl s : String.compare s s = Eq.
Proof.
  induction s as [|c s IH]; [done|]. cbn [String.compare].
  unfold Ascii.compare. by rewrite N.compare_refl.
Qed.

Lemma string_le_compare x y : String.le x y ↔ String.compare x y ≠ Gt.
Proof.
  unfold String.le, String.leb. destruct (String.compare x y); cbn; naive_solver.
Qed.

Lemma id_compare_refl a : id_compare a a = Eq.
Proof. destruct a; [apply string_compare_refl | done]. Qed.

Lemma id_compare_Eq a b : id_compare a b = Eq ↔ a = b.
Proof.
  split; [|intros ->; apply id_compare_refl].
  destruct a, b; cbn; try done. by intros ->%String.compare_eq_iff.
Qed.

Lemma id_compare_le a b : id_compare a b ≠ Gt ↔ id_le a b.
Proof.
  destruct a as [x|], b as [y|]; cbn; try done.
  symmetry. apply string_le_compare.
Qed.

Lemma id_compare_antisym a b : id_compare a b = CompOpp (id_compare b a).
Proof. destruct a, b; cbn; try done. apply String.compare_antisym. Qed.

#[global] Instance id_le_po : PartialOrder id_le.
Proof.
  split; [split|].
  - intros [x|]; cbn; [reflexivity | done].
  - intros [x|] [y|] [z|]; cbn; try done. apply transitivity.
  - intros [x|] [y|]; cbn; try done. intros ??. f_equal. by apply (anti_symm String.le).
Qed.

#[global] Instance id_le_total : Total id_le.
Proof. intros [x|] [y|]; cbn; auto. apply (total String.le). Qed.

Lemma id_compare_Lt a b : id_compare a b = Lt ↔ id_le a b ∧ a ≠ b.
Proof.
  rewrite <- id_compare_le, <- id_compare_Eq.
  destruct (id_compare a b); naive_solver.
Qed.

Lemma id_compare_Gt a b : id_compare a b = Gt ↔ id_le b a ∧ a ≠ b.
Proof.
  rewrite id_compare_antisym.
  destruct (id_compare b a) eqn:E; cbn.
  - apply id_compare_Eq in E as ->. naive_solver.
  - apply id_compare_Lt in E. naive_solver.
  - split; [done|]. intros [H%id_compare_le _]. done.
Qed.

(** [order_by]: smaller id first; within an id, greater date first. *)
Lemma order_by_iff a b :
  order_by a b ↔
    (id_le (meta_id a) (meta_id b) ∧ meta_id a ≠ meta_id b)
    ∨ (meta_id a = meta_id b ∧ String.le (date_rank b) (date_rank a)).
Proof.
  unfold order_by, order_by_leb.
  destruct (id_compare (meta_id a) (meta_id b)) eqn:E.
  - apply id_compare_Eq in E. unfold String.le. rewrite Is_true_true. naive_solver.
  - apply id_compare_Lt in E. naive_solver.
  - apply id_compare_Gt in E as [H1 H2]. split; [done|].
    intros [[H3 H4] | [H3 _]]; [|done].
    exfalso. apply H4. by apply (anti_symm id_le).
Qed.

#[global] Instance order_by_total : Total order_by.
Proof.
  intros a b. rewrite !order_by_iff.
  destruct (decide (meta_id a = meta_id b)) as [E|NE].
  - destruct (total String.le (date_rank b) (date_rank a)); [left | right]; right; done.
  - destruct (total id_le (meta_id a) (meta_id b)); [left | right]; left; done.
Qed.

#[global] Instance order_by_trans : Transitive order_by.
Proof.
  intros a b c. rewrite !order_by_iff.
  intros [[H1 H2] | [H1 H2]] [[H3 H4] | [H3 H4]].
  - left. split; [by etrans|]. intros E. rewrite <- E in H3.
    apply H2. by apply (anti_symm id_le).
  - left. rewrite <- H3. done.
  - left. rewrite H1. done.
  - right. split; [congruence | by etrans].
Qed.

(** *** [DISTINCT ON] *)

Lemma distinct_on_id_subseteq prev rows r :
  r ∈ distinct_on_id prev rows → r ∈ rows.
Proof.
  revert prev. induction rows as [|d rows IH]; intros prev; cbn [distinct_on_id]; [done|].
  destruct (decide (prev = Some (meta_id d))).
  - intros H. right. by eapply IH.
  - intros [->|H]%elem_of_cons; [by left | right; by eapply IH].
Qed.

(** On ordered rows whose ids do not come before [prev]: one row per id,
    none with the id [prev], and every row has its representative, of
    the same id and of a date that is not smaller. *)
Lemma distinct_on_id_sorted prev rows :
  StronglySorted order_by rows →
  (∀ p d, prev = Some p → d ∈ rows → id_le p (meta_id d)) →
  let out := distinct_on_id prev rows in
  (∀ r, r ∈ out → Some (meta_id r) ≠ prev) ∧
  NoDup (meta_id <$> out) ∧
  (∀ d, d ∈ rows → Some (meta_id d) ≠ prev →
        ∃ r, r ∈ out ∧ meta_id r = meta_id d ∧
             String.le (date_rank d) (date_rank r)).
Proof.
  intros Hs. revert prev.
  induction Hs as [|d rows Hs IH Hd]; intros prev Hprev; cbn [distinct_on_id].
  { split_and!; [by intros ? ?%elem_of_nil | constructor | by intros ? ?%elem_of_nil]. }
  assert (∀ d', d' ∈ rows → id_le (meta_id d) (meta_id d')) as Hle.
  { intros d' Hd'. rewrite Forall_forall in Hd. specialize (Hd d' Hd').
    apply order_by_iff in Hd as [[? _] | [-> _]]; [done | reflexivity]. }
  destruct (decide (prev = Some (meta_id d))) as [E|NE].
  - destruct (IH prev) as (Ha & Hb & Hc).
    { intros p d' ? ?. eapply Hprev; [done | by right]. }
    split_and!; [done | done |].
    intros d' [->|Hd']%elem_of_cons Hne; [done | by apply Hc].
  - destruct (IH (Some (meta_id d))) as (Ha & Hb & Hc).
    { intros p d' [= <-] ?. by apply Hle. }
    split_and!.
    + intros r [->|Hr]%elem_of_cons; [done|].
      intros E. destruct prev as [p|]; [|done]. injection E as E.
      assert (id_le p (meta_id d)) as H1 by (eapply Hprev; [done | by left]).
      assert (id_le (meta_id d) (meta_id r)) as H2.
      { apply Hle. by eapply distinct_on_id_subseteq. }
      rewrite E in H2. apply NE. f_equal. by apply (anti_symm id_le).
    + cbn [fmap list_fmap]. constructor; [|done].
      intros (r & Hr1 & Hr2)%list_elem_of_fmap.
      apply (Ha r Hr2). by rewrite Hr1.
    + intros d' [->|Hd']%elem_of_cons Hne.
      * exists d. split_and!; [by left | done | reflexivity].
      * destruct (decide (meta_id d' = meta_id d)) as [E|NE'].
        -- exists d. split_and!; [by left | done |].
           rewrite Forall_forall in Hd. specialize (Hd d' Hd').
           apply order_by_iff in Hd as [[_ ?] | [_ ?]]; [congruence | done].
        -- destruct (Hc d' Hd') as (r & ? & ? & ?); [congruence|].
           exists r. split_and!; [by right | done | done].
Qed.

(** What a query keeps: one row per id, taken from the rows that match,
    and for every matching row a kept row of the same id whose date is
    not smaller. *)
Lemma select_latest_spec (w : document → bool) (tbl : table) :
  NoDup (meta_id <$> select_latest w tbl) ∧
  (∀ r, r ∈ select_latest w tbl → r ∈ tbl ∧ w r = true) ∧
  (∀ d, d ∈ tbl → w d = true →
        ∃ r, r ∈ select_latest w tbl ∧ meta_id r = meta_id d ∧
             String.le (date_rank d) (date_rank r)).
Proof.
  unfold select_latest.
  set (matching := filter (λ d, w d = true) tbl).
  destruct (distinct_on_id_sorted None (merge_sort order_by matching))
    as (_ & Hb & Hc); [apply StronglySorted_merge_sort; apply _ | done |].
  split_and!.
  - done.
  - intros r Hr%distinct_on_id_subseteq.
    rewrite merge_sort_Permutation in Hr.
    apply list_elem_of_filter in Hr as [? ?]. done.
  - intros d Hd Hw. apply Hc; [|done].
    rewrite merge_sort_Permutation. apply list_elem_of_filter. done.
Qed.

End QueriesFacts.
(** ** Loading by waves ([build_tree_optimized]) *)
Module WavesFacts.

Import Trees Queries QueriesFacts Waves.

(** *** Dictionaries of rows *)

Lemma rows_to_dict_lookup rows k s :
  rows_to_dict rows !! k = Some s → s ∈ rows ∧ s_id s = k.
Proof.
  unfold rows_to_dict.
  assert (∀ m0 : gmap (option string) section_row,
            foldl (λ m r, <[s_id r := r]> m) m0 rows !! k = Some s →
                (s ∈ rows ∧ s_id s = k) ∨ m0 !! k = Some s) as H.
  { induction rows as [|r rows IH]; intros m0; cbn [foldl]; [by right|].
    intros [[? ?] | Hm]%IH; [left; split; [by right | done]|].
    destruct (decide (s_id r = k)) as [<-|NE].
    - rewrite lookup_insert_eq in Hm. injection Hm as <-. left. split; [by left | done].
    - rewrite lookup_insert_ne in Hm by done. by right. }
  intros [?|Hm]%H; [done|]. by rewrite lookup_empty in Hm.
Qed.

Lemma rows_to_dict_keys rows : keys_are_ids (rows_to_dict rows).
Proof. intros k s H. by apply rows_to_dict_lookup in H as [_ ?]. Qed.

Lemma keys_are_ids_union m1 m2 :
  keys_are_ids m1 → keys_are_ids m2 → keys_are_ids (m1 ∪ m2).
Proof.
  intros H1 H2 k s [?|[_ ?]]%lookup_union_Some_raw; [by apply H1 | by apply H2].
Qed.

Lemma map_values_lookup (m : gmap (option string) section_row) s :
  s ∈ (map_to_list m).*2 → ∃ k, m !! k = Some s.
Proof.
  intros ([k s'] & -> & H)%list_elem_of_fmap. exists k.
  by apply elem_of_map_to_list in H.
Qed.

(** *** The child ids collected *)

Lemma child_ids_elem refs x :
  x ∈ child_ids refs ↔
  truthy x = true ∧ ∃ ss, ss ∈ default [] refs ∧ dict_get ss "id" = x.
Proof.
  unfold child_ids. rewrite list_elem_of_In, filter_In, <- list_elem_of_In.
  rewrite list_elem_of_fmap. naive_solver.
Qed.

Lemma add_child_ids_elem loaded section seen x :
  x ∈ add_child_ids loaded section seen →
  x ∈ seen ∨ ((x ∉ loaded) ∧ x ∈ child_ids (s_sous_sections section)).
Proof.
  unfold add_child_ids. rewrite child_ids_elem.
  destruct (s_sous_sections section) as [sss|]; [|by left]. cbn [default].
  revert seen. induction sss as [|ss sss IH]; intros seen; cbn [foldl]; [by left|].
  intros [H | (? & ? & ss' & ? & ?)]%IH.
  - destruct (truthy (dict_get ss "id")) eqn:Ht; [|by left].
    destruct (bool_decide (dict_get ss "id" ∉ loaded)) eqn:Hl; [|by left].
    destruct (bool_decide (dict_get ss "id" ∉ seen)) eqn:Hs; [|by left].
    cbn [andb] in H. apply elem_of_union in H as [->%elem_of_singleton | ?]; [|by left].
    right. apply bool_decide_eq_true in Hl. split_and!; try done.
    exists ss. split; [by left | done].
  - right. split_and!; try done. exists ss'. split; [by right | done].
Qed.

Lemma fold_add_child_ids_elem loaded sections seen x :
  x ∈ foldl (λ acc section, add_child_ids loaded section acc) seen sections →
  x ∈ seen ∨ ∃ section, section ∈ sections ∧ (x ∉ loaded) ∧
                        x ∈ child_ids (s_sous_sections section).
Proof.
  revert seen. induction sections as [|s sections IH]; intros seen; cbn [foldl];
    [by left|].
  intros [[?|[? ?]]%add_child_ids_elem | (s' & ? & ? & ?)]%IH.
  - by left.
  - right. exists s. split; [by left | done].
  - right. exists s'. split; [by right | done].
Qed.

(** *** The rows a query returns *)

Lemma select_roots_elem tbl code_id s :
  s ∈ select_roots tbl code_id →
  ∃ d, d ∈ tbl ∧ roots_where code_id d = true ∧ s = to_section_row d.
Proof.
  intros (d & -> & Hd)%list_elem_of_fmap.
  destruct (select_latest_spec (roots_where code_id) tbl) as (_ & H & _).
  destruct (H d Hd). by exists d.
Qed.

Lemma select_wave_elem tbl ids_list s :
  s ∈ select_wave tbl ids_list →
  ∃ d, d ∈ tbl ∧ wave_where ids_list d = true ∧ s = to_section_row d.
Proof.
  intros (d & -> & Hd)%list_elem_of_fmap.
  destruct (select_latest_spec (wave_where ids_list) tbl) as (_ & H & _).
  destruct (H d Hd). by exists d.
Qed.

Lemma wave_where_true ids_list d :
  wave_where ids_list d = true ↔
  is_legi "section" d = true ∧ ∃ i, meta_id d = Some i ∧ Some i ∈ ids_list.
Proof.
  unfold wave_where. rewrite andb_true_iff.
  destruct (meta_id d) as [i|]; [rewrite bool_decide_eq_true|]; naive_solver.
Qed.

Lemma roots_where_legi code_id d :
  roots_where code_id d = true → is_legi "section" d = true.
Proof. unfold roots_where. by intros [? _]%andb_true_iff. Qed.

(** *** The loop *)

Lemma wave_loop_stops budget tbl st :
  remaining_ids st = ∅ → wave_loop budget tbl st = st.
Proof. intros H. destruct budget; cbn [wave_loop]; [done|]. by rewrite decide_True. Qed.

Lemma wave_step_wave_num tbl st : wave_num (wave_step tbl st) = wave_num st + 1.
Proof. done. Qed.

Lemma wave_step_fetches tbl st :
  section_fetches (queries (wave_step tbl st)) = section_fetches (queries st) + 1.
Proof.
  unfold section_fetches. cbn [wave_step queries].
  by rewrite List.filter_app, length_app.
Qed.

(** The new frontier holds no id that is loaded. *)
Lemma wave_step_frontier tbl st x :
  x ∈ remaining_ids (wave_step tbl st) → x ∉ dom (all_sections (wave_step tbl st)).
Proof.
  cbn [wave_step remaining_ids all_sections].
  intros [H | (s & _ & H & _)]%fold_add_child_ids_elem; [|done].
  by apply elem_of_empty in H.
Qed.

Lemma wave_loop_counts budget tbl st :
  let st' := wave_loop budget tbl st in
  wave_num st ≤ wave_num st' ≤ wave_num st + budget ∧
  section_fetches (queries st') + wave_num st
  = section_fetches (queries st) + wave_num st'.
Proof.
  revert st. induction budget as [|budget IH]; intros st; cbn [wave_loop]; [lia|].
  destruct (decide (remaining_ids st = ∅)); [lia|].
  specialize (IH (wave_step tbl st)). cbn zeta in IH.
  rewrite wave_step_wave_num, wave_step_fetches in IH. lia.
Qed.

Lemma wave_step_keys tbl st :
  keys_are_ids (all_sections st) → keys_are_ids (all_sections (wave_step tbl st)).
Proof. intros H. apply keys_are_ids_union; [apply rows_to_dict_keys | done]. Qed.

Lemma wave_loop_inv (P : wave_state → Prop) budget tbl st :
  (∀ st, P st → remaining_ids st ≠ ∅ → P (wave_step tbl st)) →
  P st → P (wave_loop budget tbl st).
Proof.
  intros Hstep. revert st. induction budget as [|budget IH]; intros st H; [done|].
  cbn [wave_loop]. destruct (decide (remaining_ids st = ∅)); [done|].
  apply IH. by apply Hstep.
Qed.

Lemma loaded_keys tbl code_id :
  keys_are_ids (all_sections (wave_loop max_waves tbl (after_roots tbl code_id))).
Proof.
  apply (wave_loop_inv (λ st, keys_are_ids (all_sections st))).
  - intros st H _. by apply wave_step_keys.
  - apply rows_to_dict_keys.
Qed.

(** *** The number of waves on a tree of depth [D] *)

Section Depth.

Variable tbl : table.
Variable code_id : string.
Variable depth_of : option string → nat.
Variable D : nat.
Hypothesis Htree : tree_of_depth tbl code_id depth_of D = true.

Lemma root_depth d :
  d ∈ tbl → roots_where code_id d = true → 1 ≤ depth_of (meta_id d).
Proof.
  intros Hd Hr. unfold tree_of_depth in Htree.
  rewrite forallb_forall in Htree. apply list_elem_of_In, Htree in Hd.
  apply andb_true_iff in Hd as [H _]. rewrite Hr in H. cbn [negb orb] in H.
  by apply Nat.leb_le in H.
Qed.

Lemma child_depth d x :
  d ∈ tbl → is_legi "section" d = true →
  x ∈ child_ids (m_sous_sections (d_meta d)) →
  depth_of (meta_id d) < depth_of x ≤ D.
Proof.
  intros Hd Hl Hx. unfold tree_of_depth in Htree.
  rewrite forallb_forall in Htree. apply list_elem_of_In, Htree in Hd.
  apply andb_true_iff in Hd as [_ H]. rewrite Hl in H. cbn [negb orb] in H.
  rewrite forallb_forall in H. apply list_elem_of_In, H in Hx.
  apply andb_true_iff in Hx as [?%Nat.ltb_lt ?%Nat.leb_le]. done.
Qed.

Lemma after_roots_deep : frontier_deep depth_of D (after_roots tbl code_id).
Proof.
  intros x. cbn [after_roots remaining_ids wave_num].
  intros [H Hnot]%elem_of_difference.
  apply fold_add_child_ids_elem in H as [? | (s & Hs & _ & Hx)]; [done|].
  apply map_values_lookup in Hs as [k Hk].
  apply rows_to_dict_lookup in Hk as [Hk _].
  apply select_roots_elem in Hk as (d & Hd & Hw & ->).
  pose proof (root_depth d Hd Hw).
  pose proof (child_depth d x Hd (roots_where_legi _ _ Hw) Hx). lia.
Qed.

Lemma wave_step_deep st : frontier_deep depth_of D st → frontier_deep depth_of D (wave_step tbl st).
Proof.
  intros Hst x. cbn [wave_step remaining_ids wave_num].
  intros [H | (s & Hs & _ & Hx)]%fold_add_child_ids_elem;
    [by apply elem_of_empty in H|].
  apply map_values_lookup in Hs as [k Hk].
  apply rows_to_dict_lookup in Hk as [Hk _].
  apply select_wave_elem in Hk as (d & Hd & Hw & ->).
  apply wave_where_true in Hw as (Hl & i & Hi & Hin).
  apply elem_of_elements, Hst in Hin.
  pose proof (child_depth d x Hd Hl Hx). rewrite Hi in *. lia.
Qed.

Lemma wave_loop_depth budget st :
  frontier_deep depth_of D st →
  wave_num (wave_loop budget tbl st) = wave_num st
  ∨ wave_num (wave_loop budget tbl st) + 1 ≤ D.
Proof.
  revert st. induction budget as [|budget IH]; intros st Hst; [by left|].
  cbn [wave_loop]. destruct (decide (remaining_ids st = ∅)) as [|Hne]; [by left|].
  right. apply set_choose_L in Hne as [x Hx]. apply Hst in Hx.
  destruct (IH (wave_step tbl st) (wave_step_deep st Hst)) as [-> | ?];
    [rewrite wave_step_wave_num|]; lia.
Qed.

End Depth.

(** The statements of a build: the one for the code, then, when the code
    is there, the one for the roots and one per wave. *)
Lemma build_tree_queries tbl code_id :
  let res := build_tree_optimized tbl code_id in
  let st := wave_loop max_waves tbl (after_roots tbl code_id) in
  (select_code tbl code_id = None ∧ res.2 = [QCode code_id]
   ∧ res.1 = Ok None)
  ∨ (select_code tbl code_id ≠ None ∧ res.2 = queries st ∧
     section_fetches res.2 = 1 + wave_num st ∧
     ∀ p, res.1 = Ok (Some p) → p_nb_waves p = wave_num st ∧
                                p_nb_sections_loaded p = size (all_sections st)).
Proof.
  unfold build_tree_optimized.
  pose proof (wave_loop_counts max_waves tbl (after_roots tbl code_id)) as Hc.
  cbn zeta in Hc. revert Hc.
  generalize (wave_loop max_waves tbl (after_roots tbl code_id)). intros st Hc.
  generalize (s_id <$> select_roots tbl code_id). intros root_ids.
  cbn zeta.
  destruct (select_code tbl code_id) as [[titre_code nature]|]; [right | by left].
  cbn [fst snd]. split_and!; [done | done | |].
  - destruct Hc as [_ Hc]. change (section_fetches (queries (after_roots tbl code_id)))
      with 1 in Hc. change (wave_num (after_roots tbl code_id)) with 0 in Hc. lia.
  - intros p. destruct (for_roots _ root_ids []); try done. by intros [= <-].
Qed.

End WavesFacts.
Module LatestFacts.
Import Trees Queries QueriesFacts Waves WavesFacts Assembly Latest.

Lemma NoDup_fmap_eq {A B} (f : A → B) (l : list A) x y :
  NoDup (f <$> l) → x ∈ l → y ∈ l → f x = f y → x = y.
Proof.
  induction l as [|a l IH]; cbn [fmap list_fmap]; [by intros _ ?%elem_of_nil|].
  intros [Ha Hl]%NoDup_cons [->|Hx]%elem_of_cons [->|Hy]%elem_of_cons E; try done.
  - exfalso. apply Ha. rewrite E. by apply list_elem_of_fmap_2.
  - exfalso. apply Ha. rewrite <- E. by apply list_elem_of_fmap_2.
  - by apply IH.
Qed.

Lemma select_latest_latest w tbl r :
  r ∈ select_latest w tbl → latest_of tbl w r.
Proof.
  intros Hr. destruct (select_latest_spec w tbl) as (Hnd & Hin & Hrep).
  destruct (Hin r Hr) as [? ?]. split_and!; [done | done |].
  intros d' Hd' Hw E. destruct (Hrep d' Hd' Hw) as (r' & Hr' & E' & Hle).
  assert (r' = r) as <-; [|done].
  eapply NoDup_fmap_eq; [exact Hnd | done | done | congruence].
Qed.


Lemma loaded_entries tbl code_id k s :
  loaded tbl code_id !! k = Some s → entry_ok tbl code_id k s.
Proof.
  unfold loaded. revert k s.
  apply (wave_loop_inv
           (λ st, ∀ k s, all_sections st !! k = Some s → entry_ok tbl code_id k s)).
  - intros st Hst _ k s. cbn [wave_step all_sections].
    intros [H | [_ H]]%lookup_union_Some_raw; [|by apply Hst].
    apply rows_to_dict_lookup in H as [H Hk]. split; [done|].
    apply list_elem_of_fmap in H as (d & -> & Hd).
    exists d. split_and!; [done | done |]. right. eexists.
    by apply select_latest_latest.
  - intros k s. cbn [after_roots all_sections].
    intros [H Hk]%rows_to_dict_lookup. split; [done|].
    apply list_elem_of_fmap in H as (d & -> & Hd).
    exists d. split_and!; [done | done |]. left. by apply select_latest_latest.
Qed.

End LatestFacts.



(** C4. Wave-count bound: on a store that holds a tree of depth [D] under
    the code, whatever its branching, a build sends at most [D + 1]
    section queries: the one for the roots and one per wave; the number of
    waves is at most [max_waves = 10] and at most [D - 1]; a wave leaves in
    the frontier only ids that are not loaded, and the loop stops on an
    empty frontier. *)
Theorem wave_count_bound (tbl : table) (code_id : string)
    (depth_of : option string → nat) (D : nat) :
  Waves.tree_of_depth tbl code_id depth_of D = true →
  let res := Trees.build_tree_optimized tbl code_id in
  let st := Trees.wave_loop Trees.max_waves tbl (Trees.after_roots tbl code_id) in
  Waves.section_fetches res.2 ≤ D + 1 ∧
  Waves.section_fetches res.2 ≤ 1 + Trees.wave_num st ∧
  Trees.wave_num st ≤ Trees.max_waves ∧
  Trees.wave_num st ≤ D - 1 ∧
  Trees.max_waves = 10 ∧
  (∀ p, res.1 = Ok (Some p) → Trees.p_nb_waves p = Trees.wave_num st) ∧
  (∀ st' x, x ∈ Trees.remaining_ids (Trees.wave_step tbl st') →
            x ∉ dom (Trees.all_sections (Trees.wave_step tbl st'))) ∧
  (∀ budget st', Trees.remaining_ids st' = ∅ → Trees.wave_loop budget tbl st' = st').
Proof.
  intros Htree res st.
  pose proof (WavesFacts.wave_loop_counts Trees.max_waves tbl (Trees.after_roots tbl code_id))
    as [Hnum _].
  pose proof (WavesFacts.wave_loop_depth tbl code_id depth_of D Htree Trees.max_waves
                (Trees.after_roots tbl code_id)
                (WavesFacts.after_roots_deep tbl code_id depth_of D Htree)) as Hdepth.
  change (Trees.wave_num (Trees.after_roots tbl code_id)) with 0 in *.
  fold st in Hnum, Hdepth.
  assert (Waves.section_fetches res.2 ≤ 1 + Trees.wave_num st) as Hf.
  { destruct (WavesFacts.build_tree_queries tbl code_id) as [(_ & H & _) | (_ & _ & H & _)].
    - unfold res. rewrite H.
      change (Waves.section_fetches [Trees.QCode code_id]) with 0. lia.
    - unfold res, st. rewrite H. lia. }
  split_and!.
  - lia.
  - done.
  - unfold Trees.max_waves in *. lia.
  - lia.
  - done.
  - intros p Hp.
    destruct (WavesFacts.build_tree_queries tbl code_id) as [(_ & _ & H) | (_ & _ & _ & H)].
    + unfold res in Hp. by rewrite H in Hp.
    + by apply H.
  - apply WavesFacts.wave_step_frontier.
  - intros budget st' H. by apply WavesFacts.wave_loop_stops.
Qed.

Lemma wave_count_bound_witness :
  Waves.section_fetches (Trees.build_tree_optimized Sample.binary_tree Sample.code).2 ≤ 3 + 1.
Proof.
  apply (wave_count_bound Sample.binary_tree Sample.code Sample.binary_depth 3).
  vm_compute. reflexivity.
Defined.
Module ValidityFacts.
Import Trees Assembly AssemblyFacts Waves.

Lemma en_vigueur_iff x :
  en_vigueur x = true ↔
  x !! "fin" = None ∨ x !! "fin" = Some (Some "2999-01-01")
  ∨ dict_get x "etat" = Some "VIGUEUR".
Proof.
  unfold en_vigueur, dict_get_default.
  rewrite orb_true_iff, !bool_decide_eq_true.
  destruct (x !! "fin") as [fin|]; naive_solver.
Qed.

(** The children and the articles of a valid node, read back. *)
Lemma tree_valid_children all_sections n :
  keys_are_ids all_sections → tree_valid all_sections n →
  ∃ section,
    all_sections !! n_id n = Some section ∧
    (∀ l c, n_children n = Some l → c ∈ l →
       tree_valid all_sections c ∧
       ∃ ss, ss ∈ default [] (s_sous_sections section) ∧
             en_vigueur ss = true ∧ ss !! "id" = Some (n_id c)) ∧
    (∀ l a, n_articles n = Some l → a ∈ l →
       ∃ art, art ∈ default [] (s_articles section) ∧
              en_vigueur art = true ∧ a = to_article art).
Proof.
  intros Hkeys Hn. destruct Hn as [n key section Hs Hid Ha Hch].
  exists section. rewrite Hid, (Hkeys _ _ Hs). split_and!; [done | |].
  - intros l c Hl Hc. destruct (Hch l Hl) as [_ Hall].
    rewrite Forall_forall in Hall.
    destruct (Hall c Hc) as (Hv & ss & ck & cs & ? & ? & Hi & Hcs & Hcid).
    split; [done|]. exists ss. split_and!; try done.
    by rewrite Hcid, (Hkeys _ _ Hcs).
  - intros l a Hl Hin. rewrite Ha in Hl. apply nonempty_Some in Hl as [-> _].
    apply elem_of_take in Hin as (i & Hin & _).
    apply list_elem_of_lookup_2 in Hin.
    apply list_elem_of_fmap in Hin as (art & -> & Hart).
    apply list_elem_of_filter in Hart as [? ?]. by exists art.
Qed.

End ValidityFacts.

(** C5. Depth bound: the trees of a payload have at most [max_depth = 10]
    levels, the roots being level 1; a call never exhausts the recursion; a
    node at the bound is returned without its children, whose references
    are not even read, and a call beyond the bound returns nothing: what
    lies deeper is left out and raises nothing.  With references that all
    carry an id, as the extractor writes them, no call raises. *)
Theorem depth_bound_honoured (tbl : table) (code_id : string) :
  (∀ p, (Trees.build_tree_optimized tbl code_id).1 = Ok (Some p) →
        Forall (λ n, Assembly.node_height n ≤ Trees.max_depth) (Trees.p_tree p)) ∧
  Trees.max_depth = 10 ∧
  (Trees.build_tree_optimized tbl code_id).1 ≠ RecursionError ∧
  (∀ all_sections section_id current_depth max_depth n,
     Trees.build_node_from_memory all_sections section_id current_depth max_depth
     = Ok (Some n) →
     current_depth + Assembly.node_height n ≤ S max_depth) ∧
  (∀ all_sections section_id max_depth,
     match all_sections !! section_id with
     | None =>
         Trees.build_node_from_memory all_sections section_id max_depth max_depth
         = Ok None
     | Some section =>
         ∃ n, Trees.build_node_from_memory all_sections section_id max_depth max_depth
              = Ok (Some n) ∧
              Trees.n_id n = Trees.s_id section ∧ Trees.n_children n = None
     end) ∧
  (∀ all_sections section_id current_depth max_depth,
     max_depth < current_depth →
     Trees.build_node_from_memory all_sections section_id current_depth max_depth
     = Ok None) ∧
  (∀ all_sections section_id current_depth max_depth,
     Assembly.refs_have_id all_sections →
     ∃ r, Trees.build_node_from_memory all_sections section_id current_depth max_depth
          = Ok r).
Proof.
  split_and!.
  - intros p Hp.
    destruct (Trees.build_tree_optimized tbl code_id) as [r qs] eqn:E.
    cbn [fst] in Hp. subst r.
    eapply Forall_impl; [exact (AssemblyFacts.build_tree_nodes _ _ _ _ E)|].
    intros n (i & Hn). apply AssemblyFacts.build_node_rec_height in Hn. lia.
  - done.
  - apply AssemblyFacts.build_tree_no_recursion_error.
  - intros all_sections section_id cd md n H.
    by apply AssemblyFacts.build_node_rec_height in H.
  - apply AssemblyFacts.build_node_at_bound.
  - apply AssemblyFacts.build_node_beyond_bound.
  - intros all_sections section_id cd md H.
    apply AssemblyFacts.build_node_rec_ok; [done | lia].
Qed.

Lemma depth_bound_honoured_witness :
  ∃ p, (Trees.build_tree_optimized (Sample.chain 12) Sample.code).1 = Ok (Some p) ∧
       Forall (λ n, Assembly.node_height n ≤ Trees.max_depth) (Trees.p_tree p) ∧
       Assembly.forest_height (Trees.p_tree p) = 10.
Proof.
  eexists. split; [vm_compute; reflexivity|]. split.
  - apply (proj1 (depth_bound_honoured (Sample.chain 12) Sample.code)).
    vm_compute. reflexivity.
  - vm_compute. reflexivity.
Defined.

(** C6 (as the code has it). Validity filtering: every node of the payload
    is built from a loaded section; each of its children comes from a child
    reference of that section that is in force, and each of its articles
    from an article reference that is in force.  A reference is in force
    exactly when its key [fin] is absent or holds 2999-01-01, or its [etat]
    is VIGUEUR: without the key [fin] it is in force whatever its state.
    So a reference whose end date is before now (2999-01-01 is not) and
    whose state is not VIGUEUR is not in force and gives no child and no
    article. *)
Theorem validity_filtering (before_now : string → Prop) (tbl : table)
    (code_id : string) (p : Trees.payload) :
  ¬ before_now "2999-01-01" →
  (Trees.build_tree_optimized tbl code_id).1 = Ok (Some p) →
  Forall (Assembly.tree_valid (Assembly.loaded tbl code_id)) (Trees.p_tree p) ∧
  (∀ n, Assembly.tree_valid (Assembly.loaded tbl code_id) n →
     ∃ section,
       Assembly.loaded tbl code_id !! Trees.n_id n = Some section ∧
       (∀ l c, Trees.n_children n = Some l → c ∈ l →
          Assembly.tree_valid (Assembly.loaded tbl code_id) c ∧
          ∃ ss, ss ∈ default [] (Trees.s_sous_sections section) ∧
                Trees.en_vigueur ss = true ∧ ss !! "id" = Some (Trees.n_id c)) ∧
       (∀ l a, Trees.n_articles n = Some l → a ∈ l →
          ∃ art, art ∈ default [] (Trees.s_articles section) ∧
                 Trees.en_vigueur art = true ∧ a = Trees.to_article art)) ∧
  (∀ x, Trees.en_vigueur x = true ↔
        x !! "fin" = None ∨ x !! "fin" = Some (Some "2999-01-01")
        ∨ dict_get x "etat" = Some "VIGUEUR") ∧
  (∀ x fin, x !! "fin" = Some (Some fin) → before_now fin →
            dict_get x "etat" ≠ Some "VIGUEUR" → Trees.en_vigueur x = false).
Proof.
  intros Hnow Hp. split_and!.
  - destruct (Trees.build_tree_optimized tbl code_id) as [r qs] eqn:E.
    cbn [fst] in Hp. subst r.
    eapply Forall_impl; [exact (AssemblyFacts.build_tree_nodes _ _ _ _ E)|].
    intros n (i & Hn). by eapply AssemblyFacts.build_node_rec_valid.
  - intros n Hn. apply ValidityFacts.tree_valid_children; [|done].
    apply WavesFacts.loaded_keys.
  - apply ValidityFacts.en_vigueur_iff.
  - intros x fin Hfin Hb He. apply not_true_iff_false.
    rewrite ValidityFacts.en_vigueur_iff, Hfin. intros [? | [[= ->] | ?]]; done.
Qed.

Lemma validity_filtering_witness :
  ∃ p, (Trees.build_tree_optimized Sample.binary_tree Sample.code).1 = Ok (Some p) ∧
       Forall (Assembly.tree_valid (Assembly.loaded Sample.binary_tree Sample.code))
              (Trees.p_tree p) ∧
       Trees.en_vigueur (Sample.abrogated "LEGISCTA000006136117") = false.
Proof.
  assert (¬ String.ltb "2999-01-01" "2026-11-04" = true) as Hnow by (by intros [=]).
  destruct (Trees.build_tree_optimized Sample.binary_tree Sample.code).1
    as [[p|]| |] eqn:E; try (vm_compute in E; discriminate E).
  exists p. split; [reflexivity|].
  destruct (validity_filtering (λ s, String.ltb s "2026-11-04" = true)
              Sample.binary_tree Sample.code p Hnow E) as (H1 & _ & _ & H4).
  split; [exact H1|].
  apply (H4 _ "2010-01-01"); [vm_compute; reflexivity | reflexivity | by intros [=]].
Defined.

(** Against C6 as worded: a child reference without the key [fin] is read
    as open-ended, so the section it names is a child of the node although
    the reference is abrogated and carries no sentinel. *)
Lemma included_without_marker_counterexample : ¬ Assembly.included_only_when_current.
Proof.
  intros H.
  destruct (Trees.build_node_from_memory Sample.unmarked_child (Some "P") 1
              Trees.max_depth) as [[n|]| |] eqn:E;
    try (vm_compute in E; discriminate E).
  pose proof E as E'. vm_compute in E'. injection E' as <-.
  pose (section := {| Trees.s_id := Some "P"; Trees.s_titre := Some "Titre";
                      Trees.s_sous_sections := Some [Sample.no_end_marker "C"];
                      Trees.s_articles := None;
                      Trees.s_nb_sections := 1; Trees.s_nb_articles := 0 |}).
  pose (c := {| Trees.n_id := Some "C"; Trees.n_titre := Some "Titre";
                Trees.n_nb_sections := 0; Trees.n_nb_articles := 0;
                Trees.n_children := None; Trees.n_articles := None |}).
  destruct (H Sample.unmarked_child (Some "P") section _ c [c] E)
    as (ss & Hss & _ & Hm).
  - vm_compute. reflexivity.
  - reflexivity.
  - by left.
  - cbn [section Trees.s_sous_sections default] in Hss.
    apply list_elem_of_singleton in Hss as ->.
    destruct Hm as [Hm | Hm]; vm_compute in Hm; discriminate Hm.
Qed.



(** C9 (as the code has it). The assembly keeps no set of ids in progress.
    It ends on every corpus because a call at depth [current_depth] nests
    at most [max_depth - current_depth + 1] calls: the recursion is never
    exhausted, and more fuel changes nothing.  A cycle of the child
    references is not reported: a section that refers to itself is
    returned with itself as its child, level after level, down to
    [max_depth]. *)
Theorem assembly_bounded_by_depth
    (all_sections : gmap (option string) Trees.section_row)
    (section_id : option string) (current_depth max_depth : nat) :
  Trees.build_node_from_memory all_sections section_id current_depth max_depth
  ≠ RecursionError ∧
  (∀ fuel, max_depth - current_depth < fuel →
     Trees.build_node_rec fuel all_sections section_id current_depth max_depth
     = Trees.build_node_from_memory all_sections section_id current_depth max_depth) ∧
  (∀ section ss,
     all_sections !! section_id = Some section →
     Trees.s_sous_sections section = Some [ss] →
     Trees.en_vigueur ss = true → ss !! "id" = Some section_id →
     current_depth ≤ max_depth →
     ∃ n, Trees.build_node_from_memory all_sections section_id current_depth max_depth
          = Ok (Some n) ∧
          Assembly.node_height n = S (max_depth - current_depth) ∧
          (current_depth < max_depth → Assembly.repeats_parent n)).
Proof.
  split_and!.
  - apply AssemblyFacts.build_node_rec_no_recursion_error. lia.
  - intros fuel Hf. apply AssemblyFacts.build_node_rec_fuel; lia.
  - intros section ss Hs Hss Hv Hi Hcd.
    destruct (AssemblyFacts.self_loop_unrolled all_sections section_id section ss
                (S (max_depth - current_depth)) current_depth max_depth)
      as (n & Hn & Hid & Hh & Hc); try done; [lia|].
    exists n. split_and!; [done | done |].
    intros Hlt. destruct (Hc Hlt) as (c & Hch & Hcid).
    exists [c], c. split_and!; [done | by left | congruence].
Qed.

Lemma assembly_bounded_by_depth_witness :
  ∃ n, Trees.build_node_from_memory Sample.self_loop (Some "S") 1 10 = Ok (Some n) ∧
       Assembly.node_height n = 10 ∧ Assembly.repeats_parent n.
Proof.
  destruct (proj2 (proj2 (assembly_bounded_by_depth Sample.self_loop (Some "S") 1 10))
              {| Trees.s_id := Some "S"; Trees.s_titre := Some "Titre";
                 Trees.s_sous_sections := Some [Sample.current "S"];
                 Trees.s_articles := None;
                 Trees.s_nb_sections := 1; Trees.s_nb_articles := 0 |}
              (Sample.current "S"))
    as (n & Hn & Hh & Hr); [reflexivity | reflexivity | reflexivity | reflexivity | lia |].
  exists n. split_and!; [exact Hn | exact Hh | apply Hr; lia].
Defined.

(** Against C9 as worded: the section that lists itself as its child is
    returned, with itself below itself, and no error is raised. *)
Lemma revisit_is_an_error_counterexample : ¬ Assembly.revisit_is_an_error.
Proof.
  intros H.
  destruct (Trees.build_node_from_memory Sample.self_loop (Some "S") 1 Trees.max_depth)
    as [[n|]| |] eqn:E; try (vm_compute in E; discriminate E).
  apply (H Sample.self_loop (Some "S") n E).
  vm_compute in E. injection E as <-.
  eexists _, _. split; [reflexivity|]. split; [by left | reflexivity].
Qed.

(** * Properties of the rest of the scripts *)

(** ** Entry kinds *)

Module DoctypeFacts.

Import Ingest Entries.

Lemma contains_tail s c sub :
  PyStr.contains s (String c sub) = true → PyStr.contains s sub = true.
Proof.
  induction s as [|a s IH]; cbn [PyStr.contains PyStr.startswith].
  - rewrite orb_false_r. discriminate.
  - intros H. apply orb_true_iff in H as [H|H].
    + apply andb_true_iff in H as [_ H].
      destruct sub as [|b sub]; [done|].
      apply DocIdFacts.startswith_contains in H.
      apply orb_true_iff. right. exact H.
    + apply orb_true_iff. right. by apply IH.
Qed.

Lemma orb_contains_tail s c sub :
  PyStr.contains s (String c sub) || PyStr.contains s sub = PyStr.contains s sub.
Proof.
  destruct (PyStr.contains s (String c sub)) eqn:E; [|done].
  apply contains_tail in E. by rewrite E.
Qed.

Lemma endswith_exclusive s u v :
  String.length u = String.length v → u ≠ v →
  PyStr.endswith s u = true → PyStr.endswith s v = false.
Proof.
  unfold PyStr.endswith. intros Hl Hne Hu.
  apply andb_true_iff in Hu as [_ Hu]. apply String.eqb_eq in Hu.
  rewrite <- Hl. apply andb_false_iff. right.
  apply String.eqb_neq. congruence.
Qed.

Lemma guess_doctype_xml_kind name :
  bool_decide (_guess_doctype name ∈ ["article"; "texte"; "section"; "xml"])
  = PyStr.endswith (PyStr.lower name) ".xml".
Proof.
  unfold _guess_doctype.
  destruct (PyStr.endswith (PyStr.lower name) ".xml").
  - apply bool_decide_eq_true.
    destruct (_ || _); [set_solver|]. destruct (_ || _); [set_solver|].
    destruct (_ || _); set_solver.
  - apply bool_decide_eq_false.
    destruct (PyStr.endswith _ _); [destruct (PyStr.contains _ _)|];
      intros Hin; repeat (apply elem_of_cons in Hin as [Hin|Hin]; [done|]);
      by apply elem_of_nil in Hin.
Qed.

Lemma guess_doctype_suppression name :
  String.eqb (_guess_doctype name) "suppression_list"
  = negb (PyStr.endswith (PyStr.lower name) ".xml")
    && PyStr.endswith (PyStr.lower name) ".dat"
    && PyStr.contains (PyStr.lower name) "liste_suppression".
Proof.
  unfold _guess_doctype.
  destruct (PyStr.endswith (PyStr.lower name) ".xml").
  - destruct (_ || _); [done|]. destruct (_ || _); [done|]. by destruct (_ || _).
  - destruct (PyStr.endswith _ _); [by destruct (PyStr.contains _ _)|done].
Qed.

End DoctypeFacts.

(** X1. The kind [_guess_doctype] gives: one of the four XML kinds exactly
    when the name ends in [.xml] whatever its case, and then [article] as
    soon as the lowered name holds "article" anywhere, [texte] when it holds
    "texte" and not "article", [section] when it holds "section_ta" and
    neither of the two; a deletion manifest exactly when the name ends in
    [.dat] and holds "liste_suppression"; [blob] exactly when it ends in
    neither. *)
Theorem guess_doctype_by_suffix_and_keyword (path_in_tar : string) :
  let p := PyStr.lower path_in_tar in
  let has := λ w, PyStr.contains p w = true in
  (Ingest._guess_doctype path_in_tar ∈ ["article"; "texte"; "section"; "xml"]
   ↔ PyStr.endswith p ".xml" = true) ∧
  (Ingest._guess_doctype path_in_tar = "article"
   ↔ PyStr.endswith p ".xml" = true ∧ has "article") ∧
  (Ingest._guess_doctype path_in_tar = "texte"
   ↔ PyStr.endswith p ".xml" = true ∧ ¬ has "article" ∧ has "texte") ∧
  (Ingest._guess_doctype path_in_tar = "section"
   ↔ PyStr.endswith p ".xml" = true ∧ ¬ has "article" ∧ ¬ has "texte"
     ∧ has "section_ta") ∧
  (Ingest._guess_doctype path_in_tar = "suppression_list"
   ↔ PyStr.endswith p ".dat" = true ∧ has "liste_suppression") ∧
  (Ingest._guess_doctype path_in_tar = "blob"
   ↔ PyStr.endswith p ".xml" = false ∧ PyStr.endswith p ".dat" = false).
Proof.
  intros p has. unfold has, Ingest._guess_doctype. fold p.
  rewrite !DoctypeFacts.orb_contains_tail.
  destruct (PyStr.endswith p ".xml") eqn:Hx.
  - assert (PyStr.endswith p ".dat" = false) as Hd
      by (by apply (DoctypeFacts.endswith_exclusive p ".xml" ".dat")).
    rewrite Hd.
    destruct (PyStr.contains p "article"), (PyStr.contains p "texte"),
      (PyStr.contains p "section_ta");
      repeat split; intros; try done; try set_solver; try (by intuition).
  - destruct (PyStr.endswith p ".dat") eqn:Hd;
      [destruct (PyStr.contains p "liste_suppression")|];
      repeat split; intros; try done; try set_solver; try (by intuition).
Qed.

(** ** What one archive does to the table *)

Module ArchiveFacts.

Import Ingest Entries.

Lemma upsert_documents_app tbl l1 l2 :
  _upsert_documents tbl (l1 ++ l2) = _upsert_documents (_upsert_documents tbl l1) l2.
Proof. unfold _upsert_documents. apply foldl_app. Qed.

Lemma suppression_not_xml m :
  is_suppression_entry m = true → is_xml_entry m = false.
Proof.
  unfold is_suppression_entry, is_xml_entry. intros H.
  repeat (apply andb_true_iff in H as [H ?]).
  apply andb_false_iff. right.
  by apply (DoctypeFacts.endswith_exclusive _ ".dat" ".xml").
Qed.

Section WithLibraries.

Variable sha256_hexdigest : string → string.
Variable parse_xml : string → string → string + (string * meta).
Variable ilike : string → string → bool.
Variable meta_text : meta → string.

Abbreviation ingest_member := (ingest_member sha256_hexdigest parse_xml ilike meta_text).
Abbreviation ingest_archive := (ingest_archive sha256_hexdigest parse_xml ilike meta_text).
Abbreviation rows_of := (rows_of sha256_hexdigest parse_xml).
Abbreviation delete_by_tokens := (_delete_by_tokens ilike meta_text).

(** What one member does, by the kind of the member. *)
Lemma ingest_member_cases source updated_at batch_size st m :
  let st' := ingest_member source updated_at batch_size st m in
  st_files_seen st' = st_files_seen st + (if mb_isfile m then 1 else 0) ∧
  (is_xml_entry m = true →
     _upsert_documents (st_tbl st') (st_pending st')
     = _upsert_documents (st_tbl st) (st_pending st ++ rows_of source updated_at [m]) ∧
     st_do_inserts st' + length (st_pending st')
     = st_do_inserts st + length (st_pending st) + 1 ∧
     st_do_deletes st' = st_do_deletes st ∧
     (length (st_pending st) + 1 < batch_size →
      st_tbl st' = st_tbl st ∧
      st_pending st' = st_pending st ++ rows_of source updated_at [m])) ∧
  (is_suppression_entry m = true →
     st_tbl st'
     = (delete_by_tokens (st_tbl st)
          (_parse_suppression_list (default "" (mb_data m))) source).1 ∧
     st_pending st' = st_pending st ∧ st_do_inserts st' = st_do_inserts st ∧
     st_do_deletes st'
     = st_do_deletes st
       + (delete_by_tokens (st_tbl st)
            (_parse_suppression_list (default "" (mb_data m))) source).2) ∧
  (is_xml_entry m = false → is_suppression_entry m = false →
     st_tbl st' = st_tbl st ∧ st_pending st' = st_pending st ∧
     st_do_inserts st' = st_do_inserts st ∧ st_do_deletes st' = st_do_deletes st).
Proof.
  unfold Ingest.ingest_member. cbn zeta.
  rewrite DoctypeFacts.guess_doctype_xml_kind, DoctypeFacts.guess_doctype_suppression.
  assert (rows_of source updated_at [m]
          = if is_xml_entry m
            then [make_row sha256_hexdigest parse_xml source updated_at (mb_name m)
                    (_guess_doctype (mb_name m)) (default "" (mb_data m))]
            else []) as Hrows.
  { unfold Entries.rows_of. destruct (is_xml_entry m) eqn:E.
    - by rewrite filter_cons_True by done.
    - by rewrite filter_cons_False by (by rewrite E). }
  rewrite Hrows. clear Hrows.
  unfold is_xml_entry, is_suppression_entry.
  destruct (mb_isfile m); cbn [negb andb].
  2: { repeat split; try done; lia. }
  destruct (mb_data m) as [data|]; cbn [default].
  2: { rewrite !bool_decide_eq_false_2 by (by intros [? ?]). cbn.
       repeat split; try done; lia. }
  rewrite !bool_decide_eq_true_2 by eauto. cbn [andb].
  destruct (PyStr.endswith (PyStr.lower (mb_name m)) ".xml") eqn:Hx; cbn [negb andb].
  - assert (PyStr.endswith (PyStr.lower (mb_name m)) ".dat" = false) as Hd
      by (by apply (DoctypeFacts.endswith_exclusive _ ".xml" ".dat")).
    rewrite Hd. cbn [andb].
    set (r := make_row _ _ _ _ _ _ _).
    destruct (batch_size <=? length (st_pending st ++ [r]))%nat eqn:Hb;
      unfold flush; cbn [st_tbl st_pending st_files_seen st_do_inserts st_do_deletes];
      rewrite ?length_app; cbn [length].
    + split; [done|]. split; [|split; [done|done]]. intros _.
      split; [done|]. split; [lia|]. split; [done|].
      intros Hlt. apply Nat.leb_le in Hb. rewrite length_app in Hb. cbn in Hb. lia.
    + split; [done|]. split; [|split; [done|done]]. intros _.
      split; [done|]. split; [lia|]. done.
  - destruct (PyStr.endswith (PyStr.lower (mb_name m)) ".dat"
              && PyStr.contains (PyStr.lower (mb_name m)) "liste_suppression") eqn:Hs.
    + destruct (delete_by_tokens _ _ _) as [tbl' deleted] eqn:E.
      cbn [st_tbl st_pending st_files_seen st_do_inserts st_do_deletes fst snd].
      split; [done|]. split; [done|]. split; [done|]. by intros _ [=].
    + cbn [st_tbl st_pending st_files_seen st_do_inserts st_do_deletes fst snd].
      split; [done|]. split; [done|]. split; [done|]. done.
Qed.

Lemma rows_of_cons source updated_at m members :
  rows_of source updated_at (m :: members)
  = rows_of source updated_at [m] ++ rows_of source updated_at members.
Proof.
  unfold Entries.rows_of. change (m :: members) with ([m] ++ members).
  by rewrite filter_app, fmap_app.
Qed.

Lemma rows_of_not_xml source updated_at m :
  is_xml_entry m = false → rows_of source updated_at [m] = [].
Proof.
  intros E. unfold Entries.rows_of. by rewrite filter_cons_False by (by rewrite E).
Qed.

Lemma rows_of_all_xml source updated_at xs :
  Forall (λ m, is_xml_entry m = true) xs →
  length (rows_of source updated_at xs) = length xs.
Proof.
  intros H. unfold Entries.rows_of. rewrite length_fmap.
  induction H as [|m xs Hm _ IH]; [done|].
  rewrite filter_cons_True by done. cbn. by rewrite IH.
Qed.

Lemma xml_or_not m :
  is_xml_entry m = true
  ∨ is_suppression_entry m = true
  ∨ (is_xml_entry m = false ∧ is_suppression_entry m = false).
Proof. destruct (is_xml_entry m), (is_suppression_entry m); auto. Qed.

(** The counters over a run of members. *)
Lemma ingest_members_counts source updated_at batch_size members :
  ∀ st,
    let st' := foldl (ingest_member source updated_at batch_size) st members in
    st_files_seen st'
    = st_files_seen st + length (filter (λ m, mb_isfile m = true) members) ∧
    st_do_inserts st' + length (st_pending st')
    = st_do_inserts st + length (st_pending st)
      + length (filter (λ m, is_xml_entry m = true) members).
Proof.
  induction members as [|m members IH]; intros st; cbn [foldl].
  - cbn. lia.
  - destruct (IH (ingest_member source updated_at batch_size st m)) as [IH1 IH2].
    cbn zeta. rewrite IH1, IH2. clear IH IH1 IH2.
    destruct (ingest_member_cases source updated_at batch_size st m)
      as (Hf & Hx & Hs & Ho).
    rewrite Hf.
    destruct (xml_or_not m) as [E|[E|[E1 E2]]].
    + destruct (Hx E) as (_ & Hn & _).
      rewrite (filter_cons_True (λ m, is_xml_entry m = true)) by done.
      destruct (mb_isfile m) eqn:Hm.
      * rewrite filter_cons_True by done. cbn [length]. lia.
      * unfold is_xml_entry in E. by rewrite Hm in E.
    + destruct (Hs E) as (_ & Hp & Hi & _). rewrite Hp, Hi.
      rewrite (filter_cons_False (λ m, is_xml_entry m = true))
        by (by rewrite (suppression_not_xml m E)).
      destruct (mb_isfile m) eqn:Hm.
      * rewrite filter_cons_True by done. cbn [length]. lia.
      * rewrite filter_cons_False by (by rewrite Hm). lia.
    + destruct (Ho E1 E2) as (_ & Hp & Hi & _). rewrite Hp, Hi.
      rewrite (filter_cons_False (λ m, is_xml_entry m = true)) by (by rewrite E1).
      destruct (mb_isfile m) eqn:Hm.
      * rewrite filter_cons_True by done. cbn [length]. lia.
      * rewrite filter_cons_False by (by rewrite Hm). lia.
Qed.

(** Without a deletion manifest the table and the rows that wait amount
    to one upsert of all the rows. *)
Lemma ingest_members_no_suppression source updated_at batch_size members :
  Forall (λ m, is_suppression_entry m = false) members →
  ∀ st,
    let st' := foldl (ingest_member source updated_at batch_size) st members in
    _upsert_documents (st_tbl st') (st_pending st')
    = _upsert_documents (st_tbl st)
        (st_pending st ++ rows_of source updated_at members) ∧
    st_do_deletes st' = st_do_deletes st.
Proof.
  induction 1 as [|m members Hm _ IH]; intros st; cbn [foldl].
  - unfold Entries.rows_of. cbn. by rewrite app_nil_r.
  - destruct (IH (ingest_member source updated_at batch_size st m)) as [IH1 IH2].
    cbn zeta. rewrite IH1, IH2. clear IH IH1 IH2.
    destruct (ingest_member_cases source updated_at batch_size st m)
      as (_ & Hx & _ & Ho).
    rewrite (rows_of_cons _ _ m members), (assoc_L (++)).
    destruct (is_xml_entry m) eqn:E.
    + destruct (Hx eq_refl) as (Hu & _ & Hd & _).
      rewrite !(upsert_documents_app _ _ (rows_of source updated_at members)).
      by rewrite Hu, Hd.
    + destruct (Ho eq_refl Hm) as (Ht & Hp & _ & Hd).
      by rewrite (rows_of_not_xml _ _ _ E), app_nil_r, Ht, Hp, Hd.
Qed.

(** XML entries fewer than the batch size all wait. *)
Lemma ingest_members_wait source updated_at batch_size xs :
  Forall (λ m, is_xml_entry m = true) xs →
  ∀ st, length (st_pending st) + length xs < batch_size →
    let st' := foldl (ingest_member source updated_at batch_size) st xs in
    st_tbl st' = st_tbl st ∧
    st_pending st' = st_pending st ++ rows_of source updated_at xs ∧
    st_do_deletes st' = st_do_deletes st.
Proof.
  induction 1 as [|m xs Hm Hxs IH]; intros st Hlen; cbn [foldl].
  - unfold Entries.rows_of. cbn. by rewrite app_nil_r.
  - cbn [length] in Hlen.
    destruct (ingest_member_cases source updated_at batch_size st m)
      as (_ & Hx & _ & _).
    destruct (Hx Hm) as (_ & _ & Hd & Hw).
    destruct Hw as [Ht Hp]; [lia|].
    destruct (IH (ingest_member source updated_at batch_size st m)) as (IH1 & IH2 & IH3).
    { rewrite Hp, length_app.
      unfold Entries.rows_of. rewrite filter_cons_True by done. cbn. lia. }
    cbn zeta. rewrite IH1, IH2, IH3, Ht, Hp, Hd, (rows_of_cons _ _ m xs).
    split; [done|]. split; [|done]. by rewrite <- app_assoc.
Qed.

Lemma upsert_documents_ids tbl rows i :
  i ∈ (d_id <$> tbl) ∨ i ∈ (d_id <$> rows) →
  i ∈ d_id <$> _upsert_documents tbl rows.
Proof.
  revert tbl. induction rows as [|r rows IH]; intros tbl [H|H]; cbn.
  - done.
  - by apply elem_of_nil in H.
  - apply IH. left.
    destruct (UpsertFacts.upsert_row_ids r tbl) as [->|[_ ->]]; [done|].
    apply elem_of_app. by left.
  - cbn in H. apply elem_of_cons in H as [->|H].
    + apply IH. left. apply UpsertFacts.upsert_row_elem.
    + apply IH. by right.
Qed.

End WithLibraries.

End ArchiveFacts.

(** X2. The statistics of [ingest_archive]: [files_seen] counts the members
    that are files, [upserts] counts the files that can be read and whose
    name ends in [.xml] (in any case), whatever the batch size, and no row
    is left waiting when the function returns. *)
Theorem ingest_archive_counts
    (sha256_hexdigest : string → string)
    (parse_xml : string → string → string + (string * meta))
    (ilike : string → string → bool) (meta_text : meta → string)
    (tbl : list document) (source : string) (members : list Ingest.member)
    (updated_at : string) (batch_size : nat) :
  let st := Ingest.ingest_archive sha256_hexdigest parse_xml ilike meta_text
              tbl source members updated_at batch_size in
  Ingest.st_files_seen st = length (filter (λ m, Ingest.mb_isfile m = true) members) ∧
  Ingest.st_do_inserts st = length (filter (λ m, Entries.is_xml_entry m = true) members) ∧
  Ingest.st_pending st = [].
Proof.
  intros st. unfold st, Ingest.ingest_archive. cbn zeta.
  set (st0 := {| Ingest.st_tbl := tbl |}).
  destruct (ArchiveFacts.ingest_members_counts sha256_hexdigest parse_xml ilike
              meta_text (PyStr.upper source) updated_at batch_size members st0)
    as [Hf Hi].
  cbn zeta in Hf, Hi. cbn [Ingest.st_files_seen Ingest.st_do_inserts
                            Ingest.st_pending st0 length] in Hf, Hi.
  destruct (Ingest.st_pending (foldl _ st0 members)) as [|r pending] eqn:Hp.
  - rewrite Hf, Hp. cbn [length] in Hi. split; [done|]. split; [lia|done].
  - unfold Ingest.flush. cbn [Ingest.st_files_seen Ingest.st_do_inserts Ingest.st_pending].
    rewrite Hf, Hp. split; [done|]. split; [lia|done].
Qed.

(** X3. Without a deletion manifest in the archive, the table the archive
    leaves is the table after one upsert of the rows of its XML entries, in
    the order of the archive: the batch size changes nothing, and nothing
    is deleted. *)
Theorem ingest_archive_batch_size_irrelevant
    (sha256_hexdigest : string → string)
    (parse_xml : string → string → string + (string * meta))
    (ilike : string → string → bool) (meta_text : meta → string)
    (tbl : list document) (source : string) (members : list Ingest.member)
    (updated_at : string) (batch_size : nat) :
  Forall (λ m, Entries.is_suppression_entry m = false) members →
  let st := Ingest.ingest_archive sha256_hexdigest parse_xml ilike meta_text
              tbl source members updated_at batch_size in
  Ingest.st_tbl st
  = Ingest._upsert_documents tbl
      (Entries.rows_of sha256_hexdigest parse_xml (PyStr.upper source) updated_at members) ∧
  Ingest.st_do_deletes st = 0.
Proof.
  intros Hno st. unfold st, Ingest.ingest_archive. cbn zeta.
  set (st0 := {| Ingest.st_tbl := tbl |}).
  destruct (ArchiveFacts.ingest_members_no_suppression sha256_hexdigest parse_xml
              ilike meta_text (PyStr.upper source) updated_at batch_size members
              Hno st0) as [Hu Hd].
  cbn zeta in Hu, Hd.
  set (stf := foldl _ st0 members) in *.
  change (Ingest.st_tbl st0) with tbl in Hu.
  change (Ingest.st_pending st0) with (@nil document) in Hu.
  change (Ingest.st_do_deletes st0) with 0 in Hd.
  cbn [app] in Hu.
  destruct (Ingest.st_pending stf) as [|r pending] eqn:Hp.
  - cbn in Hu. by rewrite <- Hu.
  - unfold Ingest.flush. cbn [Ingest.st_tbl Ingest.st_do_deletes].
    by rewrite Hp, Hu.
Qed.

Lemma ingest_archive_batch_size_irrelevant_witness :
  let m1 := {| Ingest.mb_name := "legi/article/LEGIARTI000006797825.xml";
               Ingest.mb_isfile := true; Ingest.mb_data := Some "<ARTICLE/>" |} in
  let m2 := {| Ingest.mb_name := "legi/section_ta/LEGISCTA000006136117.xml";
               Ingest.mb_isfile := true; Ingest.mb_data := Some "<SECTION_TA/>" |} in
  let run := Ingest.ingest_archive (λ s, s) (λ _ _, inl "XMLSyntaxError")
               (λ _ _, false) (λ _, "") [] "legi" [m1; m2; m1] "20250713-140000" in
  Ingest.st_tbl (run 1) = Ingest.st_tbl (run 500) ∧
  length (Ingest.st_tbl (run 1)) = 2.
Proof.
  intros m1 m2 run.
  assert (Forall (λ m, Entries.is_suppression_entry m = false) [m1; m2; m1]) as H
    by (repeat constructor).
  unfold run.
  rewrite (proj1 (ingest_archive_batch_size_irrelevant _ _ _ _ _ _ _ _ 1 H)).
  rewrite (proj1 (ingest_archive_batch_size_irrelevant _ _ _ _ _ _ _ _ 500 H)).
  split; reflexivity.
Defined.

(** X4. A deletion manifest acts on the table as it is when the manifest
    is met: the rows of the same archive that still wait in the batch are
    written after it.  For an archive made of XML entries fewer than the
    batch size followed by a manifest, the table left is the upsert of
    these rows into the table the manifest has been applied to, so every
    id of the archive is in the table afterwards, whatever the manifest
    names. *)
Theorem suppression_spares_pending_rows
    (sha256_hexdigest : string → string)
    (parse_xml : string → string → string + (string * meta))
    (ilike : string → string → bool) (meta_text : meta → string)
    (tbl : list document) (source : string) (xs : list Ingest.member)
    (s : Ingest.member) (updated_at : string) (batch_size : nat) :
  Forall (λ m, Entries.is_xml_entry m = true) xs →
  Entries.is_suppression_entry s = true →
  length xs < batch_size →
  let st := Ingest.ingest_archive sha256_hexdigest parse_xml ilike meta_text
              tbl source (xs ++ [s]) updated_at batch_size in
  let rows := Entries.rows_of sha256_hexdigest parse_xml (PyStr.upper source)
                updated_at xs in
  let del := Ingest._delete_by_tokens ilike meta_text tbl
               (Ingest._parse_suppression_list (default "" (Ingest.mb_data s)))
               (PyStr.upper source) in
  Ingest.st_tbl st = Ingest._upsert_documents del.1 rows ∧
  Ingest.st_do_deletes st = del.2 ∧
  ∀ r, r ∈ rows → ∃ r', r' ∈ Ingest.st_tbl st ∧ d_id r' = d_id r.
Proof.
  intros Hxs Hs Hlen st rows del.
  assert (Ingest.st_tbl st = Ingest._upsert_documents del.1 rows
          ∧ Ingest.st_do_deletes st = del.2) as [Ht Hd].
  { unfold st, Ingest.ingest_archive. cbn zeta. rewrite foldl_app. cbn [foldl].
    set (st0 := {| Ingest.st_tbl := tbl |}).
    destruct (ArchiveFacts.ingest_members_wait sha256_hexdigest parse_xml ilike
                meta_text (PyStr.upper source) updated_at batch_size xs Hxs st0)
      as (W1 & W2 & W3); [cbn; lia|].
    cbn zeta in W1, W2, W3.
    set (st1 := foldl _ st0 xs) in *.
    change (Ingest.st_tbl st0) with tbl in W1.
    change (Ingest.st_pending st0) with (@nil document) in W2.
    change (Ingest.st_do_deletes st0) with 0 in W3.
    cbn [app] in W2. fold rows in W2.
    destruct (ArchiveFacts.ingest_member_cases sha256_hexdigest parse_xml ilike
                meta_text (PyStr.upper source) updated_at batch_size st1 s)
      as (_ & _ & S & _).
    destruct (S Hs) as (S1 & S2 & _ & S4). clear S.
    cbn zeta in S1, S2, S4.
    set (st2 := Ingest.ingest_member _ _ _ _ _ _ _ st1 s) in *.
    rewrite W1 in S1, S4. fold del in S1, S4. rewrite W2 in S2. rewrite W3 in S4.
    destruct (Ingest.st_pending st2) as [|r pending] eqn:Hp.
    - rewrite S1, S4, <- S2. done.
    - unfold Ingest.flush. cbn [Ingest.st_tbl Ingest.st_do_deletes].
      rewrite Hp, S1, S4, S2. done. }
  split; [done|]. split; [done|].
  intros r Hr. rewrite Ht.
  assert (d_id r ∈ d_id <$> Ingest._upsert_documents del.1 rows) as Hin.
  { apply ArchiveFacts.upsert_documents_ids. right. by apply list_elem_of_fmap_2. }
  apply list_elem_of_fmap in Hin as (r' & Hid & Hr'). eauto.
Qed.

Lemma suppression_spares_pending_rows_witness :
  let m := {| Ingest.mb_name := "legi/article/LEGIARTI000006797825.xml";
              Ingest.mb_isfile := true; Ingest.mb_data := Some "<ARTICLE/>" |} in
  let s := {| Ingest.mb_name := "liste_suppression_legi.dat";
              Ingest.mb_isfile := true;
              Ingest.mb_data := Some "legi/article/LEGIARTI000006797825" |} in
  let st := Ingest.ingest_archive (λ s, s)
              (λ _ _, inr ("", {| m_id := Some "LEGIARTI000006797825";
                                  m_titre := None; m_nature := None; m_parent := None;
                                  m_date_debut := None; m_nb_sections := None;
                                  m_nb_articles := None; m_sous_sections := None;
                                  m_articles := None; m_parse_error := false;
                                  m_error := None; m_source := None; m_extra := ∅ |}))
              (λ _ _, false) (λ _, "") [] "LEGI" [m; s] "20250713-140000" 500 in
  Ingest._parse_suppression_list "legi/article/LEGIARTI000006797825"
    = ["legi/article/LEGIARTI000006797825"] ∧
  d_id <$> Ingest.st_tbl st = ["LEGIARTI000006797825"].
Proof.
  intros m s st. split; [reflexivity|].
  unfold st.
  rewrite (proj1 (suppression_spares_pending_rows _ _ _ _ [] "LEGI" [m] s
                    "20250713-140000" 500
                    ltac:(repeat constructor) eq_refl ltac:(cbn; lia))).
  reflexivity.
Defined.

(** ** Entries whose XML does not parse, and rows the database refuses *)
Module CheckedFacts.

Import Ingest Entries.

Section WithDriver.

Variable sha256_hexdigest : string → string.
Variable parse_xml : string → string → string + (string * meta).
Variable ilike : string → string → bool.
Variable meta_text : meta → string.
Variable accepts : document → bool.

Abbreviation ingest_member := (ingest_member sha256_hexdigest parse_xml ilike meta_text).
Abbreviation ingest_archive := (ingest_archive sha256_hexdigest parse_xml ilike meta_text).
Abbreviation member_checked :=
  (ingest_member_checked sha256_hexdigest parse_xml ilike meta_text accepts).
Abbreviation members_checked :=
  (ingest_members_checked sha256_hexdigest parse_xml ilike meta_text accepts).
Abbreviation archive_checked :=
  (ingest_archive_checked sha256_hexdigest parse_xml ilike meta_text accepts).
Abbreviation rows_of := (rows_of sha256_hexdigest parse_xml).

(** One member: the exception is raised exactly when the member is an XML
    entry that fills the batch and the batch holds a row that is refused;
    otherwise the member does what it does with a database that takes
    every row. *)
Lemma member_checked_cases source updated_at batch_size st m :
  (member_checked source updated_at batch_size st m = None ∧
   is_xml_entry m = true ∧ batch_size ≤ length (st_pending st) + 1 ∧
   forallb accepts (st_pending st ++ rows_of source updated_at [m]) = false)
  ∨ (member_checked source updated_at batch_size st m
     = Some (ingest_member source updated_at batch_size st m) ∧
     (st_pending (ingest_member source updated_at batch_size st m)
      = st_pending st ++ rows_of source updated_at [m]
      ∨ (forallb accepts (st_pending st ++ rows_of source updated_at [m]) = true ∧
         st_pending (ingest_member source updated_at batch_size st m) = []))).
Proof.
  unfold Ingest.ingest_member_checked, Ingest.ingest_member. cbn zeta.
  rewrite DoctypeFacts.guess_doctype_xml_kind, DoctypeFacts.guess_doctype_suppression.
  assert (rows_of source updated_at [m]
          = if is_xml_entry m
            then [make_row sha256_hexdigest parse_xml source updated_at (mb_name m)
                    (_guess_doctype (mb_name m)) (default "" (mb_data m))]
            else []) as Hrows.
  { unfold Entries.rows_of. destruct (is_xml_entry m) eqn:E.
    - by rewrite filter_cons_True by done.
    - by rewrite filter_cons_False by (by rewrite E). }
  rewrite Hrows. clear Hrows.
  unfold is_xml_entry.
  destruct (mb_isfile m); cbn [negb andb].
  2: { right. split; [done|]. left. by rewrite app_nil_r. }
  destruct (mb_data m) as [data|]; cbn [default].
  2: { rewrite !bool_decide_eq_false_2 by (by intros [? ?]). cbn [andb].
       right. split; [done|]. left. cbn [st_pending]. by rewrite app_nil_r. }
  rewrite !bool_decide_eq_true_2 by eauto. cbn [andb].
  destruct (PyStr.endswith (PyStr.lower (mb_name m)) ".xml") eqn:Hx; cbn [negb andb].
  - assert (PyStr.endswith (PyStr.lower (mb_name m)) ".dat" = false) as Hd
      by (by apply (DoctypeFacts.endswith_exclusive _ ".xml" ".dat")).
    rewrite ?Hd. cbn [andb]. change (id data) with data.
    set (r := make_row _ _ _ _ _ _ _).
    destruct (batch_size <=? length (st_pending st ++ [r]))%nat eqn:Hb.
    + unfold flush_checked. cbn [st_pending].
      apply Nat.leb_le in Hb. rewrite length_app in Hb. cbn [length] in Hb.
      destruct (forallb accepts (st_pending st ++ [r])) eqn:Ha.
      * right. split; [done|]. right. split; [done|]. done.
      * left. done.
    + right. split; [done|]. by left.
  - destruct (PyStr.endswith (PyStr.lower (mb_name m)) ".dat"
              && PyStr.contains (PyStr.lower (mb_name m)) "liste_suppression") eqn:Hs.
    + destruct (_delete_by_tokens _ _ _ _ _) as [tbl' deleted] eqn:E.
      right. split; [done|]. left. cbn [st_pending]. by rewrite app_nil_r.
    + right. split; [done|]. left. cbn [st_pending]. by rewrite app_nil_r.
Qed.

Lemma members_checked_None source updated_at batch_size members :
  members_checked source updated_at batch_size None members = None.
Proof. unfold Ingest.ingest_members_checked. by induction members. Qed.

Lemma members_checked_cons source updated_at batch_size st m members :
  members_checked source updated_at batch_size (Some st) (m :: members)
  = members_checked source updated_at batch_size
      (member_checked source updated_at batch_size st m) members.
Proof. reflexivity. Qed.

Lemma members_checked_app source updated_at batch_size st l1 l2 :
  members_checked source updated_at batch_size st (l1 ++ l2)
  = members_checked source updated_at batch_size
      (members_checked source updated_at batch_size st l1) l2.
Proof. unfold Ingest.ingest_members_checked. by rewrite foldl_app. Qed.

Lemma forallb_app_false {A} (p : A → bool) l1 l2 :
  forallb p l1 = false → forallb p (l1 ++ l2) = false.
Proof. intros H. by rewrite forallb_app, H. Qed.

(** With a database that takes every row the loop is the loop. *)
Lemma members_checked_accepting source updated_at batch_size members :
  (∀ r, accepts r = true) →
  ∀ st, members_checked source updated_at batch_size (Some st) members
        = Some (foldl (ingest_member source updated_at batch_size) st members).
Proof.
  intros Hall. induction members as [|m members IH]; intros st; [done|].
  rewrite members_checked_cons. cbn [foldl].
  destruct (member_checked_cases source updated_at batch_size st m)
    as [(_ & _ & _ & Hf) | [-> _]]; [|apply IH].
  assert (forallb accepts (st_pending st ++ rows_of source updated_at [m]) = true)
    as Ht by (apply forallb_forall; intros; apply Hall).
  congruence.
Qed.

(** A refused row that waits in the batch stays there until the exception
    is raised. *)
Lemma members_checked_refused source updated_at batch_size members :
  ∀ st, forallb accepts (st_pending st) = false →
        match members_checked source updated_at batch_size (Some st) members with
        | Some st' => forallb accepts (st_pending st') = false
        | None => True
        end.
Proof.
  induction members as [|m members IH]; intros st Hst; [done|].
  rewrite members_checked_cons.
  destruct (member_checked_cases source updated_at batch_size st m)
    as [(-> & _) | [-> [Hp | [Ht _]]]].
  - by rewrite members_checked_None.
  - apply IH. rewrite Hp. by apply forallb_app_false.
  - by rewrite (forallb_app_false _ _ _ Hst) in Ht.
Qed.

Lemma archive_checked_accepting tbl source members updated_at batch_size :
  (∀ r, accepts r = true) →
  archive_checked tbl source members updated_at batch_size
  = Some (ingest_archive tbl source members updated_at batch_size).
Proof.
  intros Hall. unfold Ingest.ingest_archive_checked, Ingest.ingest_archive. cbn zeta.
  rewrite members_checked_accepting by done.
  destruct (st_pending _) eqn:E; [done|].
  unfold flush_checked. rewrite E.
  by rewrite (proj2 (forallb_forall accepts _) (λ r _, Hall r)).
Qed.

(** An XML entry whose row is refused ends the ingestion of its archive,
    wherever it stands in the archive. *)
Lemma archive_checked_refused tbl source before m after updated_at batch_size :
  is_xml_entry m = true →
  Forall (λ r, accepts r = false) (rows_of (PyStr.upper source) updated_at [m]) →
  archive_checked tbl source (before ++ m :: after) updated_at batch_size = None.
Proof.
  intros Hm Hr. unfold Ingest.ingest_archive_checked. cbn zeta.
  set (st0 := {| st_tbl := tbl |}).
  assert (forallb accepts (rows_of (PyStr.upper source) updated_at [m]) = false) as Hf.
  { unfold Entries.rows_of in *. rewrite filter_cons_True in * by done.
    cbn [fmap list_fmap filter list_filter forallb] in *.
    apply Forall_cons in Hr as [-> _]. done. }
  rewrite members_checked_app.
  destruct (members_checked _ _ _ (Some st0) before) as [st1|];
    [|by rewrite members_checked_None].
  rewrite members_checked_cons.
  destruct (member_checked_cases (PyStr.upper source) updated_at batch_size st1 m)
    as [(-> & _) | [-> [Hp | [Ht _]]]].
  - by rewrite members_checked_None.
  - pose proof (members_checked_refused (PyStr.upper source) updated_at batch_size
                  after (ingest_member (PyStr.upper source) updated_at batch_size st1 m))
      as Hinv.
    rewrite Hp, forallb_app, Hf, andb_false_r in Hinv. specialize (Hinv eq_refl).
    destruct (members_checked _ _ _ _ after) as [st3|]; [|done].
    unfold flush_checked. rewrite Hinv.
    destruct (st_pending st3); [done | done].
  - by rewrite forallb_app, Hf, andb_false_r in Ht.
Qed.

(** An entry whose name ends in [.xml] is queued, and the queue is
    flushed when it reaches [batch_size]. *)
Lemma member_checked_xml source updated_at batch_size st m data :
  mb_isfile m = true → mb_data m = Some data →
  PyStr.endswith (PyStr.lower (mb_name m)) ".xml" = true →
  let row := make_row sha256_hexdigest parse_xml source updated_at (mb_name m)
               (_guess_doctype (mb_name m)) data in
  let queued :=
    {| st_tbl := st_tbl st; st_pending := st_pending st ++ [row];
       st_files_seen := st_files_seen st + 1;
       st_do_inserts := st_do_inserts st; st_do_deletes := st_do_deletes st |} in
  member_checked source updated_at batch_size st m
  = if batch_size <=? length (st_pending st ++ [row])
    then flush_checked accepts queued else Some queued.
Proof.
  intros Hf Hd Hx row queued. unfold ingest_member_checked. rewrite Hf, Hd. cbn [negb].
  pose proof (ParseFailureFacts.guess_doctype_xml _ Hx) as Hg.
  assert (String.eqb (_guess_doctype (mb_name m)) "suppression_list" = false) as ->.
  { apply String.eqb_neq. intros E. rewrite E in Hg.
    repeat (apply elem_of_cons in Hg as [Hg|Hg]; [discriminate Hg|]).
    by apply elem_of_nil in Hg. }
  rewrite bool_decide_eq_true_2 by done. rewrite Hx. reflexivity.
Qed.

Lemma ingest_archive_files_seen tbl source members updated_at batch_size :
  st_files_seen (ingest_archive tbl source members updated_at batch_size)
  = length (filter (λ m, mb_isfile m = true) members).
Proof.
  unfold Ingest.ingest_archive. cbn zeta.
  set (st0 := {| st_tbl := tbl |}).
  destruct (ArchiveFacts.ingest_members_counts sha256_hexdigest parse_xml ilike
              meta_text (PyStr.upper source) updated_at batch_size members st0)
    as [Hc _].
  cbn zeta in Hc.
  destruct (st_pending _); [by rewrite Hc | unfold flush; cbn [st_files_seen]; by rewrite Hc].
Qed.

End WithDriver.

End CheckedFacts.

(** C8 (as the code has it). An entry whose XML does not parse gives a
    degraded row: the metadata [parse_error] with the message and the
    source and no structural field, an empty extracted text, the SHA-256 of
    the raw bytes, and as content the bytes decoded as UTF-8 with
    [errors="replace"], which is the entry byte for byte exactly when the
    bytes are well-formed UTF-8.  The entry is not skipped: its row is
    queued, and upserted when the batch is full, after which it is the row
    of its id.  Nothing catches an exception of the upsert: the step
    returns when the batch is not full or the database takes every row of
    the batch, and raises when the batch is full and holds a row that is
    refused.  With a database that takes every row the archive is ingested
    to its end, whatever stands before and after the entry; when the row of
    the entry is refused the ingestion of the archive raises, wherever the
    entry stands. *)
Theorem parse_failure_degrades
    (sha256_hexdigest : string → string)
    (parse_xml : string → string → string + (string * meta))
    (ilike : string → string → bool) (meta_text : meta → string)
    (accepts : document → bool)
    (source updated_at : string) (batch_size : nat)
    (st : Ingest.ingest_state) (m : Ingest.member) (data e : string) :
  Ingest.mb_isfile m = true → Ingest.mb_data m = Some data →
  PyStr.endswith (PyStr.lower (Ingest.mb_name m)) ".xml" = true →
  parse_xml data (Ingest.mb_name m) = inl e →
  pk_unique (Ingest.st_tbl st) →
  let row := Ingest.make_row sha256_hexdigest parse_xml (PyStr.upper source) updated_at
               (Ingest.mb_name m) (Ingest._guess_doctype (Ingest.mb_name m)) data in
  let step := Ingest.ingest_member_checked sha256_hexdigest parse_xml ilike meta_text
                accepts (PyStr.upper source) updated_at batch_size in
  let queued :=
    {| Ingest.st_tbl := Ingest.st_tbl st;
       Ingest.st_pending := Ingest.st_pending st ++ [row];
       Ingest.st_files_seen := Ingest.st_files_seen st + 1;
       Ingest.st_do_inserts := Ingest.st_do_inserts st;
       Ingest.st_do_deletes := Ingest.st_do_deletes st |} in
  let archive := Ingest.ingest_archive_checked sha256_hexdigest parse_xml ilike
                   meta_text accepts in
  d_meta row
  = Ingest.meta_set_source (Ingest.parse_error_record e).2 (PyStr.upper source) ∧
  m_parse_error (d_meta row) = true ∧ m_error (d_meta row) = Some e ∧
  m_id (d_meta row) = None ∧ m_sous_sections (d_meta row) = None ∧
  m_articles (d_meta row) = None ∧
  d_content_text row = "" ∧
  d_sha256 row = sha256_hexdigest data ∧
  d_content_xml row = Utf8.decode_replace data ∧
  (d_content_xml row = data ↔ Utf8.well_formed data = true) ∧
  (length (Ingest.st_pending st) + 1 < batch_size → step st m = Some queued) ∧
  (batch_size ≤ length (Ingest.st_pending st) + 1 →
   forallb accepts (Ingest.st_pending st ++ [row]) = true →
   step st m = Some (Ingest.flush queued) ∧
   Ingest.st_pending (Ingest.flush queued) = [] ∧
   rows_with_id (d_id row) (Ingest.st_tbl (Ingest.flush queued)) = [row]) ∧
  (batch_size ≤ length (Ingest.st_pending st) + 1 →
   forallb accepts (Ingest.st_pending st ++ [row]) = false →
   step st m = None) ∧
  (∀ tbl before after,
     (∀ r, accepts r = true) →
     ∃ st',
       archive tbl source (before ++ m :: after) updated_at batch_size = Some st' ∧
       st' = Ingest.ingest_archive sha256_hexdigest parse_xml ilike meta_text
               tbl source (before ++ m :: after) updated_at batch_size ∧
       Ingest.st_files_seen st'
       = length (filter (λ x, Ingest.mb_isfile x = true) (before ++ m :: after))) ∧
  (∀ tbl before after,
     accepts row = false →
     archive tbl source (before ++ m :: after) updated_at batch_size = None).
Proof.
  intros Hf Hd Hx Hp Hpk row step queued archive.
  assert (row = {| d_id := Ingest._doc_id sha256_hexdigest (PyStr.upper source)
                             (Ingest.mb_name m) None;
                   d_source := PyStr.upper source;
                   d_doctype := Ingest._guess_doctype (Ingest.mb_name m);
                   d_path := Ingest.mb_name m;
                   d_updated_at := updated_at; d_sha256 := sha256_hexdigest data;
                   d_meta := Ingest.meta_set_source (Ingest.parse_error_record e).2
                               (PyStr.upper source);
                   d_content_xml := Utf8.decode_replace data;
                   d_content_text := "" |}) as Hrow
    by (by apply ParseFailureFacts.make_row_parse_error).
  assert (step st m = _) as Hstep
    by (by apply (CheckedFacts.member_checked_xml sha256_hexdigest parse_xml ilike
                    meta_text accepts (PyStr.upper source) updated_at batch_size
                    st m data)).
  cbn zeta in Hstep. fold row in Hstep. fold queued in Hstep.
  assert (length (Ingest.st_pending st ++ [row]) = length (Ingest.st_pending st) + 1)
    as Hlen by (rewrite length_app; reflexivity).
  split_and!; try (rewrite Hrow; reflexivity).
  - rewrite Hrow. cbn [d_content_xml]. apply Utf8Facts.decode_replace_fixed.
  - intros Hlt. rewrite Hstep, Hlen.
    destruct (Nat.leb_spec batch_size (length (Ingest.st_pending st) + 1)); [lia | done].
  - intros Hge Ha. rewrite Hstep, Hlen.
    destruct (Nat.leb_spec batch_size (length (Ingest.st_pending st) + 1)); [|lia].
    unfold Ingest.flush_checked. cbn [queued Ingest.st_pending]. rewrite Ha.
    split_and!; [done | done |].
    cbn [Ingest.flush Ingest.st_tbl Ingest.st_pending].
    by apply UpsertFacts.upsert_documents_last.
  - intros Hge Ha. rewrite Hstep, Hlen.
    destruct (Nat.leb_spec batch_size (length (Ingest.st_pending st) + 1)); [|lia].
    unfold Ingest.flush_checked. cbn [queued Ingest.st_pending]. by rewrite Ha.
  - intros tbl before after Hall. eexists. split_and!.
    + by apply CheckedFacts.archive_checked_accepting.
    + reflexivity.
    + apply CheckedFacts.ingest_archive_files_seen.
  - intros tbl before after Ha.
    apply CheckedFacts.archive_checked_refused.
    + unfold Entries.is_xml_entry. rewrite Hf, Hd, Hx.
      by rewrite bool_decide_eq_true_2 by eauto.
    + unfold Entries.rows_of. rewrite filter_cons_True.
      * cbn [fmap list_fmap filter list_filter]. rewrite Hd. cbn [default].
        constructor; [exact Ha | constructor].
      * unfold Entries.is_xml_entry. rewrite Hf, Hd, Hx.
        by rewrite bool_decide_eq_true_2 by eauto.
Qed.

Lemma parse_failure_degrades_witness :
  let NUL := String (ascii_of_nat 0) "" in
  let no_nul := λ r : document, negb (PyStr.contains (d_content_xml r) NUL) in
  let name := "20250713-140000/legi/article/LEGIARTI000006797825.xml" in
  let m := {| Ingest.mb_name := name; Ingest.mb_isfile := true;
              Ingest.mb_data := Some ("<ARTICLE>" +:+ NUL) |} in
  let next := {| Ingest.mb_name := "20250713-140000/legi/article/LEGIARTI000006797826.xml";
                 Ingest.mb_isfile := true; Ingest.mb_data := Some "<ARTICLE/>" |} in
  let fails := λ _ _ : string, inl "XMLSyntaxError" : string + string * meta in
  let row := Ingest.make_row (λ s, s) fails "LEGI" "20250713-140000" name
               (Ingest._guess_doctype name) ("<ARTICLE>" +:+ NUL) in
  (m_parse_error (d_meta row) = true ∧ d_content_xml row = "<ARTICLE>" +:+ NUL ∧
   d_id row = "LEGIARTI000006797825") ∧
  Ingest.ingest_archive_checked (λ s, s) fails (λ _ _, false) (λ _, "") no_nul
    [] "legi" [m; next] "20250713-140000" 500 = None ∧
  ∃ st', Ingest.ingest_archive_checked (λ s, s) fails (λ _ _, false) (λ _, "") (λ _, true)
           [] "legi" [m; next] "20250713-140000" 500 = Some st' ∧
         Ingest.st_files_seen st' = 2 ∧ length (Ingest.st_tbl st') = 2.
Proof.
  intros NUL no_nul name m next fails row.
  pose (st0 := {| Ingest.st_tbl := []; Ingest.st_pending := []; Ingest.st_files_seen := 0;
                  Ingest.st_do_inserts := 0; Ingest.st_do_deletes := 0 |}).
  destruct (parse_failure_degrades (λ s, s) fails (λ _ _, false) (λ _, "") no_nul
              "legi" "20250713-140000" 500 st0 m ("<ARTICLE>" +:+ NUL)
              "XMLSyntaxError" eq_refl eq_refl eq_refl eq_refl
              (NoDup_nil_2 : pk_unique []))
    as (_ & H1 & _ & _ & _ & _ & _ & _ & _ & H2 & _ & _ & _ & _ & H3).
  destruct (parse_failure_degrades (λ s, s) fails (λ _ _, false) (λ _, "") (λ _, true)
              "legi" "20250713-140000" 500 st0 m ("<ARTICLE>" +:+ NUL)
              "XMLSyntaxError" eq_refl eq_refl eq_refl eq_refl
              (NoDup_nil_2 : pk_unique []))
    as (_ & _ & _ & _ & _ & _ & _ & _ & _ & _ & _ & _ & _ & H4 & _).
  split_and!.
  - exact H1.
  - apply H2. reflexivity.
  - reflexivity.
  - apply (H3 [] [] [next]). reflexivity.
  - destruct (H4 [] [] [next] (λ _, eq_refl)) as (st' & E & -> & Hn).
    exists (Ingest.ingest_archive (λ s, s) fails (λ _ _, false) (λ _, "")
              [] "legi" ([] ++ m :: [next]) "20250713-140000" 500).
    split_and!; [exact E | exact Hn | vm_compute; reflexivity].
Defined.

(** Against C8 as worded: the single byte FF does not parse and is not
    UTF-8; the content stored is the replacement character, not the byte. *)
Lemma raw_bytes_preserved_counterexample : ¬ ParseFailure.raw_bytes_preserved.
Proof.
  intros H.
  specialize (H (λ s, s) (λ _ _, inl "XMLSyntaxError") "LEGI" "20250713-140000"
                "20250713-140000/legi/article/LEGIARTI000006797825.xml" "article"
                (String (ascii_of_nat 255) "") "XMLSyntaxError" eq_refl).
  vm_compute in H. discriminate H.
Qed.

(** ** Deletion manifests *)

Module ManifestFacts.

Import Ingest Manifest.

Lemma app_nil_r_s (s : string) : s +:+ "" = s.
Proof. induction s as [|c s IH]; [done|]. by rewrite DocIdFacts.app_cons, IH. Qed.

Lemma all_chars_app p u v :
  all_chars p (u +:+ v) = all_chars p u && all_chars p v.
Proof.
  induction u as [|c u IH]; [done|].
  rewrite DocIdFacts.app_cons. cbn [all_chars]. by rewrite IH, andb_assoc.
Qed.

Lemma all_chars_impl (p q : ascii → bool) s :
  (∀ c, p c = true → q c = true) → all_chars p s = true → all_chars q s = true.
Proof.
  intros Hpq. induction s as [|c s IH]; [done|]. cbn [all_chars].
  intros H. apply andb_true_iff in H as [H1 H2].
  apply andb_true_iff. split; [by apply Hpq | by apply IH].
Qed.

Lemma lstrip_idem s : PyStr.lstrip (PyStr.lstrip s) = PyStr.lstrip s.
Proof.
  induction s as [|c s IH]; [done|]. cbn [PyStr.lstrip].
  destruct (PyStr.is_space c) eqn:E; [done|]. cbn [PyStr.lstrip]. by rewrite E.
Qed.

Lemma rstrip_idem s : PyStr.rstrip (PyStr.rstrip s) = PyStr.rstrip s.
Proof.
  induction s as [|c s IH]; [done|]. cbn [PyStr.rstrip].
  destruct (PyStr.rstrip s) as [|d r] eqn:E.
  - destruct (PyStr.is_space c) eqn:Ec; [done|]. cbn [PyStr.rstrip]. by rewrite Ec.
  - cbn [PyStr.rstrip]. cbn [PyStr.rstrip] in IH.
    destruct (PyStr.rstrip r) as [|e r'] eqn:E'.
    + destruct (PyStr.is_space d); [done|]. by injection IH as ->.
    + by rewrite IH.
Qed.

Lemma lstrip_head s :
  match PyStr.lstrip s with
  | String c _ => PyStr.is_space c = false
  | EmptyString => True
  end.
Proof.
  induction s as [|c s IH]; [done|]. cbn [PyStr.lstrip].
  by destruct (PyStr.is_space c) eqn:E.
Qed.

Lemma rstrip_keeps_head c s :
  PyStr.is_space c = false → ∃ r, PyStr.rstrip (String c s) = String c r.
Proof.
  intros E. cbn [PyStr.rstrip].
  destruct (PyStr.rstrip s); [rewrite E|]; eauto.
Qed.

Lemma lstrip_rstrip_lstrip s :
  PyStr.lstrip (PyStr.rstrip (PyStr.lstrip s)) = PyStr.rstrip (PyStr.lstrip s).
Proof.
  pose proof (lstrip_head s) as H.
  destruct (PyStr.lstrip s) as [|c u]; [done|].
  destruct (rstrip_keeps_head c u H) as [r ->].
  cbn [PyStr.lstrip]. by rewrite H.
Qed.

Lemma strip_idem s : PyStr.strip (PyStr.strip s) = PyStr.strip s.
Proof.
  unfold PyStr.strip. by rewrite lstrip_rstrip_lstrip, rstrip_idem.
Qed.

Lemma all_chars_lstrip p s : all_chars p s = true → all_chars p (PyStr.lstrip s) = true.
Proof.
  induction s as [|c s IH]; [done|]. cbn [PyStr.lstrip].
  destruct (PyStr.is_space c); [|done].
  cbn [all_chars]. intros H. apply andb_true_iff in H as [_ H]. by apply IH.
Qed.

Lemma all_chars_rstrip p s : all_chars p s = true → all_chars p (PyStr.rstrip s) = true.
Proof.
  induction s as [|c s IH]; [done|]. cbn [PyStr.rstrip all_chars].
  intros H. apply andb_true_iff in H as [Hc H]. specialize (IH H).
  destruct (PyStr.rstrip s) as [|d r].
  - destruct (PyStr.is_space c); [done|]. cbn. by rewrite Hc.
  - cbn [all_chars]. cbn [all_chars] in IH. by rewrite Hc, IH.
Qed.

Lemma all_chars_strip p s : all_chars p s = true → all_chars p (PyStr.strip s) = true.
Proof. intros H. by apply all_chars_rstrip, all_chars_lstrip. Qed.

(** No line of [splitlines] holds a line break. *)
Lemma splitlines_from_no_linebreak n :
  ∀ s cur, String.length s ≤ n →
    all_chars (λ c, negb (PyStr.is_linebreak c)) cur = true →
    Forall (λ l, all_chars (λ c, negb (PyStr.is_linebreak c)) l = true)
           (PyStr.splitlines_from cur s).
Proof.
  induction n as [|n IH]; intros s cur Hn Hcur.
  - destruct s; [|cbn in Hn; lia]. cbn. destruct (String.eqb cur ""); auto.
  - destruct s as [|c s]; cbn [PyStr.splitlines_from].
    { destruct (String.eqb cur ""); auto. }
    cbn [String.length] in Hn.
    destruct (PyStr.is_linebreak c) eqn:E.
    + constructor; [done|].
      destruct (nat_of_ascii c) as [|[|[|[|[|[|[|[|[|[|[|[|[|[|k]]]]]]]]]]]]]];
        try (apply IH; [lia|done]).
      destruct s as [|c' s'']; [apply IH; [lia|done]|].
      destruct (nat_of_ascii c' =? 10)%nat; apply IH; cbn [String.length] in *; try lia; done.
    + apply IH; [lia|]. rewrite all_chars_app, Hcur. cbn. by rewrite E.
Qed.

Lemma keep_spec raw t :
  (let s := PyStr.strip raw in
   if String.eqb s "" || PyStr.startswith s "#" then None else Some s) = Some t →
  t = PyStr.strip raw ∧ t ≠ "" ∧ PyStr.startswith t "#" = false.
Proof.
  cbn zeta. destruct (String.eqb_spec (PyStr.strip raw) "") as [E|E]; [done|].
  cbn [orb]. destruct (PyStr.startswith (PyStr.strip raw) "#") eqn:Hs; [done|].
  intros [= <-]. done.
Qed.

Lemma is_ascii_decode repl s :
  all_chars is_ascii s = true → Utf8.decode repl s = s.
Proof.
  induction s as [|c s IH]; [done|]. cbn [all_chars Utf8.decode].
  intros H. apply andb_true_iff in H as [Hc H]. unfold is_ascii in Hc.
  cbn zeta. rewrite Hc. by rewrite IH.
Qed.

Lemma splitlines_from_token t :
  all_chars (λ c, negb (PyStr.is_linebreak c)) t = true →
  ∀ cur rest, PyStr.splitlines_from cur (t +:+ rest)
              = PyStr.splitlines_from (cur +:+ t) rest.
Proof.
  induction t as [|c t IH]; intros H cur rest.
  - by rewrite app_nil_r_s.
  - cbn [all_chars] in H. apply andb_true_iff in H as [Hc H].
    rewrite DocIdFacts.app_cons. cbn [PyStr.splitlines_from].
    apply negb_true_iff in Hc. rewrite Hc.
    rewrite (IH H).
    change (cur ++ String c "")%string with (cur +:+ String c "").
    by rewrite DocIdFacts.string_app_assoc.
Qed.

Lemma splitlines_from_LF cur rest :
  PyStr.splitlines_from cur (LF +:+ rest) = cur :: PyStr.splitlines_from "" rest.
Proof. done. Qed.

Lemma splitlines_join tokens tail :
  Forall (λ t, clean_token t = true) tokens → tokens ≠ [] →
  (∀ cur, cur ≠ "" → PyStr.splitlines_from cur tail = [cur]) →
  PyStr.splitlines_from "" (join LF tokens +:+ tail) = tokens.
Proof.
  intros Hall Hne0 Htail. induction Hall as [|t tokens Ht Hall IH]; [done|].
  clear Hne0. unfold clean_token in Ht.
  apply andb_true_iff in Ht as [Ht Hc]. apply andb_true_iff in Ht as [Ht _].
  apply andb_true_iff in Ht as [Hne _].
  apply negb_true_iff, String.eqb_neq in Hne.
  assert (all_chars (λ c, negb (PyStr.is_linebreak c)) t = true) as Hnl.
  { revert Hc. apply all_chars_impl. intros c H.
    by apply andb_true_iff in H as [_ H]. }
  cbn [join]. destruct tokens as [|t2 tokens].
  - rewrite splitlines_from_token by done. by apply Htail.
  - rewrite !DocIdFacts.string_app_assoc.
    rewrite splitlines_from_token by done.
    rewrite splitlines_from_LF. cbn [String.append]. by rewrite IH.
Qed.

Lemma all_chars_join tokens :
  Forall (λ t, clean_token t = true) tokens →
  all_chars is_ascii (join LF tokens) = true.
Proof.
  induction 1 as [|t tokens Ht _ IH]; [done|].
  assert (all_chars is_ascii t = true) as Ha.
  { unfold clean_token in Ht. apply andb_true_iff in Ht as [_ Hc].
    revert Hc. apply all_chars_impl. intros c H.
    by apply andb_true_iff in H as [H _]. }
  cbn [join]. destruct tokens as [|t2 tokens]; [done|].
  rewrite !all_chars_app, Ha, IH. done.
Qed.

Lemma omap_keep_clean tokens :
  Forall (λ t, clean_token t = true) tokens →
  omap (λ raw, let s := PyStr.strip raw in
               if String.eqb s "" || PyStr.startswith s "#" then None else Some s)
       tokens = tokens.
Proof.
  set (keep := λ raw : string,
                let s := PyStr.strip raw in
                if String.eqb s "" || PyStr.startswith s "#" then None else Some s).
  induction 1 as [|t tokens Ht _ IH]; [done|].
  change (omap keep (t :: tokens))
    with (match keep t with Some y => y :: omap keep tokens | None => omap keep tokens end).
  rewrite IH.
  unfold clean_token in Ht.
  apply andb_true_iff in Ht as [Ht _]. apply andb_true_iff in Ht as [Ht Hs].
  apply andb_true_iff in Ht as [Hne Hh].
  apply String.eqb_eq in Hs. unfold keep. cbn zeta. rewrite Hs.
  apply negb_true_iff in Hne, Hh. by rewrite Hne, Hh.
Qed.

End ManifestFacts.

(** X5. The tokens read from a deletion manifest made of ASCII
    characters: every token is a line of the manifest with the white space
    at both ends removed; it is not empty, is not a comment (does not begin
    with [#]), has no white space left at either end and holds no line
    break. *)
Theorem suppression_tokens_are_stripped_lines (data t : string) :
  Manifest.all_chars Manifest.is_ascii data = true →
  t ∈ Ingest._parse_suppression_list data →
  t ≠ "" ∧ PyStr.startswith t "#" = false ∧ PyStr.strip t = t ∧
  Manifest.all_chars (λ c, negb (PyStr.is_linebreak c)) t = true ∧
  ∃ raw, raw ∈ PyStr.splitlines data ∧ t = PyStr.strip raw.
Proof.
  intros Hascii Hin.
  unfold Ingest._parse_suppression_list, Utf8.decode_ignore in Hin. cbn zeta in Hin.
  rewrite (ManifestFacts.is_ascii_decode "" data Hascii) in Hin.
  apply list_elem_of_omap in Hin as (raw & Hraw & Hk).
  apply ManifestFacts.keep_spec in Hk as (-> & Hne & Hh).
  split; [done|]. split; [done|]. split; [apply ManifestFacts.strip_idem|].
  split; [|eauto].
  apply ManifestFacts.all_chars_strip.
  pose proof (ManifestFacts.splitlines_from_no_linebreak
                (String.length data) data "" (le_n _) eq_refl) as Hall.
  rewrite Forall_forall in Hall. by apply Hall.
Qed.

Lemma suppression_tokens_are_stripped_lines_witness :
  let data := "# liste" +:+ Manifest.LF +:+ "  legi/LEGIARTI000006797825  "
              +:+ Manifest.LF +:+ Manifest.LF in
  Ingest._parse_suppression_list data = ["legi/LEGIARTI000006797825"] ∧
  PyStr.strip "legi/LEGIARTI000006797825" = "legi/LEGIARTI000006797825".
Proof.
  intros data.
  assert (Ingest._parse_suppression_list data = ["legi/LEGIARTI000006797825"]) as E
    by reflexivity.
  split; [exact E|].
  refine (proj1 (proj2 (proj2 (suppression_tokens_are_stripped_lines data _ _ _)))).
  - reflexivity.
  - rewrite E. left.
Defined.

(** X6. Writing and reading a manifest: for tokens that are ASCII, not
    empty, not comments, without line break and without white space at
    either end, the lines written one token per line are read back as the
    same tokens in the same order, with or without a final end of line. *)
Theorem suppression_list_round_trip (tokens : list string) :
  Forall (λ t, Manifest.clean_token t = true) tokens →
  Ingest._parse_suppression_list (Manifest.join Manifest.LF tokens) = tokens ∧
  Ingest._parse_suppression_list (Manifest.join Manifest.LF tokens +:+ Manifest.LF)
  = tokens.
Proof.
  intros Hall. unfold Ingest._parse_suppression_list, Utf8.decode_ignore. cbn zeta.
  pose proof (ManifestFacts.all_chars_join tokens Hall) as Ha.
  rewrite !ManifestFacts.is_ascii_decode
    by (rewrite ?ManifestFacts.all_chars_app, ?Ha; done).
  destruct tokens as [|t tokens]; [done|].
  unfold PyStr.splitlines. split.
  - rewrite <- (ManifestFacts.app_nil_r_s (Manifest.join _ _)).
    rewrite ManifestFacts.splitlines_join; [|done|done|].
    + by apply ManifestFacts.omap_keep_clean.
    + intros cur Hcur. cbn. by apply String.eqb_neq in Hcur as ->.
  - rewrite ManifestFacts.splitlines_join; [|done|done|].
    + by apply ManifestFacts.omap_keep_clean.
    + intros cur Hcur. done.
Qed.

Lemma suppression_list_round_trip_witness :
  Ingest._parse_suppression_list
    (Manifest.join Manifest.LF
       ["legi/global/LEGIARTI000006797825.xml"; "LEGITEXT000006070721"])
  = ["legi/global/LEGIARTI000006797825.xml"; "LEGITEXT000006070721"].
Proof.
  refine (proj1 (suppression_list_round_trip _ _)).
  repeat constructor.
Defined.

(** ** Archive names and their order *)

Module DateKeyFacts.

Import IngestRun Chronology DocId.

Lemma timestamp_at_spec s m :
  timestamp_at s = Some m ↔
  ∃ rest, s = id m +:+ rest ∧ is_timestamp m = true.
Proof.
  unfold timestamp_at, id. split.
  - destruct (Unicode.eat_digits 8 s) as [[|c r]|] eqn:E8; try done.
    destruct (Ascii.eqb_spec c "-"%char) as [->|Hc].
    2: { destruct c as [[] [] [] [] [] [] [] []]; done. }
    destruct (Unicode.eat_digits 6 r) as [rest|] eqn:E6; [|done].
    intros [= <-].
    apply DocIdFacts.eat_digits_inv in E8 as (d8 & -> & E8 & _).
    apply DocIdFacts.eat_digits_inv in E6 as (d6 & -> & E6 & _).
    exists rest.
    assert (d8 +:+ String "-" (d6 +:+ rest) = (d8 +:+ "-" +:+ d6) +:+ rest) as ->
      by (by rewrite !DocIdFacts.string_app_assoc).
    rewrite DocIdFacts.matched_app.
    split; [done|]. apply DocIdFacts.is_timestamp_split. by exists d8, d6.
  - intros (rest & -> & H).
    apply DocIdFacts.is_timestamp_split in H as (d8 & d6 & -> & E8 & E6).
    rewrite !DocIdFacts.string_app_assoc.
    rewrite (DocIdFacts.eat_digits_app _ _ _ _ E8).
    change ("" +:+ "-" +:+ d6 +:+ rest) with (String "-" (d6 +:+ rest)). cbv beta iota.
    rewrite (DocIdFacts.eat_digits_app _ _ _ _ E6).
    change ("" +:+ rest) with rest. f_equal.
    assert (d8 +:+ "-" +:+ d6 +:+ rest = (d8 +:+ "-" +:+ d6) +:+ rest) as ->
      by (by rewrite !DocIdFacts.string_app_assoc).
    by rewrite DocIdFacts.matched_app.
Qed.

Lemma search_timestamp_eq s :
  search_timestamp s
  = match timestamp_at s with
    | Some m => Some m
    | None => match s with
              | EmptyString => None
              | String _ s' => search_timestamp s'
              end
    end.
Proof. by destruct s. Qed.

(** [re.search] with the pattern of the time stamps. *)
Lemma search_timestamp_first s m :
  search_timestamp s = Some m
  ↔ first_match id (λ ts, is_timestamp ts = true) s m.
Proof.
  apply (DocIdFacts.search_first_match timestamp_at);
    [apply search_timestamp_eq | apply timestamp_at_spec].
Qed.

Lemma search_timestamp_none s :
  search_timestamp s = None ↔ no_match id (λ ts, is_timestamp ts = true) s.
Proof.
  apply (DocIdFacts.search_no_match timestamp_at);
    [apply search_timestamp_eq | apply timestamp_at_spec].
Qed.

Lemma search_timestamp_self m rest :
  is_timestamp m = true → search_timestamp (m +:+ rest) = Some m.
Proof.
  intros H.
  assert (timestamp_at (m +:+ rest) = Some m) as E
    by (apply timestamp_at_spec; eauto).
  destruct (m +:+ rest); cbn [search_timestamp]; by rewrite E.
Qed.

(** A time stamp written in ASCII: eight ASCII digits, a hyphen, six
    ASCII digits. *)
Lemma ascii_timestamp_split ts :
  is_timestamp ts = true → Manifest.all_chars Manifest.is_ascii ts = true →
  ∃ d8 d6, ts = d8 +:+ "-" +:+ d6 ∧
           PyStr.eat PyStr.is_digit 8 d8 = Some "" ∧
           PyStr.eat PyStr.is_digit 6 d6 = Some "".
Proof.
  intros (d8 & d6 & -> & E8 & E6)%DocIdFacts.is_timestamp_split Ha.
  rewrite !DocIdFacts.all_chars_split in Ha.
  apply andb_true_iff in Ha as [Ha8 Ha]. apply andb_true_iff in Ha as [_ Ha6].
  exists d8, d6. split; [done|].
  by rewrite <- !DocIdFacts.eat_digits_ascii.
Qed.

End DateKeyFacts.

(** X7. [_date_key]: the key of a name is the leftmost time stamp
    [YYYYMMDD-HHMMSS] that occurs in the name, and the name itself when
    none occurs in it; one of the two holds for every name.  The key of a
    key is the key.  The digits are those of [\d]: any decimal digit of
    Unicode. *)
Theorem date_key_is_first_stamp_or_name (name : string) :
  let stamp := λ ts, DocId.is_timestamp ts = true in
  (∀ ts, DocId.first_match id stamp name ts → IngestRun._date_key name = ts) ∧
  (DocId.no_match id stamp name → IngestRun._date_key name = name) ∧
  ((∃ ts, DocId.first_match id stamp name ts) ∨ DocId.no_match id stamp name) ∧
  IngestRun._date_key (IngestRun._date_key name) = IngestRun._date_key name.
Proof.
  intros stamp. unfold IngestRun._date_key. split_and!.
  - intros ts Hts. apply DateKeyFacts.search_timestamp_first in Hts. by rewrite Hts.
  - intros Hno. apply DateKeyFacts.search_timestamp_none in Hno. by rewrite Hno.
  - destruct (IngestRun.search_timestamp name) as [m|] eqn:E.
    + left. exists m. by apply DateKeyFacts.search_timestamp_first.
    + right. by apply DateKeyFacts.search_timestamp_none.
  - destruct (IngestRun.search_timestamp name) as [m|] eqn:E; [|by rewrite E].
    apply DateKeyFacts.search_timestamp_first in E as (pre & post & _ & Hm & _).
    rewrite <- (ManifestFacts.app_nil_r_s m) at 1.
    by rewrite DateKeyFacts.search_timestamp_self.
Qed.

Lemma date_key_is_first_stamp_or_name_witness :
  IngestRun._date_key "LEGI_20250713-140000.tar.gz" = "20250713-140000" ∧
  IngestRun._date_key "Freemium_legi_global.tar.gz" = "Freemium_legi_global.tar.gz" ∧
  IngestRun._date_key "LEGI_٢٠٢٥٠٧١٣-١٤٠٠٠٠_20250101-000000.tar.gz"
  = "٢٠٢٥٠٧١٣-١٤٠٠٠٠".
Proof.
  split_and!.
  - apply (proj1 (date_key_is_first_stamp_or_name "LEGI_20250713-140000.tar.gz")).
    apply DateKeyFacts.search_timestamp_first. reflexivity.
  - apply (proj1 (proj2 (date_key_is_first_stamp_or_name "Freemium_legi_global.tar.gz"))).
    apply DateKeyFacts.search_timestamp_none. reflexivity.
  - apply (proj1 (date_key_is_first_stamp_or_name
                    "LEGI_٢٠٢٥٠٧١٣-١٤٠٠٠٠_20250101-000000.tar.gz")).
    apply DateKeyFacts.search_timestamp_first. vm_compute. reflexivity.
Defined.

Module ChronologyFacts.

Import IngestRun Chronology DocId.

Lemma digits_value_acc s :
  ∀ acc, digits_value acc s
         = (acc * 10 ^ N.of_nat (String.length s) + digits_value 0 s)%N.
Proof.
  induction s as [|c s IH]; intros acc; cbn [digits_value String.length].
  - cbn. lia.
  - rewrite (IH (10 * acc + _)%N), (IH (10 * 0 + _)%N).
    rewrite Nat2N.inj_succ, N.pow_succ_r'. lia.
Qed.

Lemma digits_value_app u v :
  digits_value 0 (u +:+ v)
  = (digits_value 0 u * 10 ^ N.of_nat (String.length v) + digits_value 0 v)%N.
Proof.
  assert (∀ acc, digits_value acc (u +:+ v) = digits_value (digits_value acc u) v) as H.
  { induction u as [|c u IH]; intros acc; [done|].
    rewrite DocIdFacts.app_cons. cbn [digits_value]. apply IH. }
  rewrite H. apply digits_value_acc.
Qed.

Lemma digit_range c :
  PyStr.is_digit c = true → (N.of_nat (nat_of_ascii c - 48) ≤ 9)%N.
Proof.
  unfold PyStr.is_digit. intros H. apply andb_true_iff in H as [H1 H2].
  apply Nat.leb_le in H1, H2. lia.
Qed.

Lemma digits_value_bound n :
  ∀ s, PyStr.eat PyStr.is_digit n s = Some "" →
       (digits_value 0 s < 10 ^ N.of_nat n)%N.
Proof.
  induction n as [|n IH]; intros s; cbn [PyStr.eat].
  - intros [= ->]. cbn. lia.
  - destruct s as [|c s]; [done|]. destruct (PyStr.is_digit c) eqn:Hc; [|done].
    intros H. cbn [digits_value].
    rewrite digits_value_acc. pose proof (IH s H) as Hb.
    pose proof (digit_range c Hc) as Hd.
    apply DocIdFacts.eat_length in H as ->.
    rewrite Nat2N.inj_succ, N.pow_succ_r'. nia.
Qed.

Lemma compare_lex (P da ra db rb : N) :
  (ra < P)%N → (rb < P)%N →
  ((da * P + ra) ?= (db * P + rb))%N
  = match (da ?= db)%N with Eq => (ra ?= rb)%N | c => c end.
Proof.
  intros Ha Hb. destruct (N.compare_spec da db) as [->|H|H].
  - destruct (N.compare_spec ra rb) as [->|H|H].
    + apply N.compare_refl.
    + apply N.compare_lt_iff. lia.
    + apply N.compare_gt_iff. lia.
  - apply N.compare_lt_iff. nia.
  - apply N.compare_gt_iff. nia.
Qed.

Lemma ascii_compare_digits c d :
  PyStr.is_digit c = true → PyStr.is_digit d = true →
  Ascii.compare c d
  = (N.of_nat (nat_of_ascii c - 48) ?= N.of_nat (nat_of_ascii d - 48))%N.
Proof.
  unfold PyStr.is_digit, Ascii.compare, nat_of_ascii. intros Hc Hd.
  apply andb_true_iff in Hc as [Hc _]. apply andb_true_iff in Hd as [Hd _].
  apply Nat.leb_le in Hc, Hd.
  destruct (N.compare_spec (N_of_ascii c) (N_of_ascii d)) as [E|E|E]; symmetry.
  - rewrite E. apply N.compare_refl.
  - apply N.compare_lt_iff. lia.
  - apply N.compare_gt_iff. lia.
Qed.

(** On strings of as many digits, the order of the strings is the order
    of the numbers. *)
Lemma compare_digits n :
  ∀ a b, PyStr.eat PyStr.is_digit n a = Some "" →
         PyStr.eat PyStr.is_digit n b = Some "" →
         String.compare a b = (digits_value 0 a ?= digits_value 0 b)%N.
Proof.
  induction n as [|n IH]; intros a b; cbn [PyStr.eat].
  - by intros [= ->] [= ->].
  - destruct a as [|c a]; [done|]. destruct b as [|d b]; [done|].
    destruct (PyStr.is_digit c) eqn:Hc; [|done].
    destruct (PyStr.is_digit d) eqn:Hd; [|done].
    intros Ha Hb. cbn [String.compare digits_value].
    rewrite (digits_value_acc a), (digits_value_acc b).
    rewrite (DocIdFacts.eat_length _ _ _ Ha), (DocIdFacts.eat_length _ _ _ Hb).
    rewrite !N.mul_0_r, !N.add_0_l.
    rewrite compare_lex by (by apply digits_value_bound).
    rewrite (ascii_compare_digits c d Hc Hd). by rewrite (IH a b Ha Hb).
Qed.

Lemma compare_app u1 :
  ∀ u2 v1 v2, String.length u1 = String.length u2 →
    String.compare (u1 +:+ v1) (u2 +:+ v2)
    = match String.compare u1 u2 with Eq => String.compare v1 v2 | c => c end.
Proof.
  induction u1 as [|c u1 IH]; intros [|d u2] v1 v2 Hl; try done.
  rewrite !DocIdFacts.app_cons. cbn [String.compare].
  destruct (Ascii.compare c d); [|done|done].
  apply IH. cbn in Hl. lia.
Qed.

Lemma substring_skip u :
  ∀ n v, String.substring (String.length u) n (u +:+ v) = String.substring 0 n v.
Proof. induction u as [|c u IH]; intros n v; [done|]. cbn. apply IH. Qed.

Lemma stamp_number_split d8 d6 :
  PyStr.eat PyStr.is_digit 8 d8 = Some "" →
  PyStr.eat PyStr.is_digit 6 d6 = Some "" →
  stamp_number (d8 +:+ "-" +:+ d6)
  = (digits_value 0 d8 * 10 ^ 6 + digits_value 0 d6)%N.
Proof.
  intros E8 E6. unfold stamp_number.
  assert (String.length d8 = 8) as L8 by (by apply DocIdFacts.eat_length in E8).
  assert (String.length d6 = 6) as L6 by (by apply DocIdFacts.eat_length in E6).
  assert (String.substring 0 8 (d8 +:+ "-" +:+ d6) = d8) as ->.
  { rewrite <- L8. apply DocIdFacts.substring_app_exact. }
  assert (String.substring 9 6 (d8 +:+ "-" +:+ d6) = d6) as ->.
  { rewrite <- DocIdFacts.string_app_assoc.
    replace 9 with (String.length (d8 +:+ "-"))
      by (rewrite DocIdFacts.string_app_length, L8; done).
    rewrite substring_skip. rewrite <- L6.
    rewrite <- (ManifestFacts.app_nil_r_s d6) at 2.
    apply DocIdFacts.substring_app_exact. }
  by rewrite digits_value_app, L6.
Qed.

Lemma compare_stamps t1 t2 :
  is_timestamp t1 = true → is_timestamp t2 = true →
  Manifest.all_chars Manifest.is_ascii t1 = true →
  Manifest.all_chars Manifest.is_ascii t2 = true →
  String.compare t1 t2 = (stamp_number t1 ?= stamp_number t2)%N.
Proof.
  intros H1 H2 Ha1 Ha2.
  destruct (DateKeyFacts.ascii_timestamp_split _ H1 Ha1) as (a8 & a6 & -> & A8 & A6).
  destruct (DateKeyFacts.ascii_timestamp_split _ H2 Ha2) as (b8 & b6 & -> & B8 & B6).
  rewrite !stamp_number_split by done.
  rewrite compare_app
    by (by rewrite (DocIdFacts.eat_length _ _ _ A8), (DocIdFacts.eat_length _ _ _ B8)).
  rewrite (compare_app "-" "-") by done.
  change (String.compare "-" "-") with Eq. cbv beta iota.
  rewrite compare_lex by (by apply (digits_value_bound 6)).
  by rewrite (compare_digits 8 a8 b8), (compare_digits 6 a6 b6).
Qed.

End ChronologyFacts.

(** X8. Sorting by [_date_key] is sorting by time: for two names whose
    time stamp (the leftmost one in the name) is written with ASCII
    digits, the key of the first is at most the key of the second, in the
    order of strings that [sorted] uses, exactly when the date and time of
    the first, read as the number YYYYMMDDHHMMSS, is at most that of the
    second. *)
Theorem date_key_order_is_chronological (n1 n2 t1 t2 : string) :
  let stamp := λ ts, DocId.is_timestamp ts = true in
  DocId.first_match id stamp n1 t1 →
  DocId.first_match id stamp n2 t2 →
  Manifest.all_chars Manifest.is_ascii t1 = true →
  Manifest.all_chars Manifest.is_ascii t2 = true →
  (String.leb (IngestRun._date_key n1) (IngestRun._date_key n2) = true
   ↔ (Chronology.stamp_number t1 ≤ Chronology.stamp_number t2)%N).
Proof.
  intros stamp E1 E2 Ha1 Ha2.
  pose proof E1 as (_ & _ & _ & H1 & _). pose proof E2 as (_ & _ & _ & H2 & _).
  apply DateKeyFacts.search_timestamp_first in E1, E2.
  unfold IngestRun._date_key. rewrite E1, E2.
  unfold String.leb. rewrite (ChronologyFacts.compare_stamps t1 t2 H1 H2 Ha1 Ha2).
  unfold N.le. destruct (Chronology.stamp_number t1 ?= Chronology.stamp_number t2)%N;
    naive_solver.
Qed.

Lemma date_key_order_is_chronological_witness :
  String.leb (IngestRun._date_key "LEGI_20250713-140000.tar.gz")
             (IngestRun._date_key "LEGI_20251231-235959.tar.gz") = true ∧
  Chronology.stamp_number "20250713-140000" = 20250713140000%N.
Proof.
  split; [|reflexivity].
  apply (date_key_order_is_chronological _ _ "20250713-140000" "20251231-235959").
  - apply DateKeyFacts.search_timestamp_first. reflexivity.
  - apply DateKeyFacts.search_timestamp_first. reflexivity.
  - reflexivity.
  - reflexivity.
  - vm_compute. discriminate.
Defined.

Module ArchiveOrderFacts.

Import IngestRun Chronology.

Section Sorting.

Context {A : Type} (key : A → string).

Lemma insert_by_perm x l : insert_by key x l ≡ₚ x :: l.
Proof.
  induction l as [|y l IH]; [done|]. cbn [insert_by].
  destruct (String.leb (key x) (key y)); [done|].
  rewrite IH. apply Permutation_swap.
Qed.

Lemma sorted_perm l : sorted key l ≡ₚ l.
Proof.
  induction l as [|x l IH]; [done|]. cbn [sorted].
  by rewrite insert_by_perm, IH.
Qed.

#[local] Instance key_le_trans : Transitive (key_le key).
Proof. intros a b c. unfold key_le. apply transitivity. Qed.

Lemma insert_by_sorted x l :
  StronglySorted (key_le key) l → StronglySorted (key_le key) (insert_by key x l).
Proof.
  induction 1 as [|y l Hl IH Hy]; cbn [insert_by]; [repeat constructor|].
  destruct (String.leb (key x) (key y)) eqn:E.
  - constructor; [by constructor|].
    assert (key_le key x y) as Hxy by (unfold key_le, String.le; by rewrite E).
    constructor; [done|].
    eapply Forall_impl; [exact Hy|]. intros z Hz. by transitivity y.
  - constructor; [done|].
    rewrite insert_by_perm. constructor; [|done].
    unfold key_le. destruct (total String.le (key y) (key x)) as [H|H]; [done|].
    unfold String.le in H. by rewrite E in H.
Qed.

Lemma sorted_sorted l : StronglySorted (key_le key) (sorted key l).
Proof.
  induction l as [|x l IH]; cbn [sorted]; [constructor|].
  by apply insert_by_sorted.
Qed.

End Sorting.

Lemma after_last_started last l : after_last last true l = l.
Proof. induction l as [|p l IH]; [done|]. cbn. by rewrite IH. Qed.

Lemma after_last_absent last l :
  last ∉ (pa_name <$> l) → after_last last false l = [].
Proof.
  induction l as [|p l IH]; [done|]. cbn [after_last fmap list_fmap].
  intros H. apply not_elem_of_cons in H as [H1 H2].
  destruct (String.eqb_spec (pa_name p) last) as [E|E]; [congruence|].
  by apply IH.
Qed.

Lemma after_last_split last l :
  last ∈ (pa_name <$> l) →
  ∃ pre p post, l = pre ++ p :: post ∧ pa_name p = last ∧
                last ∉ (pa_name <$> pre) ∧ after_last last false l = post.
Proof.
  induction l as [|q l IH]; cbn [after_last fmap list_fmap].
  - intros H. by apply elem_of_nil in H.
  - intros H. destruct (String.eqb_spec (pa_name q) last) as [E|E].
    + exists [], q, l. rewrite after_last_started.
      repeat split; try done. apply not_elem_of_nil.
    + apply elem_of_cons in H as [H|H]; [congruence|].
      destruct (IH H) as (pre & p & post & -> & Hp & Hpre & Hr).
      exists (q :: pre), p, post. repeat split; try done.
      cbn. apply not_elem_of_cons. split; [congruence|done].
Qed.

Lemma glob_names source parent names :
  pa_name <$> glob_tar_gz source parent names
  = filter (λ n, PyStr.endswith n ".tar.gz" = true) names.
Proof.
  unfold glob_tar_gz. rewrite <- list_fmap_compose.
  induction (filter _ names) as [|n l IH]; [done|]. cbn. by rewrite IH.
Qed.

Lemma ltb_not_le a b : String.ltb a b = true → ¬ String.le b a.
Proof.
  unfold String.ltb, String.le, String.leb. rewrite (String.compare_antisym b a).
  destruct (String.compare a b); cbn; try done. auto.
Qed.

End ArchiveOrderFacts.

(** X9. The archives of the init mode: the [.tar.gz] files of the
    [freemium] directory in the order of their names, then those of the
    [incremental] directory in the order of their keys (their time stamps),
    each file once; the state file plays no part. *)
Theorem init_archives_are_sorted
    (listdir : string → string → list string) (st : IngestRun.state) (source : string) :
  let SRC := PyStr.upper source in
  ∃ freemium incr,
    IngestRun._iter_archives listdir st source "init" = freemium ++ incr ∧
    freemium ≡ₚ IngestRun.glob_tar_gz SRC "freemium" (listdir SRC "freemium") ∧
    incr ≡ₚ IngestRun.glob_tar_gz SRC "incremental" (listdir SRC "incremental") ∧
    StronglySorted (Chronology.key_le IngestRun.pa_name) freemium ∧
    StronglySorted
      (Chronology.key_le (λ p, IngestRun._date_key (IngestRun.pa_name p))) incr.
Proof.
  intros SRC. unfold IngestRun._iter_archives. cbn zeta. fold SRC.
  change (String.eqb "init" "init") with true. cbv beta iota.
  eexists _, _. split; [reflexivity|].
  split; [apply ArchiveOrderFacts.sorted_perm|].
  split; [apply ArchiveOrderFacts.sorted_perm|].
  split; apply ArchiveOrderFacts.sorted_sorted.
Qed.

(** X10. The archives of the daily mode are the incremental archives that
    come after the one the state names, in the order of the keys: nothing
    when the state names none or names a file that is no longer there;
    otherwise every archive returned is another incremental archive whose
    key is not before the key of the named one, and every incremental
    archive whose key is after it is returned.  An archive that arrives
    with an earlier time stamp than the last one ingested is never
    returned. *)
Theorem daily_archives_are_those_after_last
    (listdir : string → string → list string) (st : IngestRun.state)
    (source mode : string) :
  let SRC := PyStr.upper source in
  let incr := IngestRun.glob_tar_gz SRC "incremental" (listdir SRC "incremental") in
  let last := IngestRun.ss_last_incremental (IngestRun.source_entry st SRC) in
  let key := λ n, IngestRun._date_key n in
  let r := IngestRun._iter_archives listdir st source mode in
  mode ≠ "init" →
  NoDup (listdir SRC "incremental") →
  (truthy last = false → r = []) ∧
  (∀ l, last = Some l → l ∉ (IngestRun.pa_name <$> incr) → r = []) ∧
  (∀ l p, last = Some l → p ∈ r →
     p ∈ incr ∧ IngestRun.pa_name p ≠ l ∧ String.le (key l) (key (IngestRun.pa_name p))) ∧
  (∀ l p, last = Some l → l ≠ "" → l ∈ (IngestRun.pa_name <$> incr) → p ∈ incr →
     String.ltb (key l) (key (IngestRun.pa_name p)) = true → p ∈ r) ∧
  (∀ l p, last = Some l → p ∈ incr →
     String.ltb (key (IngestRun.pa_name p)) (key l) = true → p ∉ r).
Proof.
  intros SRC incr last key r Hmode Hnd.
  assert (r = match last with
              | Some l => if String.eqb l "" then []
                          else IngestRun.after_last l false
                                 (IngestRun.sorted (λ p, key (IngestRun.pa_name p)) incr)
              | None => []
              end) as Hr.
  { unfold r, IngestRun._iter_archives. cbn zeta. fold SRC.
    destruct (String.eqb_spec mode "init") as [E|E]; [done|]. done. }
  set (srt := IngestRun.sorted (λ p, key (IngestRun.pa_name p)) incr) in *.
  assert (srt ≡ₚ incr) as Hperm by apply ArchiveOrderFacts.sorted_perm.
  assert (StronglySorted (Chronology.key_le (λ p, key (IngestRun.pa_name p))) srt)
    as Hsorted by apply ArchiveOrderFacts.sorted_sorted.
  assert (NoDup (IngestRun.pa_name <$> srt)) as Hnames.
  { rewrite Hperm. unfold incr. rewrite ArchiveOrderFacts.glob_names.
    by apply NoDup_filter. }
  assert (∀ l p, last = Some l → p ∈ r →
            p ∈ incr ∧ IngestRun.pa_name p ≠ l
            ∧ String.le (key l) (key (IngestRun.pa_name p))) as Hsound.
  { intros l p Hl Hp. rewrite Hr, Hl in Hp.
    destruct (String.eqb l ""); [by apply elem_of_nil in Hp|].
    destruct (decide (l ∈ IngestRun.pa_name <$> srt)) as [Hin|Hin].
    2: { rewrite ArchiveOrderFacts.after_last_absent in Hp by done.
         by apply elem_of_nil in Hp. }
    destruct (ArchiveOrderFacts.after_last_split l srt Hin)
      as (pre & q & post & Hs & Hq & Hpre & Ha).
    rewrite Ha in Hp. split; [|split].
    - rewrite <- Hperm, Hs. apply elem_of_app. right. by apply elem_of_cons; right.
    - rewrite Hs, fmap_app, fmap_cons in Hnames.
      apply NoDup_app in Hnames as (_ & _ & Hnames).
      apply NoDup_cons in Hnames as [Hnames _].
      intros E. apply Hnames. rewrite Hq, <- E. by apply list_elem_of_fmap_2.
    - rewrite Hs in Hsorted. apply StronglySorted_app_1_r in Hsorted.
      apply StronglySorted_cons in Hsorted as [Hsorted _].
      rewrite Forall_forall in Hsorted. specialize (Hsorted p Hp).
      unfold Chronology.key_le in Hsorted. by rewrite Hq in Hsorted. }
  split; [|split; [|split; [done|split]]].
  - intros Ht. rewrite Hr. destruct last as [l|]; [|done].
    cbn in Ht. apply negb_false_iff in Ht. by rewrite Ht.
  - intros l Hl Hnot. rewrite Hr, Hl. destruct (String.eqb l ""); [done|].
    apply ArchiveOrderFacts.after_last_absent. by rewrite Hperm.
  - intros l p Hl Hne Hin Hp Hlt. rewrite Hr, Hl.
    apply String.eqb_neq in Hne. rewrite Hne.
    rewrite <- Hperm in Hin, Hp.
    destruct (ArchiveOrderFacts.after_last_split l srt Hin)
      as (pre & q & post & Hs & Hq & Hpre & Ha).
    rewrite Ha. rewrite Hs in Hp.
    apply elem_of_app in Hp as [Hp|Hp].
    + exfalso. apply (ArchiveOrderFacts.ltb_not_le _ _ Hlt).
      rewrite Hs in Hsorted.
      pose proof (StronglySorted_app_1_elem_of _ _ _ p q Hsorted Hp
                    ltac:(by left)) as H.
      unfold Chronology.key_le in H. by rewrite Hq in H.
    + apply elem_of_cons in Hp as [->|Hp]; [|done].
      exfalso. apply (ArchiveOrderFacts.ltb_not_le _ _ Hlt).
      rewrite Hq. reflexivity.
  - intros l p Hl Hp Hlt Hin.
    destruct (Hsound l p Hl Hin) as (_ & _ & Hle).
    by apply (ArchiveOrderFacts.ltb_not_le _ _ Hlt).
Qed.

Lemma daily_archives_are_those_after_last_witness :
  let listdir := λ source parent : string,
    if String.eqb source "LEGI" && String.eqb parent "incremental"
    then ["LEGI_20250103-000000.tar.gz"; "LEGI_20250101-000000.tar.gz";
          "LEGI_20250102-000000.tar.gz"; "notes.txt"]
    else [] in
  let st := {| IngestRun.sources :=
                 {[ "LEGI" := {| IngestRun.ss_last_incremental :=
                                   Some "LEGI_20250102-000000.tar.gz";
                                 IngestRun.ss_initialized := true;
                                 IngestRun.ss_updated_at := None |} ]};
               IngestRun.updated_at := None |} in
  let p n := {| IngestRun.pa_source := "LEGI"; IngestRun.pa_parent := "incremental";
                IngestRun.pa_name := n |} in
  IngestRun._iter_archives listdir st "legi" "daily" = [p "LEGI_20250103-000000.tar.gz"] ∧
  p "LEGI_20250101-000000.tar.gz" ∉ IngestRun._iter_archives listdir st "legi" "daily".
Proof.
  intros listdir st p. split; [reflexivity|].
  refine (proj2 (proj2 (proj2 (proj2
            (daily_archives_are_those_after_last listdir st "legi" "daily" _ _))))
            "LEGI_20250102-000000.tar.gz" (p "LEGI_20250101-000000.tar.gz") _ _ _).
  - discriminate.
  - apply (bool_decide_unpack _). vm_compute. exact I.
  - reflexivity.
  - apply list_elem_of_In. vm_compute. auto.
  - reflexivity.
Defined.

(** ** Runs *)

Module RunFacts.

Import IngestRun RunSpec.

Lemma upper_char_idem c : PyStr.upper_char (PyStr.upper_char c) = PyStr.upper_char c.
Proof. by destruct c as [[] [] [] [] [] [] [] []]. Qed.

Lemma upper_idem s : PyStr.upper (PyStr.upper s) = PyStr.upper s.
Proof.
  induction s as [|c s IH]; [done|]. cbn [PyStr.upper].
  by rewrite upper_char_idem, IH.
Qed.

Lemma source_entry_insert st S e u K :
  source_entry {| sources := <[S := e]> (sources st); updated_at := u |} K
  = if decide (S = K) then e else source_entry st K.
Proof.
  unfold source_entry. cbn [sources]. rewrite lookup_insert. by case_decide.
Qed.

Section WithFiles.

Variable listdir : string → string → list string.
Variable sha256_hexdigest : string → string.
Variable parse_xml : string → string → string + (string * meta).
Variable ilike : string → string → bool.
Variable meta_text : meta → string.
Variable members_of : path → list Ingest.member.
Variable now_isoformat : nat → string.

Abbreviation run_archive :=
  (run_archive sha256_hexdigest parse_xml ilike meta_text members_of now_isoformat).
Abbreviation run_source :=
  (run_source listdir sha256_hexdigest parse_xml ilike meta_text members_of now_isoformat).
Abbreviation run :=
  (run listdir sha256_hexdigest parse_xml ilike meta_text members_of now_isoformat).
Abbreviation table_after :=
  (table_after sha256_hexdigest parse_xml ilike meta_text members_of).
Abbreviation iter_archives := (_iter_archives listdir).

Lemma set_lock_false_true w : w_lock w = false → set_lock false (set_lock true w) = w.
Proof. destruct w. cbn. by intros ->. Qed.

Lemma load_set_lock b w : _load_state (set_lock b w) = _load_state w.
Proof. done. Qed.

Lemma setdefault_agree st S : agree (setdefault_source st S) st.
Proof.
  intros K. unfold setdefault_source, source_entry.
  destruct (sources st !! S) eqn:E; [done|]. cbn [sources].
  rewrite lookup_insert. case_decide as H; [|done]. subst. by rewrite E.
Qed.

(** The loop over the archives of one source. *)
Lemma run_archives_spec mode S archives :
  Forall (λ a, pa_source a = S) archives →
  ∀ w st,
    let r := foldl (run_archive mode S) (w, st) archives in
    w_lock r.1 = w_lock w ∧
    w_ingested r.1 = w_ingested w ++ archives ∧
    w_tbl r.1 = table_after (w_tbl w) archives ∧
    (archives = [] → r = (w, st)) ∧
    (archives ≠ [] → w_state_file r.1 = Some r.2) ∧
    (∀ K, K ≠ S → source_entry r.2 K = source_entry st K) ∧
    ss_initialized (source_entry r.2 S)
    = String.eqb mode "init" && negb (bool_decide (archives = []))
      || ss_initialized (source_entry st S) ∧
    ss_last_incremental (source_entry r.2 S)
    = last_incremental_of archives (ss_last_incremental (source_entry st S)).
Proof.
  induction 1 as [|a archives Ha _ IH]; intros w st.
  - cbn. rewrite app_nil_r, andb_false_r. done.
  - cbn [foldl]. cbn zeta.
    set (r1 := run_archive mode S (w, st) a).
    destruct (IH r1.1 r1.2) as (I1 & I2 & I3 & I4 & I5 & I6 & I7 & I8).
    cbn zeta in *. rewrite <- (surjective_pairing r1) in *.
    rewrite I1, I2, I3, I7, I8. clear I1 I2 I3 I7 I8.
    assert (r1 = run_archive mode S (w, st) a) as Hr1 by done.
    unfold IngestRun.run_archive in Hr1. cbn zeta in Hr1.
    set (e' := {| ss_last_incremental := _ |}) in Hr1.
    assert (source_entry r1.2 S = e') as He.
    { rewrite Hr1. cbn [snd]. rewrite source_entry_insert. by rewrite decide_True. }
    split; [by rewrite Hr1|].
    split; [rewrite Hr1; cbn [fst w_ingested]; by rewrite <- app_assoc|].
    split; [rewrite Hr1; cbn [fst w_tbl table_after foldl]; unfold RunSpec.table_after;
            cbn [foldl]; by rewrite Ha|].
    split; [done|].
    split.
    { intros _. destruct archives as [|b archives].
      - rewrite (I4 eq_refl). by rewrite Hr1.
      - by apply I5. }
    split.
    { intros K HK. rewrite (I6 K HK). rewrite Hr1. cbn [snd].
      rewrite source_entry_insert. by rewrite decide_False. }
    rewrite He. unfold e'. cbn [ss_initialized ss_last_incremental].
    split.
    + rewrite (bool_decide_eq_false_2 (a :: archives = [])) by done.
      destruct (String.eqb mode "init"); cbn; [|done].
      by rewrite orb_true_r.
    + done.
Qed.

(** *** The archives of a source *)

Abbreviation incrementals := (incrementals listdir).

Lemma iter_archives_daily st s mode :
  mode ≠ "init" →
  iter_archives st s mode
  = match ss_last_incremental (source_entry st (PyStr.upper s)) with
    | Some last => if String.eqb last "" then []
                   else after_last last false (incrementals (PyStr.upper s))
    | None => []
    end.
Proof.
  intros Hm. unfold IngestRun._iter_archives. cbn zeta.
  by destruct (String.eqb_spec mode "init").
Qed.

Lemma iter_archives_init st s :
  iter_archives st s "init"
  = sorted pa_name (glob_tar_gz (PyStr.upper s) "freemium"
                      (listdir (PyStr.upper s) "freemium"))
    ++ incrementals (PyStr.upper s).
Proof. done. Qed.

Lemma iter_archives_upper st s mode :
  iter_archives st (PyStr.upper s) mode = iter_archives st s mode.
Proof. unfold IngestRun._iter_archives. cbn zeta. by rewrite upper_idem. Qed.

Lemma iter_archives_ext st st' s mode :
  ss_last_incremental (source_entry st (PyStr.upper s))
  = ss_last_incremental (source_entry st' (PyStr.upper s)) →
  iter_archives st s mode = iter_archives st' s mode.
Proof. intros H. unfold IngestRun._iter_archives. cbn zeta. by rewrite H. Qed.

Lemma glob_source S parent names :
  Forall (λ a, pa_source a = S ∧ pa_parent a = parent) (glob_tar_gz S parent names).
Proof.
  unfold glob_tar_gz. apply Forall_fmap.
  induction (filter _ names); constructor; done.
Qed.

Lemma after_last_suffix last b l : ∃ pre, l = pre ++ after_last last b l.
Proof.
  revert b. induction l as [|p l IH]; intros b; [by exists []|].
  cbn [after_last]. destruct b.
  - exists []. by rewrite ArchiveOrderFacts.after_last_started.
  - destruct (IH (String.eqb (pa_name p) last)) as [pre Hpre].
    exists (p :: pre). cbn. by rewrite <- Hpre.
Qed.

Lemma incrementals_spec S :
  Forall (λ a, pa_source a = S ∧ pa_parent a = "incremental") (incrementals S).
Proof.
  unfold incrementals. rewrite ArchiveOrderFacts.sorted_perm. apply glob_source.
Qed.

Lemma iter_archives_source st s mode :
  Forall (λ a, pa_source a = PyStr.upper s) (iter_archives st s mode).
Proof.
  destruct (String.eqb_spec mode "init") as [->|Hm].
  - rewrite iter_archives_init. apply Forall_app. split.
    + rewrite ArchiveOrderFacts.sorted_perm.
      eapply Forall_impl; [apply glob_source|]. by intros a [? ?].
    + eapply Forall_impl; [apply incrementals_spec|]. by intros a [? ?].
  - rewrite iter_archives_daily by done.
    destruct (ss_last_incremental _) as [last|]; [|constructor].
    destruct (String.eqb last ""); [constructor|].
    destruct (after_last_suffix last false (incrementals (PyStr.upper s))) as [pre Hpre].
    pose proof (incrementals_spec (PyStr.upper s)) as H.
    rewrite Hpre in H. apply Forall_app in H as [_ H].
    eapply Forall_impl; [exact H|]. by intros a [? ?].
Qed.

Lemma last_incremental_of_app A B d :
  last_incremental_of (A ++ B) d = last_incremental_of B (last_incremental_of A d).
Proof. unfold last_incremental_of. by rewrite foldl_app. Qed.


Lemma last_incremental_of_all A d :
  Forall (λ a, PyStr.contains (pa_parent a) "incremental" = true) A →
  last_incremental_of A d
  = match last A with Some a => Some (pa_name a) | None => d end.
Proof.
  intros H. induction A as [|a A IH] using rev_ind; [done|].
  apply Forall_app in H as [HA Ha]. rewrite Forall_singleton in Ha.
  rewrite last_incremental_of_app, last_snoc. cbn. by rewrite Ha.
Qed.

Lemma after_last_of_last l z :
  NoDup (pa_name <$> l) → last l = Some z → after_last (pa_name z) false l = [].
Proof.
  intros Hnd Hz.
  apply last_Some in Hz as [xs ->].
  destruct (ArchiveOrderFacts.after_last_split (pa_name z) (xs ++ [z]))
    as (pre & q & post & Hs & Hq & Hpre & ->).
  { rewrite fmap_app. apply elem_of_app. right. cbn. by left. }
  destruct post as [|y post _] using rev_ind; [done|]. exfalso.
  rewrite app_comm_cons, app_assoc in Hs.
  apply app_inj_tail in Hs as [-> ->].
  rewrite fmap_app in Hnd.
  apply NoDup_app in Hnd as (Hnd & Hdisj & _).
  apply (Hdisj (pa_name q)).
  - rewrite fmap_app, fmap_cons. apply elem_of_app. right. by left.
  - rewrite Hq. cbn. by left.
Qed.

Lemma incrementals_nodup S :
  NoDup (listdir S "incremental") → NoDup (pa_name <$> incrementals S).
Proof.
  intros H. unfold incrementals. rewrite ArchiveOrderFacts.sorted_perm.
  rewrite ArchiveOrderFacts.glob_names. by apply NoDup_filter.
Qed.

Lemma quiet_of_last st s :
  NoDup (listdir (PyStr.upper s) "incremental") →
  incrementals (PyStr.upper s) = []
  ∨ (∃ z, last (incrementals (PyStr.upper s)) = Some z ∧
          ss_last_incremental (source_entry st (PyStr.upper s)) = Some (pa_name z)) →
  iter_archives st s "daily" = [].
Proof.
  intros Hnd H. rewrite iter_archives_daily by done.
  destruct H as [->|(z & Hz & ->)].
  - destruct (ss_last_incremental _) as [l|]; [|done]. by destruct (String.eqb l "").
  - destruct (String.eqb (pa_name z) ""); [done|].
    apply after_last_of_last; [|done]. by apply incrementals_nodup.
Qed.

Lemma last_suffix {A} (pre l : list A) : l ≠ [] → last (pre ++ l) = last l.
Proof.
  intros H. destruct l as [|x l _] using rev_ind; [done|].
  by rewrite app_assoc, !last_snoc.
Qed.

(** The loop body for one source. *)
Lemma run_source_spec mode s w st :
  NoDup (listdir (PyStr.upper s) "incremental") →
  agree st (_load_state w) →
  let r := run_source mode (w, st) s in
  let A := iter_archives (_load_state w) s mode in
  w_lock r.1 = w_lock w ∧
  w_ingested r.1 = w_ingested w ++ A ∧
  w_tbl r.1 = table_after (w_tbl w) A ∧
  agree r.2 (_load_state r.1) ∧
  (A = [] → r.1 = w) ∧
  (∀ K, K ≠ PyStr.upper s →
        source_entry (_load_state r.1) K = source_entry (_load_state w) K) ∧
  ss_initialized (source_entry (_load_state r.1) (PyStr.upper s))
  = String.eqb mode "init" && negb (bool_decide (A = []))
    || ss_initialized (source_entry (_load_state w) (PyStr.upper s)) ∧
  iter_archives (_load_state r.1) s "daily" = [] ∧
  ss_last_incremental (source_entry (_load_state r.1) (PyStr.upper s))
  = last_incremental_of A
      (ss_last_incremental (source_entry (_load_state w) (PyStr.upper s))).
Proof.
  intros Hnd Hag r A.
  set (S := PyStr.upper s) in *.
  set (st0 := setdefault_source st S).
  assert (agree st0 (_load_state w)) as Hag0.
  { intros K. unfold st0. by rewrite setdefault_agree. }
  assert (r = foldl (run_archive mode S) (w, st0) A) as Hr.
  { unfold r, A, st0, S, IngestRun.run_source. cbn zeta.
    by rewrite iter_archives_upper. }
  destruct (run_archives_spec mode S A (iter_archives_source _ _ _) w st0)
    as (R1 & R2 & R3 & R4 & R5 & R6 & R7 & R8).
  cbn zeta in *. rewrite <- Hr in *. clear Hr.
  split; [done|]. split; [done|]. split; [done|].
  destruct (decide (A = [])) as [HA|HA].
  - rewrite (R4 HA) in *. cbn [fst snd] in *.
    split; [done|]. split; [done|]. split; [done|].
    split; [rewrite bool_decide_eq_true_2 by done; by rewrite andb_false_r|].
    split; [|by rewrite HA].
    destruct (String.eqb_spec mode "init") as [->|Hm].
    + apply quiet_of_last; [done|]. left.
      unfold A in HA. rewrite iter_archives_init in HA.
      by apply app_eq_nil in HA as [_ HA].
    + unfold A in HA. by rewrite !iter_archives_daily in * by done.
  - specialize (R5 HA).
    assert (_load_state r.1 = r.2) as Hl by (unfold _load_state; by rewrite R5).
    rewrite Hl.
    split; [done|]. split; [done|].
    split; [intros K HK; by rewrite (R6 K HK), Hag0|].
    split; [by rewrite R7, Hag0|].
    split; [|by rewrite R8, Hag0].
    apply quiet_of_last; [done|]. fold S. rewrite R8.
    destruct (String.eqb_spec mode "init") as [->|Hm].
    + unfold A. rewrite iter_archives_init. fold S.
      rewrite last_incremental_of_app.
      rewrite (last_incremental_of_all (incrementals S)).
      2: { eapply Forall_impl; [apply incrementals_spec|]. by intros a [_ ->]. }
      destruct (last (incrementals S)) as [z|] eqn:Hz; [right; eauto|].
      left. by apply last_None.
    + right. unfold A in *. rewrite iter_archives_daily in * by done. fold S in HA |- *.
      destruct (ss_last_incremental (source_entry (_load_state w) S)) as [l|]; [|done].
      destruct (String.eqb l ""); [done|].
      destruct (after_last_suffix l false (incrementals S)) as [pre Hpre].
      set (B := after_last l false (incrementals S)) in *.
      rewrite (last_incremental_of_all B).
      2: { pose proof (incrementals_spec S) as H. rewrite Hpre in H.
           apply Forall_app in H as [_ H].
           eapply Forall_impl; [exact H|]. by intros a [_ ->]. }
      assert (last (incrementals S) = last B) as ->
        by (rewrite Hpre at 1; by apply last_suffix).
      destruct (last B) as [z|] eqn:Hz; [eauto|].
      by apply last_None in Hz.
Qed.

Lemma iter_archives_same_key st s s' mode :
  PyStr.upper s = PyStr.upper s' →
  iter_archives st s mode = iter_archives st s' mode.
Proof.
  intros H. by rewrite <- (iter_archives_upper st s), <- (iter_archives_upper st s'), H.
Qed.

(** The loop over the sources. *)
Lemma run_sources_spec mode sources :
  (∀ S, NoDup (listdir S "incremental")) →
  ∀ w st, agree st (_load_state w) →
    let r := foldl (run_source mode) (w, st) sources in
    w_lock r.1 = w_lock w ∧
    agree r.2 (_load_state r.1) ∧
    (∀ s, s ∈ sources ∨ iter_archives (_load_state w) s "daily" = [] →
          iter_archives (_load_state r.1) s "daily" = []) ∧
    (mode ≠ "init" →
     ∀ K, ss_initialized (source_entry (_load_state r.1) K)
          = ss_initialized (source_entry (_load_state w) K)).
Proof.
  intros Hnd. induction sources as [|s sources IH]; intros w st Hag.
  - cbn. split; [done|]. split; [done|]. split; [|done].
    intros s [H|H]; [by apply elem_of_nil in H|done].
  - cbn [foldl]. cbn zeta.
    destruct (run_source_spec mode s w st (Hnd _) Hag)
      as (S1 & _ & _ & S4 & _ & S6 & S7 & S8 & _).
    cbn zeta in *.
    set (r1 := run_source mode (w, st) s) in *.
    destruct (IH r1.1 r1.2 S4) as (I1 & I2 & I3 & I4).
    cbn zeta in *. rewrite <- (surjective_pairing r1) in *.
    split; [by rewrite I1|]. split; [done|]. split.
    + intros s0 H. apply I3.
      destruct (decide (PyStr.upper s0 = PyStr.upper s)) as [E|E].
      { right. by rewrite (iter_archives_same_key _ s0 s). }
      destruct H as [H|H].
      * apply elem_of_cons in H as [->|H]; [done|]. by left.
      * right. rewrite <- H. apply iter_archives_ext. by rewrite (S6 _ E).
    + intros Hm K. rewrite (I4 Hm K).
      destruct (decide (K = PyStr.upper s)) as [->|E]; [|by rewrite (S6 _ E)].
      rewrite S7. apply String.eqb_neq in Hm. by rewrite Hm.
Qed.

Lemma run_sources_quiet sources :
  ∀ w st,
    (∀ s, s ∈ sources → iter_archives (_load_state w) s "daily" = []) →
    (foldl (run_source "daily") (w, st) sources).1 = w.
Proof.
  induction sources as [|s sources IH]; intros w st H; [done|].
  cbn [foldl].
  assert (run_source "daily" (w, st) s = (w, setdefault_source st (PyStr.upper s))) as ->.
  { unfold IngestRun.run_source. cbn zeta.
    rewrite iter_archives_upper, H by (by left). done. }
  apply IH. intros s' Hs'. apply H. by right.
Qed.

(** What the loop over distinct sources ingests. *)
Lemma run_sources_ingested mode sources :
  (∀ S, NoDup (listdir S "incremental")) →
  NoDup (PyStr.upper <$> sources) →
  ∀ w st, agree st (_load_state w) →
    let r := foldl (run_source mode) (w, st) sources in
    let archives := concat ((λ s, iter_archives (_load_state w) s mode) <$> sources) in
    w_ingested r.1 = w_ingested w ++ archives ∧
    w_tbl r.1 = table_after (w_tbl w) archives.
Proof.
  intros Hnd. induction sources as [|s sources IH]; intros Hs w st Hag.
  - cbn. by rewrite app_nil_r.
  - cbn [foldl fmap list_fmap concat]. cbn zeta.
    cbn [fmap list_fmap] in Hs. apply NoDup_cons in Hs as [Hs1 Hs2].
    destruct (run_source_spec mode s w st (Hnd _) Hag)
      as (_ & S2 & S3 & S4 & _ & S6 & _).
    cbn zeta in *.
    set (r1 := run_source mode (w, st) s) in *.
    destruct (IH Hs2 r1.1 r1.2 S4) as (I1 & I2).
    cbn zeta in *. rewrite <- (surjective_pairing r1) in *.
    assert ((λ s0, iter_archives (_load_state r1.1) s0 mode) <$> sources
            = (λ s0, iter_archives (_load_state w) s0 mode) <$> sources) as E.
    { apply list_fmap_ext. intros i s0 Hi. apply iter_archives_ext.
      rewrite S6; [done|]. intros E. apply Hs1. rewrite <- E.
      apply list_elem_of_fmap_2. by eapply list_elem_of_lookup_2. }
    rewrite E in I1, I2. rewrite I1, I2, S2, S3.
    split; [by rewrite app_assoc|].
    unfold RunSpec.table_after. by rewrite foldl_app.
Qed.


Lemma run_cases mode sources w :
  (w_lock w = true ∧ run mode sources w = (2, w))
  ∨ (w_lock w = false ∧ mode = "daily" ∧
     (∃ s, s ∈ sources ∧ ss_initialized (source_entry (_load_state w) s) = false) ∧
     run mode sources w = (3, w))
  ∨ (w_lock w = false ∧
     (mode = "daily" →
      ∀ s, s ∈ sources → ss_initialized (source_entry (_load_state w) s) = true) ∧
     run mode sources w
     = (0, set_lock false
             (foldl (run_source mode) (set_lock true w, _load_state w) sources).1)).
Proof.
  unfold IngestRun.run. destruct (w_lock w) eqn:Hl; [by left|right].
  rewrite load_set_lock.
  set (missing := filter _ sources).
  destruct (String.eqb_spec mode "daily") as [->|Hm]; cbn [andb].
  - destruct (decide (missing = [])) as [E|E].
    + right. rewrite bool_decide_eq_true_2 by done. cbn [negb].
      split; [done|]. split.
      * intros _ s Hs. destruct (ss_initialized _) eqn:Hi; [done|].
        assert (s ∈ missing) as Hin by (by apply list_elem_of_filter).
        rewrite E in Hin. by apply elem_of_nil in Hin.
      * by destruct (foldl _ _ sources).
    + left. rewrite bool_decide_eq_false_2 by done. cbn [negb].
      split; [done|]. split; [done|]. split.
      * destruct missing as [|s m] eqn:Em; [done|].
        assert (s ∈ missing) as Hin by (rewrite Em; by left).
        apply list_elem_of_filter in Hin as [? ?]. eauto.
      * by rewrite set_lock_false_true.
  - right. split; [done|]. split; [done|]. by destruct (foldl _ _ sources).
Qed.

End WithFiles.

End RunFacts.



(** X12. The guard of the daily mode: with the lock free, a daily run
    returns 3 exactly when one of the sources is not marked as initialised
    in the state file, and then the table, the state file and the list of
    ingested archives are as before; the init mode never returns 3. *)
Theorem daily_run_requires_init
    (listdir : string → string → list string)
    (sha256_hexdigest : string → string)
    (parse_xml : string → string → string + (string * meta))
    (ilike : string → string → bool) (meta_text : meta → string)
    (members_of : IngestRun.path → list Ingest.member)
    (now_isoformat : nat → string)
    (mode : string) (sources : list string) (w : IngestRun.world) :
  let r := IngestRun.run listdir sha256_hexdigest parse_xml ilike meta_text
             members_of now_isoformat mode sources w in
  IngestRun.w_lock w = false →
  (r.1 = 3 ↔
   mode = "daily" ∧
   ∃ s, s ∈ sources ∧
        IngestRun.ss_initialized
          (IngestRun.source_entry (IngestRun._load_state w) s) = false) ∧
  (r.1 = 3 → r.2 = w).
Proof.
  intros r Hfree.
  destruct (RunFacts.run_cases listdir sha256_hexdigest parse_xml ilike meta_text
              members_of now_isoformat mode sources w)
    as [[Hl Hr]|[(Hl & Hm & Hs & Hr)|(Hl & Hi & Hr)]]; fold r in Hr; rewrite Hr.
  - congruence.
  - by split.
  - cbn [fst]. split; [|done]. split; [done|].
    intros (Hm & s & Hs & Hn). by rewrite (Hi Hm s Hs) in Hn.
Qed.

Lemma daily_run_requires_init_witness :
  let w := {| IngestRun.w_lock := false; IngestRun.w_state_file := None;
              IngestRun.w_tbl := []; IngestRun.w_ingested := [];
              IngestRun.w_clock := 0 |} in
  IngestRun.run (λ _ _, ["LEGI_20250101-000000.tar.gz"]) (λ s, s)
    (λ _ _, inl "XMLSyntaxError") (λ _ _, false) (λ _, "") (λ _, []) (λ _, "now")
    "daily" ["LEGI"] w = (3, w).
Proof.
  intros w.
  pose proof (daily_run_requires_init (λ _ _, ["LEGI_20250101-000000.tar.gz"]) (λ s, s)
                (λ _ _, inl "XMLSyntaxError") (λ _ _, false) (λ _, "") (λ _, [])
                (λ _, "now") "daily" ["LEGI"] w eq_refl) as [_ H].
  rewrite <- (H eq_refl) at 2. reflexivity.
Defined.

(** X13. Nothing new, nothing done: after any run, a daily run over the
    same sources with the archive directories unchanged leaves everything
    as the first run left it (table, state file, archives ingested); and a
    daily run repeated gives the same exit code again. *)
Theorem daily_run_after_a_run_is_idle
    (listdir : string → string → list string)
    (sha256_hexdigest : string → string)
    (parse_xml : string → string → string + (string * meta))
    (ilike : string → string → bool) (meta_text : meta → string)
    (members_of : IngestRun.path → list Ingest.member)
    (now_isoformat : nat → string)
    (mode : string) (sources : list string) (w : IngestRun.world) :
  let run := IngestRun.run listdir sha256_hexdigest parse_xml ilike meta_text
               members_of now_isoformat in
  (∀ S, NoDup (listdir S "incremental")) →
  (run "daily" sources (run mode sources w).2).2 = (run mode sources w).2 ∧
  (mode = "daily" → run "daily" sources (run mode sources w).2 = run mode sources w).
Proof.
  intros run Hnd.
  pose proof (RunFacts.run_cases listdir sha256_hexdigest parse_xml ilike meta_text
                members_of now_isoformat) as Hcases.
  destruct (Hcases mode sources w)
    as [[Hl Hr]|[(Hl & Hm & Hs & Hr)|(Hl & Hi & Hr)]]; fold run in Hr; rewrite Hr;
    cbn [fst snd].
  - destruct (Hcases "daily" sources w) as [[_ H]|[(H & _)|(H & _)]]; try congruence.
    fold run in H. rewrite H. split; [done|]. by intros ->.
  - subst mode. by rewrite Hr.
  - set (r := foldl _ _ sources) in *.
    destruct (RunFacts.run_sources_spec listdir sha256_hexdigest parse_xml ilike
                meta_text members_of now_isoformat mode sources Hnd
                (IngestRun.set_lock true w) (IngestRun._load_state w))
      as (R1 & _ & R3 & R4).
    { intros K. by rewrite RunFacts.load_set_lock. }
    cbn zeta in *. fold r in R1, R3, R4.
    set (w1 := IngestRun.set_lock false r.1).
    assert (∀ s, s ∈ sources →
              IngestRun._iter_archives listdir (IngestRun._load_state w1) s "daily" = [])
      as Hquiet.
    { intros s Hs. unfold w1. rewrite RunFacts.load_set_lock. apply R3. by left. }
    assert (∀ st, IngestRun.set_lock false
              (foldl (IngestRun.run_source listdir sha256_hexdigest parse_xml ilike
                        meta_text members_of now_isoformat "daily")
                     (IngestRun.set_lock true w1, st) sources).1 = w1) as Hidle.
    { intros st. rewrite RunFacts.run_sources_quiet.
      - by apply RunFacts.set_lock_false_true.
      - intros s Hs. rewrite RunFacts.load_set_lock. by apply Hquiet. }
    destruct (Hcases "daily" sources w1)
      as [[Hl1 _]|[(_ & _ & Hs1 & Hr1)|(_ & _ & Hr1)]]; [done| |];
      fold run in Hr1; rewrite Hr1; cbn [snd].
    + split; [done|]. intros ->. exfalso.
      destruct Hs1 as (s & Hs & Hn).
      unfold w1 in Hn. rewrite RunFacts.load_set_lock in Hn.
      rewrite (R4 ltac:(done)) in Hn. rewrite RunFacts.load_set_lock in Hn.
      by rewrite (Hi eq_refl s Hs) in Hn.
    + rewrite Hidle. split; [done|]. done.
Qed.

Lemma daily_run_after_a_run_is_idle_witness :
  let listdir := λ (_ parent : string),
    if String.eqb parent "incremental"
    then ["LEGI_20250102-000000.tar.gz"; "LEGI_20250101-000000.tar.gz"]
    else ["Freemium_legi_global_20250713-140000.tar.gz"] in
  let run := IngestRun.run listdir (λ s, s) (λ _ _, inl "XMLSyntaxError")
               (λ _ _, false) (λ _, "") (λ _, []) (λ _, "now") in
  let w := {| IngestRun.w_lock := false; IngestRun.w_state_file := None;
              IngestRun.w_tbl := []; IngestRun.w_ingested := [];
              IngestRun.w_clock := 0 |} in
  (run "daily" ["LEGI"] (run "init" ["LEGI"] w).2).2 = (run "init" ["LEGI"] w).2 ∧
  IngestRun.pa_name <$> IngestRun.w_ingested (run "init" ["LEGI"] w).2
  = ["Freemium_legi_global_20250713-140000.tar.gz"; "LEGI_20250101-000000.tar.gz";
     "LEGI_20250102-000000.tar.gz"].
Proof.
  intros listdir run w. split; [|reflexivity].
  apply (daily_run_after_a_run_is_idle listdir (λ s, s) (λ _ _, inl "XMLSyntaxError")
           (λ _ _, false) (λ _, "") (λ _, []) (λ _, "now") "init" ["LEGI"] w).
  intros S. apply (bool_decide_unpack _). vm_compute. exact I.
Defined.



(** X15. What a run ingests: when the run returns 0 and the sources are
    different (also after upper-casing), the archives handed to
    [ingest_archive] are, source after source, the archives
    [_iter_archives] gives for the state file as it was before the run,
    and the table is the result of ingesting them in this order, each
    with its key as [updated_at]. *)
Theorem run_ingests_the_archives_of_each_source
    (listdir : string → string → list string)
    (sha256_hexdigest : string → string)
    (parse_xml : string → string → string + (string * meta))
    (ilike : string → string → bool) (meta_text : meta → string)
    (members_of : IngestRun.path → list Ingest.member)
    (now_isoformat : nat → string)
    (mode : string) (sources : list string) (w : IngestRun.world) :
  let r := IngestRun.run listdir sha256_hexdigest parse_xml ilike meta_text
             members_of now_isoformat mode sources w in
  let archives :=
    concat ((λ s, IngestRun._iter_archives listdir (IngestRun._load_state w) s mode)
              <$> sources) in
  (∀ S, NoDup (listdir S "incremental")) →
  NoDup (PyStr.upper <$> sources) →
  r.1 = 0 →
  IngestRun.w_ingested r.2 = IngestRun.w_ingested w ++ archives ∧
  IngestRun.w_tbl r.2
  = RunSpec.table_after sha256_hexdigest parse_xml ilike meta_text members_of
      (IngestRun.w_tbl w) archives.
Proof.
  intros r archives Hnd Hsrc Hrc.
  destruct (RunFacts.run_cases listdir sha256_hexdigest parse_xml ilike meta_text
              members_of now_isoformat mode sources w)
    as [[_ Hr]|[(_ & _ & _ & Hr)|(_ & _ & Hr)]]; fold r in Hr; rewrite Hr in *;
    try discriminate Hrc.
  cbn [snd].
  destruct (RunFacts.run_sources_ingested listdir sha256_hexdigest parse_xml ilike
              meta_text members_of now_isoformat mode sources Hnd Hsrc
              (IngestRun.set_lock true w) (IngestRun._load_state w)
              ltac:(intros K; by rewrite RunFacts.load_set_lock)) as [H1 H2].
  cbn zeta in H1, H2. rewrite RunFacts.load_set_lock in H1, H2.
  split; [exact H1 | exact H2].
Qed.

Lemma run_ingests_the_archives_of_each_source_witness :
  let listdir := λ (source parent : string),
    if String.eqb parent "incremental"
    then ["inc_20250102-000000.tar.gz"; "inc_20250101-000000.tar.gz"]
    else [] in
  let w := {| IngestRun.w_lock := false; IngestRun.w_state_file := None;
              IngestRun.w_tbl := []; IngestRun.w_ingested := [];
              IngestRun.w_clock := 0 |} in
  let r := IngestRun.run listdir (λ s, s) (λ _ _, inl "XMLSyntaxError")
             (λ _ _, false) (λ _, "") (λ _, []) (λ _, "now") "init" ["legi"; "jorf"] w in
  r.1 = 0 ∧
  (λ a, (IngestRun.pa_source a, IngestRun.pa_name a)) <$> IngestRun.w_ingested r.2
  = [("LEGI", "inc_20250101-000000.tar.gz"); ("LEGI", "inc_20250102-000000.tar.gz");
     ("JORF", "inc_20250101-000000.tar.gz"); ("JORF", "inc_20250102-000000.tar.gz")].
Proof.
  intros listdir w r. split; [reflexivity|].
  unfold r.
  rewrite (proj1 (run_ingests_the_archives_of_each_source listdir (λ s, s)
                    (λ _ _, inl "XMLSyntaxError") (λ _ _, false) (λ _, "") (λ _, [])
                    (λ _, "now") "init" ["legi"; "jorf"] w
                    ltac:(intros S; apply (bool_decide_unpack _); vm_compute; exact I)
                    ltac:(apply (bool_decide_unpack _); vm_compute; exact I)
                    eq_refl)).
  reflexivity.
Defined.

(** ** Counting the nodes of a tree *)

Module TreeCountFacts.

Import Trees TreeCount Assembly TreeSpec.

(** The equations of the two functions of the script. *)
Lemma sections_below_eq n :
  sections_below n
  = match n_children n with
    | Some children => count_sections_in_tree children
    | None => 0
    end.
Proof. by destruct n as [? ? ? ? [children|] ?]. Qed.

Lemma articles_under_eq n :
  articles_under n
  = match n_articles n with Some arts => length arts | None => 0 end
    + match n_children n with
      | Some children => count_articles_in_tree children
      | None => 0
      end.
Proof. by destruct n as [? ? ? ? [children|] ?]. Qed.

Lemma count_sections_cons n tree :
  count_sections_in_tree (n :: tree)
  = S (sections_below n) + count_sections_in_tree tree.
Proof. unfold count_sections_in_tree. cbn [length foldr]. lia. Qed.

Lemma count_articles_cons n tree :
  count_articles_in_tree (n :: tree) = articles_under n + count_articles_in_tree tree.
Proof. done. Qed.

Lemma count_bound_forall tree :
  Forall (λ n, articles_under n ≤ article_cap * S (sections_below n)) tree →
  count_articles_in_tree tree ≤ article_cap * count_sections_in_tree tree.
Proof.
  induction 1 as [|n tree Hn _ IH]; [cbn; lia|].
  rewrite count_sections_cons, count_articles_cons. lia.
Qed.

Lemma nonempty_take_length {A} (l : list A) arts :
  nonempty (take article_cap l) = Some arts → length arts ≤ article_cap.
Proof.
  intros H. apply AssemblyFacts.nonempty_Some in H as [-> _].
  rewrite length_take. lia.
Qed.

(** A node that [build_node_from_memory] returns holds at most
    [article_cap] articles for each of its sections. *)
Lemma build_node_rec_articles fuel :
  ∀ all_sections section_id cd md n,
    build_node_rec fuel all_sections section_id cd md = Ok (Some n) →
    articles_under n ≤ article_cap * S (sections_below n).
Proof.
  induction fuel as [|fuel IH]; intros all_sections section_id cd md n H; [done|].
  apply AssemblyFacts.build_node_rec_Some in H
    as (_ & section & _ & _ & Harts & Hch).
  rewrite articles_under_eq, sections_below_eq.
  assert (match n_articles n with Some arts => length arts | None => 0 end
          ≤ article_cap) as Ha.
  { destruct (n_articles n) as [arts|] eqn:E; [|lia].
    symmetry in Harts. by apply nonempty_take_length in Harts. }
  destruct (n_children n) as [l|]; [|lia].
  destruct (Hch l eq_refl) as (_ & _ & Hl).
  assert (count_articles_in_tree l ≤ article_cap * count_sections_in_tree l) as Hc.
  { apply count_bound_forall. eapply Forall_impl; [exact Hl|].
    intros c (ss & i & _ & _ & _ & Hb). by eapply IH. }
  lia.
Qed.

Lemma for_roots_ok build ids :
  (∀ i, ∃ r, build i = Ok r) →
  ∀ acc, ∃ res, for_roots build ids acc = Ok res.
Proof.
  intros Hb. induction ids as [|i ids IH]; intros acc; cbn [for_roots]; [eauto|].
  destruct (Hb i) as [[c|] ->]; apply IH.
Qed.

Lemma loaded_refs_have_id tbl code_id :
  table_refs_have_id tbl → refs_have_id (loaded tbl code_id).
Proof.
  intros Htbl k section Hk.
  apply LatestFacts.loaded_entries in Hk as (_ & d & -> & _ & Hd).
  assert (d ∈ tbl) as Hin.
  { destruct Hd as [(H & _)|(ids & H & _)]; exact H. }
  unfold table_refs_have_id in Htbl. rewrite Forall_forall in Htbl.
  exact (Htbl d Hin).
Qed.

End TreeCountFacts.

(** X16. The tree builder cannot fail on a well-formed table: when every
    child reference stored in the [documents] table carries the key [id],
    [build_tree_optimized] returns (a payload, or nothing when the code is
    unknown) and raises no exception. *)
Theorem build_tree_returns_when_refs_have_id (tbl : list document) (code_id : string) :
  TreeSpec.table_refs_have_id tbl →
  ∃ r, (Trees.build_tree_optimized tbl code_id).1 = Ok r.
Proof.
  intros Htbl. unfold Trees.build_tree_optimized.
  destruct (Trees.select_code tbl code_id) as [[titre_code nature]|]; [|by eexists].
  cbn [fst].
  pose proof (TreeCountFacts.loaded_refs_have_id tbl code_id Htbl) as Hrefs.
  unfold Assembly.loaded in Hrefs.
  set (st := Trees.wave_loop Trees.max_waves tbl (Trees.after_roots tbl code_id)) in *.
  generalize (Trees.s_id <$> Trees.select_roots tbl code_id). intros root_ids.
  assert (∀ i, ∃ r, Trees.build_node_from_memory (Trees.all_sections st) i 1
                      Trees.max_depth = Ok r) as Hb.
  { intros i. apply AssemblyFacts.build_node_rec_ok; [done|lia]. }
  destruct (TreeCountFacts.for_roots_ok _ root_ids Hb []) as [res ->].
  by eexists.
Qed.

Lemma build_tree_returns_when_refs_have_id_witness :
  ∃ r, (Trees.build_tree_optimized Sample.binary_tree Sample.code).1 = Ok r.
Proof.
  apply build_tree_returns_when_refs_have_id.
  unfold TreeSpec.table_refs_have_id.
  apply (bool_decide_unpack _). vm_compute. exact I.
Defined.

(** X17. The counts stored with a cached tree: [count_sections_in_tree]
    counts every node of the tree (the roots and everything below them) and
    [count_articles_in_tree] every article entry; for a tree that
    [build_tree_optimized] returns, the number of articles is at most
    [article_cap = 500] times the number of sections, and the number of
    sections is at least the number of roots. *)
Theorem cached_article_count_is_bounded
    (tbl : list document) (code_id : string) (p : Trees.payload) :
  (Trees.build_tree_optimized tbl code_id).1 = Ok (Some p) →
  TreeCount.count_articles_in_tree (Trees.p_tree p)
  ≤ Trees.article_cap * TreeCount.count_sections_in_tree (Trees.p_tree p) ∧
  length (Trees.p_tree p) ≤ TreeCount.count_sections_in_tree (Trees.p_tree p).
Proof.
  intros H. split; [|unfold TreeCount.count_sections_in_tree; lia].
  destruct (Trees.build_tree_optimized tbl code_id) as [res qs] eqn:E.
  cbn [fst] in H. subst res.
  apply AssemblyFacts.build_tree_nodes in E.
  apply TreeCountFacts.count_bound_forall.
  eapply Forall_impl; [exact E|]. intros n [i Hn].
  unfold Trees.build_node_from_memory in Hn.
  by eapply TreeCountFacts.build_node_rec_articles.
Qed.

Lemma cached_article_count_is_bounded_witness :
  ∃ p, (Trees.build_tree_optimized Sample.binary_tree Sample.code).1 = Ok (Some p) ∧
       TreeCount.count_articles_in_tree (Trees.p_tree p)
       ≤ Trees.article_cap * TreeCount.count_sections_in_tree (Trees.p_tree p).
Proof.
  destruct (Trees.build_tree_optimized Sample.binary_tree Sample.code).1
    as [[p|]| |] eqn:E; try (vm_compute in E; discriminate E).
  exists p. split; [reflexivity|].
  exact (proj1 (cached_article_count_is_bounded Sample.binary_tree Sample.code p E)).
Defined.

(** ** The metadata read from the XML *)

Module ExtractFacts.

Import Extract.

Ltac other_key :=
  repeat first
    [ rewrite lookup_insert_ne by done
    | rewrite lookup_singleton_ne by done
    | match goal with
      | |- context [match ?x with _ => _ end] => destruct x
      | |- context [if ?b then _ else _] => destruct b
      end ];
  try done.

Section WithLxml.

Variable element : Type.
Variable tag : element → string.
Variable get : element → string → option string.
Variable get_or : element → string → string → option string.
Variable text : element → option string.
Variable find : element → string → option element.
Variable findall : element → string → list element.
Variable children : element → list element.

Abbreviation meta_of := (meta_of element tag get get_or text find findall children).

Lemma root_attributes_other root m k :
  k ≠ "id" → k ≠ "cid" → k ≠ "name" →
  root_attributes element get root m !! k = m !! k.
Proof.
  intros H1 H2 H3. unfold root_attributes. cbn [foldl].
  destruct (get root "id"), (get root "cid"), (get root "name");
    by rewrite ?lookup_insert_ne by done.
Qed.

Lemma set_text_other k x m k' :
  k ≠ k' → set_text element text k x m !! k' = m !! k'.
Proof.
  intros H. unfold set_text. destruct x as [x|]; [|done].
  destruct (truthy (text x)); [|done]. by rewrite lookup_insert_ne.
Qed.

Lemma texte_version_other root m k :
  k ≠ "id" → k ≠ "nature" → k ≠ "titre" → k ≠ "etat" → k ≠ "date_debut" →
  k ≠ "date_fin" →
  texte_version element text find root m !! k = m !! k.
Proof.
  intros. unfold texte_version. cbn zeta.
  destruct (find root "META/META_SPEC/META_TEXTE_VERSION") as [mtv|].
  - rewrite !set_text_other by done.
    destruct (truthy _);
      [rewrite lookup_insert_ne by done | rewrite set_text_other by done];
      destruct (find root "META/META_COMMUN"); by rewrite ?set_text_other by done.
  - destruct (find root "META/META_COMMUN"); by rewrite ?set_text_other by done.
Qed.

Lemma article_other root m k :
  k ≠ "id" → k ≠ "num" → k ≠ "origine" → k ≠ "date_debut" → k ≠ "date_fin" →
  k ≠ "parent" → k ≠ "has_links" → k ≠ "link_types" →
  article element get get_or text find children root m !! k = m !! k.
Proof. intros. unfold article. cbn zeta. other_key. Qed.

Lemma textelr_other root m k :
  k ≠ "id" → k ≠ "nature" →
  textelr element text find root m !! k = m !! k.
Proof. intros. unfold textelr. cbn zeta. other_key. Qed.

Lemma set_refs_lookup k refs m :
  m !! k = None →
  jrefs (set_refs k refs m) k = Trees.nonempty refs.
Proof.
  intros H. unfold set_refs, jrefs, Trees.nonempty.
  destruct refs; [by rewrite H|]. by rewrite lookup_insert_eq.
Qed.

Lemma set_refs_other k refs m k' :
  k ≠ k' → set_refs k refs m !! k' = m !! k'.
Proof. intros H. unfold set_refs. destruct refs; [done|]. by rewrite lookup_insert_ne. Qed.

Lemma base_other root k :
  k ≠ "id" → k ≠ "cid" → k ≠ "name" → k ≠ "root_tag" →
  root_attributes element get root {["root_tag" := JVal (Some (tag root))]} !! k = None.
Proof.
  intros. rewrite root_attributes_other by done. by rewrite lookup_singleton_ne.
Qed.

(** Where the lists of references of the metadata come from. *)
Lemma meta_of_sous_sections root path :
  jrefs (meta_of root path) "sous_sections"
  = if String.eqb (tag root) "SECTION_TA" then
      match find root "STRUCTURE_TA" with
      | Some structure_ta =>
          Trees.nonempty
            (link_refs element get ["id"; "debut"; "fin"; "etat"]
               (findall structure_ta "LIEN_SECTION_TA"))
      | None => None
      end
    else None.
Proof.
  unfold Extract.meta_of. cbn zeta.
  set (m0 := root_attributes _ _ _ _).
  assert (m0 !! "sous_sections" = None) as H0 by (by apply base_other).
  destruct (String.eqb_spec (tag root) "TEXTE_VERSION") as [E1|E1].
  { replace (String.eqb (tag root) "SECTION_TA") with false by (by rewrite E1).
    unfold jrefs. by rewrite texte_version_other, H0 by done. }
  destruct (String.eqb (tag root) "SECTION_TA") eqn:E2.
  { unfold section_ta. cbn zeta.
    destruct (find root "STRUCTURE_TA") as [structure_ta|].
    - unfold jrefs. rewrite set_refs_other by done.
      apply (set_refs_lookup "sous_sections").
      by rewrite !lookup_insert_ne by done.
    - unfold jrefs. by rewrite !lookup_insert_ne, H0 by done. }
  destruct (String.eqb (tag root) "ARTICLE").
  { unfold jrefs. by rewrite article_other, H0 by done. }
  destruct (String.eqb (tag root) "TEXTELR").
  { unfold jrefs. by rewrite textelr_other, H0 by done. }
  unfold jrefs. by rewrite H0.
Qed.

Lemma meta_of_articles root path :
  jrefs (meta_of root path) "articles"
  = if String.eqb (tag root) "SECTION_TA" then
      match find root "STRUCTURE_TA" with
      | Some structure_ta =>
          Trees.nonempty
            (link_refs element get ["id"; "num"; "debut"; "fin"; "etat"; "origine"]
               (findall structure_ta "LIEN_ART"))
      | None => None
      end
    else None.
Proof.
  unfold Extract.meta_of. cbn zeta.
  set (m0 := root_attributes _ _ _ _).
  assert (m0 !! "articles" = None) as H0 by (by apply base_other).
  destruct (String.eqb_spec (tag root) "TEXTE_VERSION") as [E1|E1].
  { replace (String.eqb (tag root) "SECTION_TA") with false by (by rewrite E1).
    unfold jrefs. by rewrite texte_version_other, H0 by done. }
  destruct (String.eqb (tag root) "SECTION_TA") eqn:E2.
  { unfold section_ta. cbn zeta.
    destruct (find root "STRUCTURE_TA") as [structure_ta|].
    - apply (set_refs_lookup "articles").
      rewrite set_refs_other by done. by rewrite !lookup_insert_ne by done.
    - unfold jrefs. by rewrite !lookup_insert_ne, H0 by done. }
  destruct (String.eqb (tag root) "ARTICLE").
  { unfold jrefs. by rewrite article_other, H0 by done. }
  destruct (String.eqb (tag root) "TEXTELR").
  { unfold jrefs. by rewrite textelr_other, H0 by done. }
  unfold jrefs. by rewrite H0.
Qed.

(** A reference built from a link. *)
Lemma link_ref_lookup keys lien k :
  link_ref get keys lien !! k = if decide (k ∈ keys) then Some (get lien k) else None.
Proof.
  induction keys as [|k' keys IH]; cbn [link_ref foldr].
  - by rewrite lookup_empty, decide_False by set_solver.
  - fold (link_ref get keys lien). rewrite lookup_insert.
    destruct (decide (k' = k)) as [->|Hne].
    + by rewrite decide_True by set_solver.
    + rewrite IH. destruct (decide (k ∈ keys)).
      * by rewrite decide_True by set_solver.
      * by rewrite decide_False by set_solver.
Qed.

Lemma link_refs_spec keys liens ss :
  ss ∈ link_refs element get keys liens →
  ∃ lien, lien ∈ liens ∧ truthy (get lien "id") = true ∧ ss = link_ref get keys lien.
Proof.
  unfold link_refs. intros H. apply list_elem_of_fmap in H as (lien & -> & H).
  apply list_elem_of_filter in H as [H1 H2]. eauto.
Qed.

Lemma nonempty_default {A} (l : list A) : default [] (Trees.nonempty l) = l.
Proof. by destruct l. Qed.

Lemma nonempty_not_nil {A} (l : list A) : Trees.nonempty l ≠ Some [].
Proof. by destruct l. Qed.

Lemma link_ref_en_vigueur keys lien :
  "fin" ∈ keys → "etat" ∈ keys →
  Trees.en_vigueur (link_ref get keys lien)
  = bool_decide (get lien "fin" = Some "2999-01-01")
    || bool_decide (get lien "etat" = Some "VIGUEUR").
Proof.
  intros Hf He. unfold Trees.en_vigueur, dict_get_default, dict_get.
  by rewrite !link_ref_lookup, !decide_True by done.
Qed.

(** Every reference of the metadata is built from a link that has an id. *)
Lemma meta_refs_from_links root path ss :
  ss ∈ default [] (m_sous_sections (to_meta (meta_of root path)))
  ∨ ss ∈ default [] (m_articles (to_meta (meta_of root path))) →
  ∃ keys lien,
    (keys = ["id"; "debut"; "fin"; "etat"]
     ∨ keys = ["id"; "num"; "debut"; "fin"; "etat"; "origine"]) ∧
    truthy (get lien "id") = true ∧ ss = link_ref get keys lien.
Proof.
  cbn [to_meta m_sous_sections m_articles].
  rewrite meta_of_sous_sections, meta_of_articles.
  destruct (String.eqb (tag root) "SECTION_TA").
  2: { cbn. intros [H|H]; by apply elem_of_nil in H. }
  destruct (find root "STRUCTURE_TA") as [structure_ta|].
  2: { cbn. intros [H|H]; by apply elem_of_nil in H. }
  rewrite !nonempty_default. intros [H|H];
    apply link_refs_spec in H as (lien & _ & Hid & ->); eauto 10.
Qed.

Lemma meta_of_parent root path :
  tag root = "SECTION_TA" →
  jval (meta_of root path) "parent" = section_parent element get find root path.
Proof.
  intros Ht. unfold Extract.meta_of. cbn zeta. rewrite Ht.
  change (String.eqb "SECTION_TA" "TEXTE_VERSION") with false.
  change (String.eqb "SECTION_TA" "SECTION_TA") with true. cbv beta iota.
  unfold section_ta, jval. cbn zeta.
  destruct (find root "STRUCTURE_TA") as [structure_ta|].
  - rewrite !set_refs_other by done.
    by rewrite !(lookup_insert_ne _ "nb_articles"), !(lookup_insert_ne _ "nb_sections"),
       lookup_insert_eq by done.
  - by rewrite !(lookup_insert_ne _ "nb_articles"), !(lookup_insert_ne _ "nb_sections"),
       lookup_insert_eq by done.
Qed.

End WithLxml.

(** What the pattern of the fallback matches at the start of a subject. *)
Lemma text_parent_at_spec s p :
  text_parent_at s = Some p ↔
  ∃ rest, s = ParentSpec.in_section_path p +:+ rest ∧ ParentSpec.text_id_shape p.
Proof.
  unfold ParentSpec.in_section_path, ParentSpec.text_id_shape. split.
  - unfold text_parent_at.
    destruct s as [|c s1]; [done|].
    destruct (Ascii.eqb_spec c "/"%char) as [->|Hc].
    2: { destruct c as [[] [] [] [] [] [] [] []]; done. }
    cbn zeta.
    set (after := match PyStr.eat_lit "LEGI" s1 with
                  | Some r => Some r
                  | None => PyStr.eat_lit "JORF" s1
                  end).
    assert (∀ s2, after = Some s2 →
              ∃ src, (src = "LEGI" ∨ src = "JORF") ∧ s1 = src +:+ s2) as Hsrc.
    { unfold after. intros s2 H.
      destruct (PyStr.eat_lit "LEGI" s1) as [r|] eqn:E.
      - injection H as ->. apply DocIdFacts.eat_lit_spec in E. eauto.
      - apply DocIdFacts.eat_lit_spec in H. eauto. }
    destruct after as [s2|]; [|done].
    destruct (Hsrc s2 eq_refl) as (src & Hs & ->). clear Hsrc.
    destruct (PyStr.eat_lit "TEXT" s2) as [s3|] eqn:E3; [|done].
    apply DocIdFacts.eat_lit_spec in E3 as ->.
    destruct (Unicode.eat_digits 12 s3) as [s4|] eqn:E4; [|done].
    apply DocIdFacts.eat_digits_inv in E4 as (digits & -> & E4 & _).
    destruct (PyStr.startswith s4 "/section_ta/") eqn:E5; [|done].
    apply DocIdFacts.startswith_split in E5.
    intros [= <-]. exists (PyStr.drop (String.length "/section_ta/") s4).
    assert (src +:+ "TEXT" +:+ digits +:+ s4 = (src +:+ "TEXT" +:+ digits) +:+ s4) as Hre
      by (by rewrite !DocIdFacts.string_app_assoc).
    rewrite Hre, DocIdFacts.matched_app. split.
    + rewrite E5 at 1. by rewrite !DocIdFacts.string_app_assoc.
    + by exists src, digits.
  - intros (rest & -> & src & digits & Hs & -> & Hd).
    assert (("/" +:+ (src +:+ "TEXT" +:+ digits) +:+ "/section_ta/") +:+ rest
            = String "/" (src +:+ "TEXT" +:+ digits +:+ "/section_ta/" +:+ rest)) as ->
      by (by rewrite !DocIdFacts.string_app_assoc).
    unfold text_parent_at.
    assert (match PyStr.eat_lit "LEGI"
                    (src +:+ "TEXT" +:+ digits +:+ "/section_ta/" +:+ rest) with
            | Some r => Some r
            | None => PyStr.eat_lit "JORF"
                        (src +:+ "TEXT" +:+ digits +:+ "/section_ta/" +:+ rest)
            end = Some ("TEXT" +:+ digits +:+ "/section_ta/" +:+ rest)) as ->.
    { destruct Hs as [-> | ->].
      - by rewrite (proj2 (DocIdFacts.eat_lit_spec "LEGI" _ _) eq_refl).
      - by rewrite (proj2 (DocIdFacts.eat_lit_spec "JORF" _ _) eq_refl). }
    rewrite (proj2 (DocIdFacts.eat_lit_spec "TEXT" _ _) eq_refl).
    rewrite (DocIdFacts.eat_digits_app _ _ _ _ Hd).
    change ("" +:+ "/section_ta/" +:+ rest) with ("/section_ta/" +:+ rest).
    rewrite DocIdFacts.startswith_app. f_equal.
    assert (src +:+ "TEXT" +:+ digits +:+ "/section_ta/" +:+ rest
            = (src +:+ "TEXT" +:+ digits) +:+ "/section_ta/" +:+ rest) as ->
      by (by rewrite !DocIdFacts.string_app_assoc).
    apply DocIdFacts.matched_app.
Qed.

Lemma search_text_parent_eq s :
  search_text_parent s
  = match text_parent_at s with
    | Some m => Some m
    | None => match s with
              | EmptyString => None
              | String _ s' => search_text_parent s'
              end
    end.
Proof. by destruct s. Qed.

(** [re.search] with the pattern of the fallback. *)
Lemma search_text_parent_first s p :
  search_text_parent s = Some p
  ↔ DocId.first_match ParentSpec.in_section_path ParentSpec.text_id_shape s p.
Proof.
  apply (DocIdFacts.search_first_match text_parent_at);
    [apply search_text_parent_eq | apply text_parent_at_spec].
Qed.

Lemma search_text_parent_none s :
  search_text_parent s = None
  ↔ DocId.no_match ParentSpec.in_section_path ParentSpec.text_id_shape s.
Proof.
  apply (DocIdFacts.search_no_match text_parent_at);
    [apply search_text_parent_eq | apply text_parent_at_spec].
Qed.

(** Every row an archive leaves in the table was there before or is a row
    made from one of its entries. *)
Lemma upsert_row_Forall (P : document → Prop) r tbl :
  P r → Forall P tbl → Forall P (Ingest.upsert_row r tbl).
Proof.
  intros Hr. induction 1 as [|d tbl Hd Htbl IH]; cbn [Ingest.upsert_row].
  - by constructor.
  - destruct (decide (d_id d = d_id r)); by constructor.
Qed.

Lemma Forall_filter_keep {A} (P Q : A → Prop) `{∀ x, Decision (Q x)} (l : list A) :
  Forall P l → Forall P (filter Q l).
Proof.
  rewrite !Forall_forall. intros Hall x Hx.
  apply list_elem_of_filter in Hx as [_ Hx]. by apply Hall.
Qed.

Lemma upsert_documents_Forall (P : document → Prop) tbl rows :
  Forall P tbl → Forall P rows → Forall P (Ingest._upsert_documents tbl rows).
Proof.
  intros Ht Hr. revert tbl Ht. induction Hr as [|r rows Hr _ IH]; intros tbl Ht; [done|].
  cbn. apply IH. by apply upsert_row_Forall.
Qed.

Lemma ingest_archive_Forall (P : document → Prop)
    sha256_hexdigest parse_xml ilike meta_text tbl source members updated_at batch_size :
  Forall P tbl →
  (∀ name doctype data,
     P (Ingest.make_row sha256_hexdigest parse_xml (PyStr.upper source) updated_at
          name doctype data)) →
  Forall P (Ingest.st_tbl
              (Ingest.ingest_archive sha256_hexdigest parse_xml ilike meta_text
                 tbl source members updated_at batch_size)).
Proof.
  intros Htbl Hrow. unfold Ingest.ingest_archive. cbn zeta.
  set (step := Ingest.ingest_member _ _ _ _ _ _ _).
  set (st0 := {| Ingest.st_tbl := tbl |}).
  assert (∀ st, Forall P (Ingest.st_tbl st) → Forall P (Ingest.st_pending st) →
                Forall P (Ingest.st_tbl (foldl step st members))
                ∧ Forall P (Ingest.st_pending (foldl step st members))) as Hfold.
  { induction members as [|m members IH]; intros st H1 H2; [done|].
    cbn [foldl]. apply IH.
    - unfold step, Ingest.ingest_member.
      destruct (Ingest.mb_isfile m); [|done]. cbn [negb].
      destruct (Ingest.mb_data m) as [data|]; [|done].
      destruct (String.eqb _ "suppression_list").
      + rewrite DeleteFacts.delete_by_tokens_spec. cbn [Ingest.st_tbl].
        by apply Forall_filter_keep.
      + destruct (_ && _); [|done].
        destruct (batch_size <=? _)%nat; [|done].
        unfold Ingest.flush. cbn [Ingest.st_tbl Ingest.st_pending].
        apply upsert_documents_Forall; [done|].
        apply Forall_app. split; [done|]. by constructor.
    - unfold step, Ingest.ingest_member.
      destruct (Ingest.mb_isfile m); [|done]. cbn [negb].
      destruct (Ingest.mb_data m) as [data|]; [|done].
      destruct (String.eqb _ "suppression_list").
      + by rewrite DeleteFacts.delete_by_tokens_spec.
      + destruct (_ && _); [|done].
        destruct (batch_size <=? _)%nat.
        * unfold Ingest.flush. cbn [Ingest.st_pending]. constructor.
        * cbn [Ingest.st_pending]. apply Forall_app. split; [done|]. by constructor. }
  destruct (Hfold st0 Htbl (Forall_nil_2 _)) as [H1 H2].
  destruct (Ingest.st_pending (foldl step st0 members)) eqn:Hp; [done|].
  unfold Ingest.flush. cbn [Ingest.st_tbl]. rewrite Hp.
  by apply upsert_documents_Forall.
Qed.

End ExtractFacts.

(** X18. The child references the extractor stores: every entry of
    [sous_sections] and of [articles] comes from a link that has a
    non-empty attribute [id], and holds this id under the key [id] and the
    other attributes of the link ([None] for a missing one) under their
    keys; neither list is stored empty, and only a SECTION_TA document has
    them. *)
Theorem extracted_references_carry_ids
    (element : Type) (tag : element → string)
    (get : element → string → option string)
    (get_or : element → string → string → option string)
    (text : element → option string)
    (find : element → string → option element)
    (findall : element → string → list element)
    (children : element → list element)
    (root : element) (path_in_tar : string) :
  let m := Extract.to_meta
             (Extract.meta_of element tag get get_or text find findall children
                root path_in_tar) in
  let from_link := λ (keys : list string) (ss : gmap string (option string)),
    ∃ lien i, get lien "id" = Some i ∧ i ≠ "" ∧ ss !! "id" = Some (Some i) ∧
              ∀ k, k ∈ keys → ss !! k = Some (get lien k) in
  Forall (from_link ["debut"; "fin"; "etat"]) (default [] (m_sous_sections m)) ∧
  Forall (from_link ["num"; "debut"; "fin"; "etat"; "origine"])
         (default [] (m_articles m)) ∧
  m_sous_sections m ≠ Some [] ∧ m_articles m ≠ Some [] ∧
  (tag root ≠ "SECTION_TA" → m_sous_sections m = None ∧ m_articles m = None).
Proof.
  intros m from_link. unfold m.
  cbn [Extract.to_meta m_sous_sections m_articles].
  rewrite ExtractFacts.meta_of_sous_sections, ExtractFacts.meta_of_articles.
  assert (∀ keys keys' liens,
            (∀ k, k ∈ keys' → k ∈ keys) → "id" ∈ keys →
            Forall (from_link keys') (Extract.link_refs element get keys liens)) as Hrefs.
  { intros keys keys' liens Hsub Hid. apply Forall_forall. intros ss Hss.
    apply ExtractFacts.link_refs_spec in Hss as (lien & _ & Ht & ->).
    destruct (get lien "id") as [i|] eqn:Hi; [|done].
    exists lien, i. split; [done|]. split.
    { intros ->. done. }
    split.
    - by rewrite ExtractFacts.link_ref_lookup, decide_True, Hi by done.
    - intros k Hk. by rewrite ExtractFacts.link_ref_lookup, decide_True by auto. }
  destruct (String.eqb_spec (tag root) "SECTION_TA") as [E|E].
  2: { cbn. repeat split; try done; constructor. }
  destruct (find root "STRUCTURE_TA") as [structure_ta|].
  2: { cbn. repeat split; try done; constructor. }
  rewrite !ExtractFacts.nonempty_default.
  split; [apply Hrefs; set_solver|].
  split; [apply Hrefs; set_solver|].
  split; [apply ExtractFacts.nonempty_not_nil|].
  split; [apply ExtractFacts.nonempty_not_nil|]. done.
Qed.

(** X19. Validity of the extracted references: the extractor always writes
    the keys [fin] and [etat], so the default end date of the tree builder
    ([ss.get('fin', '2999-01-01')]) is never used on them.  A stored
    reference is in force exactly when the attribute [fin] of its link is
    2999-01-01 or its attribute [etat] is VIGUEUR; a link without the
    attribute [fin] whose [etat] is not VIGUEUR gives a reference that is
    not in force. *)
Theorem extracted_validity_ignores_the_default
    (element : Type) (tag : element → string)
    (get : element → string → option string)
    (get_or : element → string → string → option string)
    (text : element → option string)
    (find : element → string → option element)
    (findall : element → string → list element)
    (children : element → list element)
    (root : element) (path_in_tar : string) (ss : gmap string (option string)) :
  let m := Extract.to_meta
             (Extract.meta_of element tag get get_or text find findall children
                root path_in_tar) in
  ss ∈ default [] (m_sous_sections m) ∨ ss ∈ default [] (m_articles m) →
  ∃ lien,
    ss !! "fin" = Some (get lien "fin") ∧ ss !! "etat" = Some (get lien "etat") ∧
    Trees.en_vigueur ss
    = bool_decide (get lien "fin" = Some "2999-01-01")
      || bool_decide (get lien "etat" = Some "VIGUEUR") ∧
    (get lien "fin" = None → get lien "etat" ≠ Some "VIGUEUR" →
     Trees.en_vigueur ss = false).
Proof.
  intros m Hss.
  apply ExtractFacts.meta_refs_from_links in Hss as (keys & lien & Hk & _ & ->).
  exists lien.
  assert ("fin" ∈ keys ∧ "etat" ∈ keys) as [Hf He]
    by (destruct Hk as [-> | ->]; set_solver).
  rewrite !ExtractFacts.link_ref_lookup, !decide_True by done.
  rewrite ExtractFacts.link_ref_en_vigueur by done.
  split; [done|]. split; [done|]. split; [done|].
  intros -> Hne. by rewrite bool_decide_eq_false_2, bool_decide_eq_false_2.
Qed.

Lemma extracted_validity_ignores_the_default_witness :
  let m := Extract.to_meta (SampleXml.meta_of "legi/section_ta/LEGISCTA000006136117.xml") in
  (Trees.en_vigueur <$> default [] (m_sous_sections m)) = [true; false] ∧
  ∃ lien,
    SampleXml.get lien "fin" = None ∧
    Trees.en_vigueur (Extract.link_ref SampleXml.get ["id"; "debut"; "fin"; "etat"] lien)
    = false.
Proof.
  intros m. split; [reflexivity|].
  set (ss := Extract.link_ref SampleXml.get ["id"; "debut"; "fin"; "etat"] 6).
  destruct (extracted_validity_ignores_the_default nat SampleXml.tag SampleXml.get
              SampleXml.get_or SampleXml.text SampleXml.find SampleXml.findall
              SampleXml.children 0 "legi/section_ta/LEGISCTA000006136117.xml" ss)
    as (lien & Hf & He & _ & Hno).
  { left. apply list_elem_of_In. vm_compute. auto. }
  exists 6. split; [reflexivity|].
  apply Hno.
  - change (ss !! "fin") with (Some (@None string)) in Hf. by injection Hf as <-.
  - change (ss !! "etat") with (Some (Some "ABROGE")) in He. injection He as <-.
    discriminate.
Defined.

(** X20. The parent of a section: the attribute [id_txt] of CONTEXTE/TEXTE
    when it is not empty, else that of its TITRE_TXT; when the document
    gives none, the id of the leftmost place of the path where a LEGITEXT
    or JORFTEXT id (twelve digits) stands between [/] and [/section_ta/];
    when the path has no such place either, no usable parent is stored (the
    section is then the root of no code).  One of the two holds for every
    path.  The digits are those of [\d]: any decimal digit of Unicode. *)
Theorem section_parent_resolution
    (element : Type) (tag : element → string)
    (get : element → string → option string)
    (get_or : element → string → string → option string)
    (text : element → option string)
    (find : element → string → option element)
    (findall : element → string → list element)
    (children : element → list element)
    (root : element) (path_in_tar : string) :
  tag root = "SECTION_TA" →
  let parent := m_parent (Extract.to_meta
                            (Extract.meta_of element tag get get_or text find findall
                               children root path_in_tar)) in
  let in_document := Extract.context_parent element get find root in
  let in_path := DocId.first_match ParentSpec.in_section_path ParentSpec.text_id_shape
                   path_in_tar in
  let not_in_path := DocId.no_match ParentSpec.in_section_path ParentSpec.text_id_shape
                       path_in_tar in
  (∀ ctx i, find root "CONTEXTE/TEXTE" = Some ctx → get ctx "id_txt" = Some i →
            i ≠ "" → in_document = Some i) ∧
  (∀ ctx t, find root "CONTEXTE/TEXTE" = Some ctx → truthy (get ctx "id_txt") = false →
            find ctx "TITRE_TXT" = Some t → in_document = get t "id_txt") ∧
  (truthy in_document = true → parent = in_document) ∧
  (truthy in_document = false → ∀ p, in_path p → parent = Some p) ∧
  (truthy in_document = false → not_in_path →
   parent = in_document ∧ truthy parent = false) ∧
  ((∃ p, in_path p) ∨ not_in_path).
Proof.
  intros Ht parent in_document in_path not_in_path.
  assert (parent = Extract.section_parent element get find root path_in_tar) as Hp.
  { unfold parent. cbn [Extract.to_meta m_parent].
    by apply ExtractFacts.meta_of_parent. }
  rewrite Hp. unfold Extract.section_parent. cbn zeta. fold in_document.
  split_and!.
  - intros ctx i Hc Hi Hne. unfold in_document, Extract.context_parent.
    rewrite Hc. cbn zeta. rewrite Hi. cbn [truthy].
    apply String.eqb_neq in Hne. by rewrite Hne.
  - intros ctx t Hc Hi Hf. unfold in_document, Extract.context_parent.
    rewrite Hc. cbn zeta. by rewrite Hi, Hf.
  - by intros ->.
  - intros Hn p Hin. rewrite Hn.
    apply ExtractFacts.search_text_parent_first in Hin. by rewrite Hin.
  - intros Hn Hno. rewrite Hn.
    apply ExtractFacts.search_text_parent_none in Hno. by rewrite Hno.
  - destruct (Extract.search_text_parent path_in_tar) as [p|] eqn:E.
    + left. exists p. by apply ExtractFacts.search_text_parent_first.
    + right. by apply ExtractFacts.search_text_parent_none.
Qed.

Lemma section_parent_resolution_witness :
  m_parent (Extract.to_meta (SampleXml.meta_of "legi/section_ta/LEGISCTA000006136117.xml"))
  = Some "LEGITEXT000006070721" ∧
  m_parent (Extract.to_meta
              (Extract.meta_of unit (λ _, "SECTION_TA") (λ _ _, None) (λ _ _ _, None)
                 (λ _, None) (λ _ _, None) (λ _ _, []) (λ _, []) tt
                 "20250713/legi/JORFTEXT٠٠٠٠٠٦٠٧٠٧٢١/section_ta/LEGISCTA000006136118.xml"))
  = Some "JORFTEXT٠٠٠٠٠٦٠٧٠٧٢١".
Proof.
  split.
  - destruct (section_parent_resolution nat SampleXml.tag SampleXml.get SampleXml.get_or
                SampleXml.text SampleXml.find SampleXml.findall SampleXml.children 0
                "legi/section_ta/LEGISCTA000006136117.xml" eq_refl)
      as (H1 & _ & H3 & _).
    unfold SampleXml.meta_of. rewrite H3.
    + apply (H1 3 "LEGITEXT000006070721"); [reflexivity | reflexivity | discriminate].
    + reflexivity.
  - destruct (section_parent_resolution unit (λ _, "SECTION_TA") (λ _ _, None)
                (λ _ _ _, None) (λ _, None) (λ _ _, None) (λ _ _, []) (λ _, []) tt
                "20250713/legi/JORFTEXT٠٠٠٠٠٦٠٧٠٧٢١/section_ta/LEGISCTA000006136118.xml"
                eq_refl)
      as (_ & _ & _ & H4 & _).
    apply H4; [reflexivity|].
    apply ExtractFacts.search_text_parent_first. vm_compute. reflexivity.
Defined.

(** X21. The extractor feeds the tree builder what it needs: with the
    metadata read as the script reads them, ingesting an archive into a
    table in which every child reference carries the key [id] leaves such a
    table, whatever the archive holds (entries that do not parse and
    deletion manifests included). *)
Theorem ingestion_keeps_references_with_ids
    (element : Type) (tag : element → string)
    (get : element → string → option string)
    (get_or : element → string → string → option string)
    (text : element → option string)
    (find : element → string → option element)
    (findall : element → string → list element)
    (children : element → list element)
    (itertext : element → list string)
    (fromstring : string → string + element)
    (strip : string → string)
    (sha256_hexdigest : string → string)
    (ilike : string → string → bool) (meta_text : meta → string)
    (tbl : list document) (source : string) (members : list Ingest.member)
    (updated_at : string) (batch_size : nat) :
  let parse_xml := Extract.parse_xml element tag get get_or text find findall children
                     itertext fromstring strip in
  TreeSpec.table_refs_have_id tbl →
  TreeSpec.table_refs_have_id
    (Ingest.st_tbl (Ingest.ingest_archive sha256_hexdigest parse_xml ilike meta_text
                      tbl source members updated_at batch_size)).
Proof.
  intros parse_xml Htbl. unfold TreeSpec.table_refs_have_id.
  apply ExtractFacts.ingest_archive_Forall; [exact Htbl|].
  intros name doctype data.
  unfold Ingest.make_row, Ingest._extract_text_and_meta_from_xml.
  unfold parse_xml, Extract.parse_xml.
  destruct (fromstring data) as [e|root]; cbn [Ingest.parse_error_record d_meta
    Ingest.meta_set_source m_sous_sections default]; [constructor|].
  apply Forall_forall. intros ss Hss.
  destruct (ExtractFacts.meta_refs_from_links element tag get get_or text find findall
              children root name ss (or_introl Hss)) as (keys & lien & Hk & _ & ->).
  destruct Hk as [-> | ->]; unfold Extract.link_ref; cbn [foldr];
    by rewrite lookup_insert_eq.
Qed.

Lemma ingestion_keeps_references_with_ids_witness :
  let st := Ingest.ingest_archive (λ s, s) SampleXml.parse_xml (λ _ _, false) (λ _, "")
              [] "LEGI"
              [{| Ingest.mb_name := "legi/section_ta/LEGISCTA000006136117.xml";
                  Ingest.mb_isfile := true; Ingest.mb_data := Some "<SECTION_TA/>" |}]
              "20250713-140000" 500 in
  TreeSpec.table_refs_have_id (Ingest.st_tbl st) ∧
  d_id <$> Ingest.st_tbl st = ["LEGISCTA000006136117"].
Proof.
  intros st. split; [|reflexivity].
  apply (ingestion_keeps_references_with_ids nat SampleXml.tag SampleXml.get
           SampleXml.get_or SampleXml.text SampleXml.find SampleXml.findall
           SampleXml.children SampleXml.itertext SampleXml.fromstring PyStr.strip).
  constructor.
Defined.
